(** * Instrument drivers: lock-in 7280DSP, Keithley 2700 logger, R&S RTx logger

    A shallow embedding of the three driver classes
    ([LockIn-SignalRecovery_7280DSP/main.py], [Logger-Keithley_2700/main.py],
    [Logger-Rohde&Schwarz_RTx/main.py]) and of the pieces of the Python
    runtime they call, followed by the properties of the drivers.

    Conventions.
    - A Python [str] is a Rocq [string], i.e. the UTF-8 bytes of the text.
      Searching, splitting and replacing give the same result on the bytes
      and on the characters of well-formed UTF-8; indexing and slicing
      count characters, each a leading byte and its continuation bytes.
    - A Python [float] is a primitive binary64 [float]; every arithmetic
      operation is the IEEE 754 one.
    - A raised exception is [Raise e]; a returned value is [Ok v].
    - The instrument, the clock and the host's stop flag form a [world]
      threaded through every method that talks to them. *)

From Stdlib Require Import ZArith Ascii String List Floats Lia Bool.
From Stdlib Require Import DecimalString DecimalZ.
From stdpp Require Import gmap strings list.

Open Scope Z_scope.
Set Warnings "-inexact-float".

(* ===================================================================== *)
(** * Python runtime                                                      *)
(* ===================================================================== *)

Module Py.

(** ** Exceptions and results *)

Inductive exc : Set :=
  | ValueError | KeyError | IndexError | TypeError
  | AttributeError | OverflowError | TimeoutError.

Inductive result (A : Type) : Type :=
  | Ok (a : A)
  | Raise (e : exc).
Arguments Ok {A} a.
Arguments Raise {A} e.

Definition bind {A B} (r : result A) (k : A -> result B) : result B :=
  match r with
  | Ok a => k a
  | Raise e => Raise e
  end.

(** [try: ... except Exception: fallback] *)
Definition try_except {A} (r : result A) (fallback : A) : A :=
  match r with Ok a => a | Raise _ => fallback end.

(** ** Characters *)

Definition is_digit (c : ascii) : bool :=
  let n := N_of_ascii c in ((48 <=? n) && (n <=? 57))%N.

Definition digit_val (c : ascii) : Z := Z.of_N (N_of_ascii c) - 48.

(** ASCII characters for which [str.isspace] holds: TAB, LF, VT, FF, CR,
    FS, GS, RS, US and SPACE. *)
Definition is_space (c : ascii) : bool :=
  let n := N_of_ascii c in
  (((9 <=? n) && (n <=? 13)) || ((28 <=? n) && (n <=? 32)))%N.

(** The white space that [int] and [float] skip at the two ends of a text:
    TAB, LF, VT, FF, CR and SPACE, but not FS, GS, RS and US. *)
Definition is_c_space (c : ascii) : bool :=
  let n := N_of_ascii c in
  (((9 <=? n) && (n <=? 13)) || (n =? 32))%N.

(** A byte below 128 is a character of its own; a byte [10xxxxxx] continues
    the character that the bytes before it began. *)
Definition is_ascii_char (c : ascii) : bool := (N_of_ascii c <? 128)%N.

Definition is_cont (c : ascii) : bool :=
  let n := N_of_ascii c in ((128 <=? n) && (n <? 192))%N.

Definition lower (c : ascii) : ascii :=
  let n := N_of_ascii c in
  if ((65 <=? n) && (n <=? 90))%N then ascii_of_N (n + 32) else c.

(** ** Strings *)

Fixpoint mem_char (c : ascii) (s : string) : bool :=
  match s with
  | EmptyString => false
  | String d s' => if Ascii.eqb c d then true else mem_char c s'
  end.

(** [s.startswith(p)] *)
Definition startswith (s p : string) : bool := String.prefix p s.

(** [sub in s] *)
Fixpoint contains (s sub : string) : bool :=
  if String.prefix sub s then true
  else match s with
       | EmptyString => false
       | String _ s' => contains s' sub
       end.

Definition str_rev (s : string) : string := String.rev s.

(** [s.endswith(p)] *)
Definition endswith (s p : string) : bool :=
  String.prefix (str_rev p) (str_rev s).

(** Every byte of the text is below 128. *)
Fixpoint is_ascii (s : string) : bool :=
  match s with
  | EmptyString => true
  | String c s' => is_ascii_char c && is_ascii s'
  end.

(** The characters of a text, in order: a byte that continues nothing,
    with the continuation bytes that follow it. *)
Fixpoint chars (s : string) : list string :=
  match s with
  | EmptyString => []
  | String c s' =>
      let rest := chars s' in
      match s' with
      | String d _ =>
          if is_cont d then
            match rest with
            | t :: ts => String c t :: ts
            | [] => [String c EmptyString]
            end
          else String c EmptyString :: rest
      | EmptyString => [String c EmptyString]
      end
  end.

(** The text made of the given characters. *)
Definition join_chars (l : list string) : string :=
  fold_right String.append EmptyString l.

(** [s[n:]] for a literal [n >= 0] *)
Definition slice_from (n : nat) (s : string) : string :=
  join_chars (skipn n (chars s)).

(** [s[:-n]] for a literal [n > 0] *)
Definition slice_drop_last (n : nat) (s : string) : string :=
  let cs := chars s in join_chars (firstn (length cs - n) cs).

(** [s[-1]] *)
Definition last_char (s : string) : result string :=
  match rev (chars s) with
  | [] => Raise IndexError
  | c :: _ => Ok c
  end.

(** [s.replace(old, new)] for a non-empty [old]: occurrences are found from
    the left and do not overlap.  [skip] counts the characters of an
    occurrence that was just replaced and that remain to be dropped. *)
Fixpoint replace_go (old new : string) (skip : nat) (s : string) : string :=
  match s with
  | EmptyString => EmptyString
  | String c s' =>
      match skip with
      | S k => replace_go old new k s'
      | O =>
          if String.prefix old s
          then new +:+ replace_go old new (String.length old - 1) s'
          else String c (replace_go old new O s')
      end
  end.

Definition replace (s old new : string) : string :=
  match old with
  | EmptyString => s
  | _ => replace_go old new O s
  end.

(** [s.split(sep)] for a non-empty [sep]: the pair is the piece under
    construction and the pieces after it. *)
Fixpoint split_go (sep : string) (skip : nat) (s : string)
  : string * list string :=
  match s with
  | EmptyString => (EmptyString, [])
  | String c s' =>
      match skip with
      | S k => split_go sep k s'
      | O =>
          if String.prefix sep s
          then let '(t, ts) := split_go sep (String.length sep - 1) s' in
               (EmptyString, t :: ts)
          else let '(t, ts) := split_go sep O s' in
               (String c t, ts)
      end
  end.

Definition split (s sep : string) : list string :=
  let '(t, ts) := split_go sep O s in t :: ts.

(** [s.split()]: pieces separated by runs of white space, none empty. *)
Fixpoint split_ws_go (cur : string) (s : string) : list string :=
  match s with
  | EmptyString =>
      match cur with EmptyString => [] | _ => [str_rev cur] end
  | String c s' =>
      if is_space c
      then match cur with
           | EmptyString => split_ws_go EmptyString s'
           | _ => str_rev cur :: split_ws_go EmptyString s'
           end
      else split_ws_go (String c cur) s'
  end.

Definition split_ws (s : string) : list string := split_ws_go EmptyString s.

Fixpoint lstrip_by (p : ascii -> bool) (s : string) : string :=
  match s with
  | EmptyString => EmptyString
  | String c s' => if p c then lstrip_by p s' else s
  end.

Definition strip_by (p : ascii -> bool) (s : string) : string :=
  str_rev (lstrip_by p (str_rev (lstrip_by p s))).

(** [s.strip(chars)] *)
Definition strip (s chars : string) : string :=
  strip_by (fun c => mem_char c chars) s.

(** [l[-1]] and [l[i]] on lists *)
Definition last_item {A} (l : list A) : result A :=
  match rev l with
  | [] => Raise IndexError
  | x :: _ => Ok x
  end.

Definition item {A} (l : list A) (i : nat) : result A :=
  match nth_error l i with
  | Some x => Ok x
  | None => Raise IndexError
  end.

(** ** [int(str)]: optional white space, optional sign, decimal digits
    with single underscores allowed between digits.

    The grammar is read on ASCII text, where it is the interpreter's: the
    white space at the two ends is that of [is_c_space].  The digits and
    the white space of other scripts, which the interpreter also accepts,
    are not recognised, so that a text with a character outside ASCII is
    never read as a number; and the interpreter's limit on the number of
    digits is not modelled. *)

Definition strip_ws (s : string) : string := strip_by is_c_space s.

(** The digits that follow a first digit: [acc] is the value read so far,
    [n] the number of digits read; the rest of the string is returned. *)
Fixpoint digitpart_go (acc : Z) (n : nat) (s : string) : Z * nat * string :=
  match s with
  | String c s' =>
      if is_digit c then digitpart_go (10 * acc + digit_val c) (S n) s'
      else if Ascii.eqb c "_" then
        match s' with
        | String d s'' =>
            if is_digit d
            then digitpart_go (10 * acc + digit_val d) (S n) s''
            else (acc, n, s)
        | EmptyString => (acc, n, s)
        end
      else (acc, n, s)
  | EmptyString => (acc, n, s)
  end.

Definition digitpart (s : string) : option (Z * nat * string) :=
  match s with
  | String c s' =>
      if is_digit c then Some (digitpart_go (digit_val c) 1 s') else None
  | EmptyString => None
  end.

(** An optional sign: [true] for minus. *)
Definition read_sign (s : string) : bool * string :=
  match s with
  | String c s' =>
      if Ascii.eqb c "-" then (true, s')
      else if Ascii.eqb c "+" then (false, s')
      else (false, s)
  | EmptyString => (false, s)
  end.

Definition int_of_str (s : string) : result Z :=
  let '(neg, body) := read_sign (strip_ws s) in
  match digitpart body with
  | Some (v, _, EmptyString) => Ok (if neg then - v else v)
  | _ => Raise ValueError
  end.

(** [str(n)] for an [int] *)
Definition str_of_int (z : Z) : string := NilZero.string_of_int (Z.to_int z).

(** ** Floats *)

(** The binary64 number nearest to [(-1)^neg * m * 10^e], ties to even. *)
Definition SF_of_decimal (neg : bool) (m e : Z) : spec_float :=
  match m with
  | Zpos p =>
      if 0 <=? e
      then binary_round prec emax neg (p * Z.to_pos (10 ^ e)) 0
      else
        let '(q, e', l) :=
          SFdiv_core_binary prec emax (Zpos p) 0 (10 ^ (- e)) 0 in
        binary_round_aux prec emax neg q e' l
  | _ => S754_zero neg
  end.

Definition float_of_decimal (neg : bool) (m e : Z) : float :=
  SF2Prim (SF_of_decimal neg m e).

(** The float nearest to an integer. *)
Definition float_of_Z (z : Z) : float :=
  SF2Prim (binary_normalize prec emax z 0 false).

Fixpoint str_lower (s : string) : string :=
  match s with
  | EmptyString => EmptyString
  | String c s' => String (lower c) (str_lower s')
  end.

(** [exponent ::= ("e" | "E") [sign] digitpart], or nothing. *)
Definition read_exponent (s : string) : option (Z * string) :=
  match s with
  | String c s' =>
      if Ascii.eqb (lower c) "e" then
        let '(neg, body) := read_sign s' in
        match digitpart body with
        | Some (v, _, rest) => Some (if neg then - v else v, rest)
        | None => None
        end
      else Some (0, s)
  | EmptyString => Some (0, s)
  end.

(** [number ::= [digitpart] "." digitpart | digitpart ["."]]: the digits
    as one integer, the number of digits after the point, and the rest. *)
Definition read_number (s : string) : option (Z * nat * string) :=
  match digitpart s with
  | Some (ip, _, String c rest) =>
      if Ascii.eqb c "." then
        match rest with
        | String d _ =>
            if is_digit d then
              match digitpart rest with
              | Some (fp, nf, rest') =>
                  Some (ip * 10 ^ Z.of_nat nf + fp, nf, rest')
              | None => None
              end
            else Some (ip, O, rest)
        | EmptyString => Some (ip, O, rest)
        end
      else Some (ip, O, String c rest)
  | Some (ip, _, EmptyString) => Some (ip, O, EmptyString)
  | None =>
      match s with
      | String c rest =>
          if Ascii.eqb c "." then
            match digitpart rest with
            | Some (fp, nf, rest') => Some (fp, nf, rest')
            | None => None
            end
          else None
      | EmptyString => None
      end
  end.

(** [float(str)]: white space is stripped, then
    [[sign] (floatnumber | "inf" | "infinity" | "nan")], letters in either
    case; the value is the decimal number rounded to the nearest binary64,
    ties to even, an infinity when it is too large.  As for [int], the
    grammar is read on ASCII text. *)
Definition float_of_str (s : string) : result float :=
  let '(neg, body) := read_sign (strip_ws s) in
  let low := str_lower body in
  if String.eqb low "inf" || String.eqb low "infinity"
  then Ok (if neg then neg_infinity else infinity)
  else if String.eqb low "nan" then Ok nan
  else
    match read_number body with
    | Some (m, nf, rest) =>
        match read_exponent rest with
        | Some (e, EmptyString) =>
            Ok (float_of_decimal neg m (e - Z.of_nat nf))
        | _ => Raise ValueError
        end
    | None => Raise ValueError
    end.

(** [int(x)] for a float: truncation towards zero. *)
Definition int_of_float (f : float) : result Z :=
  match Prim2SF f with
  | S754_zero _ => Ok 0
  | S754_finite s m e => Ok (cond_Zopp s (Z.shiftl (Zpos m) e))
  | S754_infinity _ => Raise OverflowError
  | S754_nan => Raise ValueError
  end.

(** [max(a, b)] on floats: [b] when [b > a], otherwise [a]. *)
Definition max_ (a b : float) : float := if (a <? b)%float then b else a.

(** [numpy.mean] of a one-dimensional float64 array: numpy's sum of the
    elements divided by their number.

    numpy adds float64 values pairwise.  Fewer than eight values are added
    one by one to -0.0.  Eight values or more, up to 128, are added in
    eight interleaved partial sums, which start as the first eight values
    and take one value each from every further block of eight; the partial
    sums are added as a balanced tree and the values after the last full
    block one by one. *)
Fixpoint pw_unrolled (r0 r1 r2 r3 r4 r5 r6 r7 : float) (l : list float)
  : float :=
  match l with
  | a0 :: a1 :: a2 :: a3 :: a4 :: a5 :: a6 :: a7 :: l' =>
      pw_unrolled (r0 + a0) (r1 + a1) (r2 + a2) (r3 + a3)
                  (r4 + a4) (r5 + a5) (r6 + a6) (r7 + a7) l'
  | _ =>
      fold_left PrimFloat.add l
        (((r0 + r1) + (r2 + r3)) + ((r4 + r5) + (r6 + r7)))
  end%float.

Definition pw_block (l : list float) : float :=
  match l with
  | a0 :: a1 :: a2 :: a3 :: a4 :: a5 :: a6 :: a7 :: l' =>
      pw_unrolled a0 a1 a2 a3 a4 a5 a6 a7 l'
  | _ => fold_left PrimFloat.add l (-0)%float
  end.

(** More than 128 values are split at half their number, rounded down to a
    multiple of eight, and the sums of the two parts are added.  [depth]
    bounds the number of nested splits; the number of values is enough. *)
Fixpoint pairwise_sum (depth : nat) (l : list float) : float :=
  match depth with
  | S d =>
      if (128 <? length l)%nat then
        let n2 := (length l / 2 - (length l / 2) mod 8)%nat in
        (pairwise_sum d (firstn n2 l) + pairwise_sum d (skipn n2 l))%float
      else pw_block l
  | O => pw_block l
  end.

(** The reduction adds the pairwise sum to the value it starts from: -0.0,
    or 0.0 when there is nothing to add.  (This is numpy 1.25 and later.
    Earlier versions start from 0.0 in both places, which gives another
    result, 0.0 for -0.0, only when every value is -0.0.) *)
Definition np_sum (l : list float) : float :=
  match l with
  | [] => (0 + pairwise_sum O l)%float
  | _ => (-0 + pairwise_sum (length l) l)%float
  end.

Definition np_mean (l : list float) : float :=
  (np_sum l / float_of_Z (Z.of_nat (length l)))%float.

(** ** Dynamically typed values, as found in the parameter dictionaries *)

Inductive value : Type :=
  | VNone
  | VBool (b : bool)
  | VInt (z : Z)
  | VFloat (f : float)
  | VStr (s : string).

(** [v == "literal"] *)
Definition eq_str (v : value) (s : string) : bool :=
  match v with
  | VStr t => String.eqb t s
  | _ => false
  end.

(** Truth value of [v] in a condition. *)
Definition truthy (v : value) : bool :=
  match v with
  | VNone => false
  | VBool b => b
  | VInt z => negb (z =? 0)
  | VFloat f => negb (f =? 0)%float
  | VStr s => negb (String.eqb s EmptyString)
  end.

(** [int(v)] *)
Definition to_int (v : value) : result Z :=
  match v with
  | VNone => Raise TypeError
  | VBool b => Ok (if b then 1 else 0)
  | VInt z => Ok z
  | VFloat f => int_of_float f
  | VStr s => int_of_str s
  end.

(** [float(v)] *)
Definition to_float (v : value) : result float :=
  match v with
  | VNone => Raise TypeError
  | VBool b => Ok (if b then 1%float else 0%float)
  | VInt z =>
      let f := float_of_Z z in
      if is_infinity f then Raise OverflowError else Ok f
  | VFloat f => Ok f
  | VStr s => float_of_str s
  end.

(** A value that must be a string for a [str] method to be called on it. *)
Definition as_str (v : value) : result string :=
  match v with
  | VStr s => Ok s
  | _ => Raise AttributeError
  end.

(** [d[key]] and [d.get(key, default)] on a parameter dictionary *)
Definition getitem {V} (d : gmap string V) (key : string) : result V :=
  match d !! key with
  | Some v => Ok v
  | None => Raise KeyError
  end.

Definition get_default {V} (d : gmap string V) (key : string) (dflt : V) : V :=
  match d !! key with
  | Some v => v
  | None => dflt
  end.

(** Lookup in a table written as an ordered literal of pairs. *)
Fixpoint table_get {V} (t : list (string * V)) (key : string) : result V :=
  match t with
  | [] => Raise KeyError
  | (k, v) :: t' => if String.eqb k key then Ok v else table_get t' key
  end.

(** [range(a, b)] as a list, by recursion on its length. *)
Fixpoint range_from (a : Z) (n : nat) : list Z :=
  match n with
  | O => []
  | S k => a :: range_from (a + 1) k
  end.

Definition range (a b : Z) : list Z := range_from a (Z.to_nat (b - a)).

End Py.

(** [x ← e; k] runs [e] and, unless it raises, continues with [k]. *)
#[export] Instance result_bind : MBind Py.result :=
  fun A B (k : A -> Py.result B) (r : Py.result A) => Py.bind r k.
#[export] Instance result_ret : MRet Py.result := @Py.Ok.

(* ===================================================================== *)
(** * Host and instrument                                                 *)
(* ===================================================================== *)

Module Host.
Import Py.

(** What a driver does to its surroundings, in the order it happens. *)
Inductive event : Type :=
  | EWrite (cmd : string)       (* [self.port.write(cmd)] *)
  | ERead (resp : string)       (* [self.port.read()] returned [resp] *)
  | EStop (stopped : bool)      (* [self.is_run_stopped()] returned *)
  | ESleep (d : float).         (* [time.sleep(d)] *)

(** [inbox]: the answers the instrument will give, in order; reading from
    an empty inbox is a transport timeout.  [clock]: what [time.time()]
    returns.  [stop_signal n]: what the [n]-th call of [is_run_stopped]
    returns. *)
Record world : Type := {
  inbox : list string;
  clock : float;
  stop_signal : nat -> bool;
  stop_polls : nat;
  log : list event
}.

Definition emit (e : event) (w : world) : world :=
  {| inbox := inbox w; clock := clock w; stop_signal := stop_signal w;
     stop_polls := stop_polls w; log := log w ++ [e] |}.

Definition set_inbox (rs : list string) (w : world) : world :=
  {| inbox := rs; clock := clock w; stop_signal := stop_signal w;
     stop_polls := stop_polls w; log := log w |}.

(** The durations of the sleeps of a log, in order. *)
Fixpoint sleeps (l : list event) : list float :=
  match l with
  | [] => []
  | ESleep d :: l' => d :: sleeps l'
  | _ :: l' => sleeps l'
  end.

(** The answers of [is_run_stopped] in a log, in order. *)
Fixpoint stop_checks (l : list event) : list bool :=
  match l with
  | [] => []
  | EStop b :: l' => b :: stop_checks l'
  | _ :: l' => stop_checks l'
  end.

Definition io (A : Type) : Type := world -> result A * world.

Definition io_ret {A} (a : A) : io A := fun w => (Ok a, w).

Definition io_bind {A B} (m : io A) (k : A -> io B) : io B :=
  fun w =>
    match m w with
    | (Ok a, w') => k a w'
    | (Raise e, w') => (Raise e, w')
    end.

(** A computation that only returns or raises. *)
Definition lift {A} (r : result A) : io A := fun w => (r, w).

Definition port_write (cmd : string) : io unit :=
  fun w => (Ok tt, emit (EWrite cmd) w).

Definition port_read : io string :=
  fun w =>
    match inbox w with
    | [] => (Raise TimeoutError, w)
    | r :: rs => (Ok r, emit (ERead r) (set_inbox rs w))
    end.

Definition is_run_stopped : io bool :=
  fun w =>
    let b := stop_signal w (stop_polls w) in
    (Ok b,
     emit (EStop b)
       {| inbox := inbox w; clock := clock w; stop_signal := stop_signal w;
          stop_polls := S (stop_polls w); log := log w |}).

Definition time_time : io float := fun w => (Ok (clock w), w).

(** What [time.sleep(d)] accepts, as CPython 3.11 decides it.  A duration
    that is not a number is refused with ValueError.  The duration is then
    taken in nanoseconds, [d * 1e9] rounded away from zero to an integer:
    outside the interval from -2^63 to 2^63 it is refused with
    OverflowError; it is next stored in a signed 64-bit integer, where 2^63
    itself wraps to a negative number; and a negative number of
    nanoseconds is refused with ValueError. *)
Definition sleep_check (d : float) : result unit :=
  if is_nan d then Raise ValueError
  else
    let ns := (d * 1e9)%float in
    if (ns <? -0x1p63)%float || (0x1p63 <? ns)%float then Raise OverflowError
    else if (ns =? 0x1p63)%float then Raise ValueError
    else if (ns <? 0)%float then Raise ValueError
    else Ok tt.

(** The world after a sleep of [d] seconds. *)
Definition slept (d : float) (w : world) : world :=
  emit (ESleep d)
    {| inbox := inbox w; clock := (clock w + d)%float;
       stop_signal := stop_signal w; stop_polls := stop_polls w;
       log := log w |}.

Definition time_sleep (d : float) : io unit :=
  fun w =>
    match sleep_check d with
    | Ok _ => (Ok tt, slept d w)
    | Raise e => (Raise e, w)
    end.

End Host.

#[export] Instance io_mbind : MBind Host.io :=
  fun A B (k : A -> Host.io B) (m : Host.io A) => Host.io_bind m k.
#[export] Instance io_mret : MRet Host.io := @Host.io_ret.

(* ===================================================================== *)
(** * LockIn-SignalRecovery_7280DSP                                        *)
(* ===================================================================== *)

Module LockIn.
Import Py Host.

Definition gains : list (string * string) :=
  [ ("Auto gain", "AUTOMATIC 1");
    ("0 dB", "AUTOMATIC 0; ACGAIN 0");
    ("10 dB", "AUTOMATIC 0; ACGAIN 1");
    ("20 dB", "AUTOMATIC 0; ACGAIN 2");
    ("30 dB", "AUTOMATIC 0; ACGAIN 3");
    ("40 dB", "AUTOMATIC 0; ACGAIN 4");
    ("50 dB", "AUTOMATIC 0; ACGAIN 5");
    ("60 dB", "AUTOMATIC 0; ACGAIN 6");
    ("70 dB", "AUTOMATIC 0; ACGAIN 7");
    ("80 dB", "AUTOMATIC 0; ACGAIN 8");
    ("90 dB", "AUTOMATIC 0; ACGAIN 9") ].

(** The dictionary comprehension
    [{int(v.split()[-1]): int(k[:-3]) for k, v in t.items()
      if v.startswith("AUTOMATIC 0; ACGAIN")}]:
    items are visited in order, a later key overwrites an earlier one. *)
Fixpoint inv_gains_from (t : list (string * string)) (acc : gmap Z Z)
  : result (gmap Z Z) :=
  match t with
  | [] => Ok acc
  | (k, v) :: t' =>
      if startswith v "AUTOMATIC 0; ACGAIN" then
        w ← last_item (split_ws v);
        code ← int_of_str w;
        dB ← int_of_str (slice_drop_last 3 k);
        inv_gains_from t' (<[code := dB]> acc)
      else inv_gains_from t' acc
  end.

Definition inv_gains_of (t : list (string * string)) : result (gmap Z Z) :=
  inv_gains_from t ∅.

Definition timeconstants : list (string * string) :=
  [ ("10µ", "TC 0"); ("20µ", "TC 1"); ("40µ", "TC 2"); ("80µ", "TC 3");
    ("160µ", "TC 4"); ("320µ", "TC 5"); ("640µ", "TC 6");
    ("5m", "TC 7"); ("10m", "TC 8"); ("20m", "TC 9"); ("50m", "TC 10");
    ("100m", "TC 11"); ("200m", "TC 12"); ("500m", "TC 13");
    ("1", "TC 14"); ("2", "TC 15"); ("5", "TC 16"); ("10", "TC 17");
    ("20", "TC 18"); ("50", "TC 19"); ("100", "TC 20"); ("200", "TC 21");
    ("500", "TC 22");
    ("1k", "TC 23"); ("2k", "TC 24"); ("5k", "TC 25"); ("10k", "TC 26");
    ("20k", "TC 27"); ("50k", "TC 28"); ("100k", "TC 29") ].

(** The instance attributes the modelled methods read or assign.
    [timeconstant] and [waittimeconstants] are assigned by
    [get_GUIparameter] only ([__init__] assigns [time_constant] and
    [wait_time_constants]), hence the options. *)
Record state : Type := {
  sweepmode : value;
  source : value;
  input : value;
  coupling : value;
  slope : value;
  ground : value;
  sensitivity : value;
  filter1 : value;
  filter2 : value;
  gain : value;
  timeconstant : option value;
  waittimeconstants : option float;
  variables : list string;
  units : list string;
  plottype : list bool;
  savetype : list bool;
  frq : float;
  r : float;
  phi : float;
  sen : float;
  nhz : float;
  acg : Z;
  acg_dB : Z;
  time_ref : float;
  inv_gains : gmap Z Z
}.

Definition get_GUIparameter (parameter : gmap string value) (st : state)
  : result state :=
  p_sweepmode ← getitem parameter "SweepMode";
  p_source ← getitem parameter "Source";
  p_input ← getitem parameter "Input";
  p_coupling ← getitem parameter "Coupling";
  p_slope ← getitem parameter "Slope";
  p_ground ← getitem parameter "Ground";
  p_sensitivity ← getitem parameter "Sensitivity";
  p_filter1 ← getitem parameter "Filter1";
  p_filter2 ← getitem parameter "Filter2";
  p_gain ← getitem parameter "Gain";
  p_timeconstant ← getitem parameter "TimeConstant";
  p_wait ← getitem parameter "WaitTimeConstants";
  wait ← to_float p_wait;
  inp ← as_str p_input;
  let new_units :=
    if startswith inp "Voltage"
    then ["V"; "deg"; "Hz"; "V"; "dB"; "V/sqrt(Hz)"]
    else if startswith inp "Current"
    then ["A"; "deg"; "Hz"; "V"; "dB"; "A/sqrt(Hz)"]
    else units st in
  Ok {| sweepmode := p_sweepmode; source := p_source; input := p_input;
        coupling := p_coupling; slope := p_slope; ground := p_ground;
        sensitivity := p_sensitivity; filter1 := p_filter1;
        filter2 := p_filter2; gain := p_gain;
        timeconstant := Some p_timeconstant;
        waittimeconstants := Some wait;
        variables := ["Magnitude"; "Phase"; "Frequency"; "Sensitivity";
                      "AC Gain"; "Noise density"];
        units := new_units;
        plottype := [true; true; true; true; true; true];
        savetype := [true; true; true; true; true; true];
        frq := frq st; r := r st; phi := phi st; sen := sen st;
        nhz := nhz st; acg := acg st; acg_dB := acg_dB st;
        time_ref := time_ref st; inv_gains := inv_gains st |}.

(** The replacement table of [unit_to_float], in its order. *)
Definition chars : list (string * string) :=
  [ ("V", ""); ("s", ""); (" ", ""); ("n", "e-9"); ("µ", "e-6");
    ("m", "e-3") ].

Definition unit_to_float (unit : value) : result float :=
  u ← as_str unit;
  float_of_str (fold_left (fun u '(c, by_) => replace u c by_) chars u).

Definition attr {A} (o : option A) : result A :=
  match o with
  | Some a => Ok a
  | None => Raise AttributeError
  end.

Definition set_time_ref (t : float) (st : state) : state :=
  {| sweepmode := sweepmode st; source := source st; input := input st;
     coupling := coupling st; slope := slope st; ground := ground st;
     sensitivity := sensitivity st; filter1 := filter1 st;
     filter2 := filter2 st; gain := gain st;
     timeconstant := timeconstant st;
     waittimeconstants := waittimeconstants st;
     variables := variables st; units := units st;
     plottype := plottype st; savetype := savetype st;
     frq := frq st; r := r st; phi := phi st; sen := sen st;
     nhz := nhz st; acg := acg st; acg_dB := acg_dB st;
     time_ref := t; inv_gains := inv_gains st |}.

Definition adapt_ready (st : state) : io state :=
  now ← time_time;
  mret (set_time_ref now st).

Definition trigger_ready (st : state) : io unit :=
  wait ← lift (attr (waittimeconstants st));
  unit ← lift (attr (timeconstant st));
  tc ← lift (unit_to_float unit);
  now ← time_time;
  let delta_time := (wait * tc - (now - time_ref st))%float in
  if (0 <? delta_time)%float then time_sleep delta_time else mret tt.

Definition query_float (cmd : string) : io float :=
  port_write cmd;;
  ans ← port_read;
  lift (float_of_str ans).

Definition get_acgain : io Z :=
  port_write "ACGAIN";;
  ans ← port_read;
  lift (int_of_str ans).

Definition read_result (st : state) : io state :=
  v_frq ← query_float "FRQ.";
  v_r ← query_float "MAG.";
  v_phi ← query_float "PHA.";
  v_sen ← query_float "SEN.";
  v_nhz ← query_float "NHZ.";
  v_acg ← get_acgain;
  v_dB ← lift (match inv_gains st !! v_acg with
               | Some d => Ok d
               | None => Raise KeyError
               end);
  mret {| sweepmode := sweepmode st; source := source st; input := input st;
          coupling := coupling st; slope := slope st; ground := ground st;
          sensitivity := sensitivity st; filter1 := filter1 st;
          filter2 := filter2 st; gain := gain st;
          timeconstant := timeconstant st;
          waittimeconstants := waittimeconstants st;
          variables := variables st; units := units st;
          plottype := plottype st; savetype := savetype st;
          frq := v_frq; r := v_r; phi := v_phi; sen := v_sen;
          nhz := v_nhz; acg := v_acg; acg_dB := v_dB;
          time_ref := time_ref st; inv_gains := inv_gains st |}.

Definition call (st : state) : list value :=
  [VFloat (r st); VFloat (phi st); VFloat (frq st); VFloat (sen st);
   VInt (acg_dB st); VFloat (nhz st)].

(** ** The configuration sequencer *)

Definition commands : list (string * string) :=
  [ ("Float", "FLOAT 1"); ("Ground", "FLOAT 0") ].

Definition source_commands : list (string * string) :=
  [ ("Internal", "IE 0"); ("External TTL Rear", "IE 1");
    ("External Analog Front", "IE 2") ].

Definition input_commands : list (string * string) :=
  [ ("Current B High bandwidth, Front", "IMODE1; REF FRONT");
    ("Current B Low noise, Front", "IMODE2; REF FRONT");
    ("Voltage A, Front", "IMODE0; VMODE 1; REF FRONT");
    ("Voltage -B, Front", "IMODE0; VMODE 2; REF FRONT");
    ("Voltage A-B, Front", "IMODE0; VMODE 3; REF FRONT");
    ("Current B High bandwidth, Rear", "IMODE1; REF REAR");
    ("Current B Low noise, Rear", "IMODE2; REF REAR");
    ("Voltage A, Rear", "IMODE0; VMODE 1; REF REAR");
    ("Voltage -B, Rear", "IMODE0; VMODE 2; REF REAR");
    ("Voltage A-B, Rear", "IMODE0; VMODE 3; REF REAR") ].

Definition slopes : list (string * string) :=
  [ ("6 dB/octave", "SLOPE 0"); ("12 dB/octave", "SLOPE 1");
    ("18 dB/octave", "SLOPE 2"); ("24 dB/octave", "SLOPE 3") ].

Definition filter1_commands : list (string * string) :=
  [ ("Off", "LF 0 0");
    ("50 Hz notch filter", "LF 1 1");
    ("60 Hz notch filter", "LF 1 0");
    ("100 Hz notch filter", "LF 2 1");
    ("120 Hz notch filter", "LF 2 0");
    ("50 Hz and 100 Hz notch filter", "LF 3 1");
    ("60 Hz and 120 Hz notch filter", "LF 3 0") ].

Definition filter2_commands : list (string * string) :=
  [ ("Sync filter off", "SYNC 0"); ("Sync filter on", "SYNC 1") ].

Definition coupling_commands : list (string * string) :=
  [ ("Fast", "CP 0"); ("Slow", "CP 1") ].

(** [table[key]] for a key of any type in a table whose keys are strings,
    and [self.port.write(table[key])]. *)
Definition table_get_value (table : list (string * string)) (key : value)
  : result string :=
  match key with
  | VStr s => table_get table s
  | _ => Raise KeyError
  end.

Definition send (table : list (string * string)) (key : value) : io unit :=
  cmd ← lift (table_get_value table key);
  port_write cmd.

(** ["OA. %i" % int(float(value)*1000)] *)
Definition set_oscillator_amplitude (value : value) : io unit :=
  f ← lift (to_float value);
  n ← lift (int_of_float (f * 1000));
  port_write ("OA. " +:+ str_of_int n).

Section Sequencer.

(** What reading [self.sensitivities] gives.  The class assigns the tables
    [sensitivities_voltages], [sensitivities_currents_high_bandwidth] and
    [sensitivities_currents_low_noise], and nothing under this name. *)
Variable sensitivities : result (list (string * string)).

Definition configure (st : state) : io unit :=
  send source_commands (source st);;
  send input_commands (input st);;
  send slopes (slope st);;
  send commands (ground st);;
  send coupling_commands (coupling st);;
  send filter1_commands (filter1 st);;
  send filter2_commands (filter2 st);;
  send gains (gain st);;
  (if negb (eq_str (sensitivity st) "Auto sensitivity")
   then table ← lift sensitivities; send table (sensitivity st)
   else mret tt);;
  unit ← lift (attr (timeconstant st));
  send timeconstants unit;;
  port_write "AQN";;
  if eq_str (sweepmode st) "Oscillator frequency in Hz"
  then set_oscillator_amplitude (VInt 100)
  else mret tt.

End Sequencer.

End LockIn.

(* ===================================================================== *)
(** * Logger-Keithley_2700                                                 *)
(* ===================================================================== *)

Module Keithley.
Import Py Host.

Definition mode_variables : list (string * string) :=
  [ ("Voltage DC", "DC Voltage"); ("Voltage AC", "AC Voltage");
    ("Current DC", "DC Current"); ("Current AC", "AC Current");
    ("Resistance", "Resistance"); ("FResistance", "FResistance");
    ("Frequency", "Frequency"); ("Period", "Period");
    ("Temperature", "K"); ("Continuity", "") ].

Definition mode_units : list (string * string) :=
  [ ("Voltage DC", "V"); ("Voltage AC", "V");
    ("Current DC", "A"); ("Current AC", "A");
    ("Resistance", "Ohm"); ("FResistance", "Ohm");
    ("Frequency", "Hz"); ("Period", "s");
    ("Temperature", "K"); ("Continuity", "") ].

Record state : Type := {
  mode : value;
  digits : value;
  channel_string : value;
  channel_list : list string;
  channel_names : list string;
  trigger_type : value;
  scanning : value;
  range_ : value;
  integration_speed : value;
  temperature_unit : string;
  port_string : value;
  variables : list string;
  units : list string;
  plottype : list bool;
  savetype : list bool
}.

(** [first, last = x.split(":")] followed by
    [[str(x) for x in range(int(first), int(last) + 1)]].  The list is
    built whatever its length: the limits of the interpreter on the size
    of a list are not modelled. *)
Definition expand_range (x : string) : result (list string) :=
  match split x ":" with
  | [first; last] =>
      a ← int_of_str first;
      b ← int_of_str last;
      Ok (map str_of_int (range a (b + 1)))
  | _ => Raise ValueError
  end.

(** One turn of the loop over [intermediate_list]: what [x] adds. *)
Definition expand_group (x : string) : result (list string) :=
  if contains x ":" then expand_range x else Ok [x].

Fixpoint expand_groups (groups : list string) (acc : list string)
  : result (list string) :=
  match groups with
  | [] => Ok acc
  | x :: rest =>
      added ← expand_group x;
      expand_groups rest (acc ++ added)
  end.

(** The channel list that [get_GUIparameter] derives from the text of the
    field "Channel list". *)
Definition expand_channels (channel_string : string) : result (list string) :=
  let intermediate_list := split (replace channel_string "," ";") ";" in
  expand_groups intermediate_list [].

(** A key of any type looked up in a table whose keys are strings. *)
Definition table_get_value {V} (t : list (string * V)) (key : value)
  : result V :=
  match key with
  | VStr s => table_get t s
  | _ => Raise KeyError
  end.

(** An operand that must be a string ([v + " "], ["..." in v]). *)
Definition operand_str (v : value) : result string :=
  match v with
  | VStr s => Ok s
  | _ => Raise TypeError
  end.

Section Binder.

(** [str(x)] for a float [x]; the driver applies [str] to the value of the
    field "Temperature unit" only. *)
Variable repr_float : float -> string.

Definition str_of_value (v : value) : string :=
  match v with
  | VNone => "None"
  | VBool b => if b then "True" else "False"
  | VInt z => str_of_int z
  | VFloat f => repr_float f
  | VStr s => s
  end.

(** The assignment [self.variables = [self.mode]] of the first
    non-scanning branch is overwritten by the second one before anything
    reads it. *)
Definition get_GUIparameter (parameter : gmap string value) (st : state)
  : result state :=
  p_mode ← getitem parameter "Mode";
  p_digits ← getitem parameter "Digits";
  p_channels ← getitem parameter "Channel list";
  cs ← as_str p_channels;
  chans ← expand_channels cs;
  let names := map (fun x => "Dev" +:+ slice_from 1 x) chans in
  p_trigger ← getitem parameter "Trigger";
  p_scanning ← getitem parameter "Scanning";
  p_range ← getitem parameter "Range";
  p_speed ← getitem parameter "Integration speed";
  p_tunit ← getitem parameter "Temperature unit";
  let tunit := str_of_value p_tunit in
  p_port ← getitem parameter "Port";
  if truthy p_scanning then
    vars ← match names with
            | [] => Ok []
            | _ =>
                m ← operand_str p_mode;
                Ok (map (fun n => m +:+ " " +:+ n) names)
            end;
    m ← operand_str p_mode;
    unit ← (if contains m "Temperature" then Ok tunit
             else table_get_value mode_units p_mode);
    Ok {| mode := p_mode; digits := p_digits; channel_string := p_channels;
          channel_list := chans; channel_names := names;
          trigger_type := p_trigger; scanning := p_scanning;
          range_ := p_range; integration_speed := p_speed;
          temperature_unit := tunit; port_string := p_port;
          variables := vars;
          units := repeat unit (length chans);
          plottype := repeat true (length chans);
          savetype := repeat true (length chans) |}
  else
    var ← table_get_value mode_variables p_mode;
    unit ← table_get_value mode_units p_mode;
    Ok {| mode := p_mode; digits := p_digits; channel_string := p_channels;
          channel_list := chans; channel_names := names;
          trigger_type := p_trigger; scanning := p_scanning;
          range_ := p_range; integration_speed := p_speed;
          temperature_unit := tunit; port_string := p_port;
          variables := [var];
          units := [unit];
          plottype := [true];
          savetype := [true] |}.

End Binder.

(** The loop of [read_result].  [rs] is the inbox, on which the loop
    recurses: every turn that goes on has read one answer. *)
Fixpoint poll_buffer (need : Z) (rs : list string) (w : world)
  : result unit * world :=
  match is_run_stopped (set_inbox rs w) with
  | (Ok true, w1) => (Ok tt, w1)
  | (Ok false, w1) =>
      let w2 := emit (EWrite "TRAC:FREE?") w1 in
      match rs with
      | [] => (Raise TimeoutError, w2)
      | ans :: rs' =>
          let w3 := emit (ERead ans) (set_inbox rs' w2) in
          match (bytes_in_use ← item (split ans ",") 1;
                 int_of_str bytes_in_use) with
          | Ok n =>
              if need <=? n then (Ok tt, w3)
              else
                match time_sleep 0.1 w3 with
                | (Ok _, w4) => poll_buffer need rs' w4
                | (Raise e, w4) => (Raise e, w4)
                end
          | Raise e => (Raise e, w3)
          end
      end
  | (Raise e, w1) => (Raise e, w1)
  end.

Definition read_result (st : state) : io unit :=
  fun w => poll_buffer (Z.of_nat (length (channel_list st)) * 16) (inbox w) w.

(** [[float(x) for x in l]] *)
Fixpoint floats_of (l : list string) : result (list float) :=
  match l with
  | [] => Ok []
  | x :: l' =>
      v ← float_of_str x;
      vs ← floats_of l';
      Ok (v :: vs)
  end.

Definition newline : string := String (ascii_of_nat 10) EmptyString.

(** [answer.strip("\n").split(",")] *)
Definition answer_tokens (answer : string) : list string :=
  split (strip answer newline) ",".

Definition call (st : state) : io (list float) :=
  port_write ("form:elem READ" +:+ newline +:+ ";FETCh?");;
  answer ← port_read;
  readings_list ← lift (floats_of (answer_tokens answer));
  if truthy (scanning st) then mret readings_list
  else mret [np_mean readings_list].

(** ** The configuration sequencer *)

Definition modes : list (string * string) :=
  [ ("Voltage DC", "VOLT:DC"); ("Voltage AC", "VOLT:AC");
    ("Current DC", "CURR:DC"); ("Current AC", "CURR:AC");
    ("Resistance", "RES"); ("FResistance", "FRES");
    ("Frequency", "FREQ"); ("Period", "PER");
    ("Temperature", "TEMP"); ("Continuity", "CONT") ].

Definition trigger_types : list (string * string) :=
  [ ("Immediate", "IMM"); ("Timer", "TIM"); ("Manual", "MAN");
    ("Internal", "BUS"); ("External", "EXT") ].

(** [self.nplc], which [configure] assigns and nothing else reads. *)
Definition nplc_of (speed : value) : float :=
  if eq_str speed "Fast" then 0.1
  else if eq_str speed "Medium" then 1.0
  else if eq_str speed "Slow" then 10.0
  else 1.0.

Section Sequencer.

(** [str(x)] for a float [x], as in the binder: [configure] formats the
    range, the digits and the integration time with it. *)
Variable repr_float : float -> string.

(** ["(@%s)" % self.channel_string] *)
Definition clist (st : state) : string :=
  "(@" +:+ str_of_value repr_float (channel_string st) +:+ ")".

Definition configure (st : state) : io unit :=
  code ← lift (table_get_value modes (mode st));
  port_write ("sense:function '" +:+ code +:+ "', " +:+ clist st);;
  m ← lift (operand_str (mode st));
  (if contains m "Temperature" || contains m "Continuity"
   then port_write ("CONF:" +:+ code +:+ " " +:+ clist st)
   else
     ((if eq_str (range_ st) "Auto"
       then port_write (code +:+ ":range:auto on, " +:+ clist st)
       else port_write (code +:+ ":range "
                          +:+ str_of_value repr_float (range_ st)
                          +:+ ", " +:+ clist st));;
      port_write (code +:+ ":dig " +:+ str_of_value repr_float (digits st)
                    +:+ ", " +:+ clist st)));;
  port_write "INIT:CONT OFF";;
  trig ← lift (table_get_value trigger_types (trigger_type st));
  port_write ("TRIG:SOUR " +:+ trig);;
  port_write "trigger:count 1";;
  port_write "TRIG:DEL 0.5";;
  port_write (":SENS:" +:+ code +:+ ":NPLC "
                +:+ repr_float (nplc_of (integration_speed st)));;
  (if truthy (scanning st)
   then port_write ("sample:count "
                      +:+ str_of_int (Z.of_nat (length (channel_list st))))
   else port_write "sample:count 1");;
  if truthy (scanning st) then
    cs ← lift (operand_str (channel_string st));
    port_write ("route:scan (@" +:+ cs +:+ ")");;
    port_write "ROUT:SCAN:TSO IMM";;
    port_write "ROUT:SCAN:LSEL INT"
  else mret tt.

End Sequencer.

(** [int(self.port.read().split(",")[1])]: the bytes in use that an answer
    to "TRAC:FREE?" reports. *)
Definition bytes_in_use (ans : string) : result Z :=
  b ← item (split ans ",") 1;
  int_of_str b.

End Keithley.

(* ===================================================================== *)
(** * Logger-Rohde&Schwarz_RTx                                             *)
(* ===================================================================== *)

Module RTx.
Import Py Host.

Definition modes : list (string * string) :=
  [ ("None", "NONE");
    ("Frequency in Hz", "FREQ");
    ("Period time in s", "PER");
    ("Peak to peak in V", "PEAK");
    ("Maximum peak in V", "UPE");
    ("Minimum peak in V", "LPE");
    ("Positive pulse count", "PPC");
    ("Negative pulse count", "NPC");
    ("Rising edge count", "REC");
    ("Falling edge count", "FEC");
    ("High reference in V", "HIGH");
    ("Low reference in V", "LOW");
    ("Amplitude in V", "AMPL");
    ("Mean in V", "MEAN");
    ("RMS in V", "RMS");
    ("Rise time in s", "RTIM");
    ("Fall time in s", "FTIM");
    ("Positive duty cycle in %", "PDCY");
    ("Negative duty cycle in %", "NDCY");
    ("Positive pulse width in s", "PPW");
    ("Negative pulse width in s", "NPW");
    ("Cycle mean in V", "CYCM");
    ("Cycle RMS in V", "CYCR");
    ("STDDev", "STDD");
    ("CYCStddev", "CYCS");
    ("Delay in s", "DEL");
    ("Phase difference in °", "PHAS");
    ("Burst width in s", "BWID");
    ("Positive overshoot in %", "POV");
    ("Negative overshoot in %", "NOV") ].

(** A measurement place: source channel, mode code, statistics. *)
Definition place_config : Type := Z * string * value.

(** [measurement_places] is a [dict]: iteration follows insertion order,
    so it is kept as a list of items with distinct keys. *)
Fixpoint dict_set {V} (k : Z) (v : V) (d : list (Z * V)) : list (Z * V) :=
  match d with
  | [] => [(k, v)]
  | (k', v') :: d' =>
      if k' =? k then (k, v) :: d' else (k', v') :: dict_set k v d'
  end.

(** [list(d.keys())] *)
Definition keys {V} (d : list (Z * V)) : list Z := map fst d.

Record state : Type := {
  variables : list string;
  units : list string;
  plottype : list bool;
  savetype : list bool;
  maximum_measurement_places : Z;
  measurement_places : list (Z * place_config);
  use_preset : bool;
  waveform_count : Z
}.

(** The attributes as [__init__] leaves them. *)
Definition init : state :=
  {| variables := []; units := []; plottype := []; savetype := [];
     maximum_measurement_places := 6; measurement_places := [];
     use_preset := false; waveform_count := 1 |}.

(** [parse_parameter(int, parameters, key, fallback)] *)
Definition parse_parameter_int (parameters : gmap string value)
    (key : string) (fallback : Z) : Z :=
  try_except (v ← getitem parameters key; to_int v) fallback.

(** [f"Place {place} <field>"] *)
Definition place_key (place : Z) (field : string) : string :=
  "Place " +:+ str_of_int place +:+ " " +:+ field.

(** The lists the loop of [apply_gui_parameters] extends. *)
Record binding : Type := {
  b_places : list (Z * place_config);
  b_variables : list string;
  b_units : list string;
  b_plottype : list bool;
  b_savetype : list bool
}.

(** [channel[-1]] *)
Definition last_char_of (v : value) : result string :=
  match v with
  | VStr s => last_char s
  | _ => Raise TypeError
  end.

Definition table_get_value {V} (t : list (string * V)) (key : value)
  : result V :=
  match key with
  | VStr s => table_get t s
  | _ => Raise KeyError
  end.

(** The test [channel != "None" and mode != "None"] of the loop. *)
Definition place_selected (parameters : gmap string value) (place : Z) : bool :=
  let channel := get_default parameters (place_key place "channel") (VStr "None") in
  let mode := get_default parameters (place_key place "mode") (VStr "None") in
  negb (eq_str channel "None") && negb (eq_str mode "None").

(** One turn of the loop [for place in range(1, number_of_places + 1)]. *)
Definition bind_place (parameters : gmap string value) (place : Z)
    (b : binding) : result binding :=
  let channel := get_default parameters (place_key place "channel") (VStr "None") in
  let mode := get_default parameters (place_key place "mode") (VStr "None") in
  let statistics :=
    get_default parameters (place_key place "statistics") (VStr "None") in
  if place_selected parameters place then
    c ← last_char_of channel;
    channel_num ← int_of_str c;
    code ← table_get_value modes mode;
    mode_s ← as_str mode;
    channel_s ← as_str channel;
    mode_short ← item (split mode_s " in ") 0;
    unit ← last_item (split mode_s " in ");
    Ok {| b_places := dict_set place (channel_num, code, statistics) (b_places b);
          b_variables := b_variables b ++ [channel_s +:+ " " +:+ mode_short];
          b_units := b_units b ++ [unit];
          b_plottype := b_plottype b ++ [true];
          b_savetype := b_savetype b ++ [true] |}
  else Ok b.

Fixpoint bind_places (parameters : gmap string value) (places : list Z)
    (b : binding) : result binding :=
  match places with
  | [] => Ok b
  | place :: rest =>
      b' ← bind_place parameters place b;
      bind_places parameters rest b'
  end.

(** The places the loop of [apply_gui_parameters] visits. *)
Definition visited_places (parameters : gmap string value) (st : state)
  : list Z :=
  range 1 (parse_parameter_int parameters "Number of places"
             (maximum_measurement_places st) + 1).

Definition apply_gui_parameters (parameters : gmap string value) (st : state)
  : result state :=
  let wc := parse_parameter_int parameters "Waveform count" 1 in
  let maxp := maximum_measurement_places st in
  if use_preset st then
    Ok {| variables := map (fun n => "Place " +:+ str_of_int n) (range 1 (maxp + 1));
          units := repeat "" (Z.to_nat maxp);
          plottype := repeat true (Z.to_nat maxp);
          savetype := repeat true (Z.to_nat maxp);
          maximum_measurement_places := maxp;
          measurement_places := [];
          use_preset := use_preset st;
          waveform_count := wc |}
  else
    b ← bind_places parameters (visited_places parameters st)
          {| b_places := []; b_variables := []; b_units := [];
             b_plottype := []; b_savetype := [] |};
    Ok {| variables := b_variables b;
          units := b_units b;
          plottype := b_plottype b;
          savetype := b_savetype b;
          maximum_measurement_places := maxp;
          measurement_places := b_places b;
          use_preset := use_preset st;
          waveform_count := wc |}.

Definition set_places (mp : list (Z * place_config)) (st : state) : state :=
  {| variables := variables st; units := units st;
     plottype := plottype st; savetype := savetype st;
     maximum_measurement_places := maximum_measurement_places st;
     measurement_places := mp;
     use_preset := use_preset st;
     waveform_count := waveform_count st |}.

Definition meas (place : Z) (rest : string) : string :=
  "MEAS" +:+ str_of_int place +:+ rest.

Definition get_measurement_mode (place : Z) : io string :=
  port_write (meas place ":MAIN?");;
  port_read.

Definition get_source (place : Z) : io string :=
  port_write (meas place ":SOUR?");;
  port_read.

(** The loop of [connect] when presets are used. *)
Fixpoint connect_places (places : list Z) (mp : list (Z * place_config))
  : io (list (Z * place_config)) :=
  match places with
  | [] => mret mp
  | place :: rest =>
      mode ← get_measurement_mode place;
      if negb (String.eqb mode "NONE") then
        src ← get_source place;
        source ← lift (int_of_str src);
        connect_places rest (dict_set place (source, mode, VStr "Average") mp)
      else connect_places rest mp
  end.

Definition connect (st : state) : io state :=
  if use_preset st then
    mp ← connect_places (range 1 (maximum_measurement_places st + 1)) [];
    mret (set_places mp st)
  else mret st.

Definition get_waveform_count (place : Z) : io Z :=
  port_write (meas place ":RES:WFMCount?");;
  ans ← port_read;
  lift (int_of_str ans).

(** The loops of [request_result], by recursion on the inbox [rs]: every
    turn of the inner loop reads one answer, as [get_waveform_count]
    does. *)
Fixpoint wait_waveforms (target : Z) (places : list Z) (rs : list string)
    (w : world) : result unit * world :=
  match places with
  | [] => (Ok tt, set_inbox rs w)
  | place :: rest =>
      let w1 := emit (EWrite (meas place ":RES:WFMCount?")) (set_inbox rs w) in
      match rs with
      | [] => (Raise TimeoutError, w1)
      | ans :: rs' =>
          let w2 := emit (ERead ans) (set_inbox rs' w1) in
          match int_of_str ans with
          | Ok n =>
              if n <? target
              then
                match time_sleep 0.1 w2 with
                | (Ok _, w3) => wait_waveforms target places rs' w3
                | (Raise e, w3) => (Raise e, w3)
                end
              else wait_waveforms target rest rs' w2
          | Raise e => (Raise e, w2)
          end
      end
  end.

Definition request_result (st : state) : io unit :=
  fun w =>
    if 1 <? waveform_count st
    then wait_waveforms (waveform_count st)
           (map fst (measurement_places st)) (inbox w) w
    else (Ok tt, w).

Definition read_result_and_handle_error : io float :=
  ret ← port_read;
  if negb (String.eqb ret "9.91E+37") then lift (float_of_str ret)
  else mret nan.

Definition get_measurement (place : Z) (mode : string) : io float :=
  port_write (meas place (":RES:ACT? " +:+ mode));;
  read_result_and_handle_error.

Definition get_averaged_measurement (place : Z) : io float :=
  port_write (meas place ":RES:AVG?");;
  read_result_and_handle_error.

Definition get_measurement_minimum (place : Z) : io float :=
  port_write (meas place ":RES:NPE?");;
  read_result_and_handle_error.

Definition get_measurement_maximum (place : Z) : io float :=
  port_write (meas place ":RES:PPE?");;
  read_result_and_handle_error.

(** The body of the loop of [call] for one item. *)
Definition measure_place (place : Z) (cfg : place_config) : io float :=
  let '(_, mode, statistics) := cfg in
  if eq_str statistics "Minimum" then get_measurement_minimum place
  else if eq_str statistics "Maximum" then get_measurement_maximum place
  else if eq_str statistics "Average" then get_averaged_measurement place
  else if eq_str statistics "Current" then get_measurement place mode
  else get_measurement place mode.

Fixpoint measure_places (mp : list (Z * place_config)) (acc : list float)
  : io (list float) :=
  match mp with
  | [] => mret acc
  | (place, cfg) :: rest =>
      result ← measure_place place cfg;
      measure_places rest (acc ++ [result])
  end.

Definition call (st : state) : io (list float) :=
  measured_results ← measure_places (measurement_places st) [];
  let maxp := maximum_measurement_places st in
  if use_preset st && (Z.of_nat (length measured_results) <? maxp) then
    let diff := maxp - Z.of_nat (length measured_results) in
    mret (measured_results ++ repeat nan (Z.to_nat diff))
  else mret measured_results.

(** ** The panel and the configuration sequencer *)

Definition statistic_modes : list string :=
  ["None"; "Current"; "Minimum"; "Maximum"; "Average"].

(** What the panel can show under a key: an empty line, a number, a list
    of numbers or a list of labels to choose from. *)
Inductive gui_field : Type :=
  | GLine
  | GNumber (z : Z)
  | GNumbers (l : list Z)
  | GChoices (l : list string).

(** [d[k] = v] on a dictionary with string keys, kept in insertion order. *)
Fixpoint gui_set (k : string) (v : gui_field) (d : list (string * gui_field))
  : list (string * gui_field) :=
  match d with
  | [] => [(k, v)]
  | (k', v') :: d' =>
      if String.eqb k' k then (k, v) :: d' else (k', v') :: gui_set k v d'
  end.

(** [" " * n] *)
Fixpoint spaces (n : nat) : string :=
  match n with
  | O => EmptyString
  | S k => String " " (spaces k)
  end.

(** One turn of the loop of [update_gui_parameters]. *)
Definition offer_place (parameters : gmap string value) (place : Z)
    (new_parameters : list (string * gui_field))
  : list (string * gui_field) :=
  let d1 := gui_set (spaces (Z.to_nat place)) GLine new_parameters in
  let d2 := gui_set (place_key place "channel")
              (GChoices ["None"; "CH1"; "CH2"; "CH3"; "CH4"]) d1 in
  let current_channel :=
    get_default parameters (place_key place "channel") (VStr "None") in
  if negb (eq_str current_channel "None") then
    let d3 := gui_set (place_key place "mode") (GChoices (map fst modes)) d2 in
    gui_set (place_key place "statistics") (GChoices statistic_modes) d3
  else d2.

Definition update_gui_parameters (parameters : gmap string value) (st : state)
  : list (string * gui_field) :=
  let number_of_places :=
    parse_parameter_int parameters "Number of places"
      (maximum_measurement_places st) in
  fold_left (fun d place => offer_place parameters place d)
    (range 1 (number_of_places + 1))
    [ ("Number of places",
       GNumbers (range 1 (maximum_measurement_places st + 1)));
      ("Waveform count", GNumber 1) ].

Definition set_source (place channel : Z) : io unit :=
  port_write (meas place (":SOUR CH" +:+ str_of_int channel)).

Definition set_measurement_mode (place : Z) (mode : string) : io unit :=
  port_write (meas place (":MAIN " +:+ mode));;
  port_write (meas place ":ENAB ON").

(** The loop of [configure] over the items of [measurement_places]. *)
Fixpoint configure_places (mp : list (Z * place_config)) : io unit :=
  match mp with
  | [] => mret tt
  | (place, (channel, mode, _)) :: rest =>
      set_source place channel;;
      set_measurement_mode place mode;;
      configure_places rest
  end.

Definition configure (st : state) : io unit :=
  (if negb (use_preset st) then configure_places (measurement_places st)
   else mret tt);;
  if (1 <? waveform_count st) || use_preset st
  then port_write "MEAS1:STAT:ENAB ON"
  else mret tt.

(** [float(ret) if ret != "9.91E+37" else float("nan")] *)
Definition handle_error (ret : string) : result float :=
  if negb (String.eqb ret "9.91E+37") then float_of_str ret else Ok nan.

End RTx.

(* ===================================================================== *)
(** * Notions used to state the properties                                *)
(* ===================================================================== *)

Module Spec.
Import Py Host.

(** The events of a polling loop that asks the host before every sleep:
    any number of turns "not stopped, query, answer, sleep", then a last
    turn that ends on a stop, on an answer, or on a query left unanswered. *)
Inductive polite_poll (query : string) (interval : float)
  : list event -> Prop :=
  | polite_stop :
      polite_poll query interval [EStop true]
  | polite_answer (ans : string) :
      polite_poll query interval [EStop false; EWrite query; ERead ans]
  | polite_timeout :
      polite_poll query interval [EStop false; EWrite query]
  | polite_turn (ans : string) (l : list event) :
      polite_poll query interval l ->
      polite_poll query interval
        (EStop false :: EWrite query :: ERead ans :: ESleep interval :: l).

(** The two characters that separate groups of a channel list. *)
Definition is_sep (c : ascii) : bool := Ascii.eqb c "," || Ascii.eqb c ";".

Fixpoint sep_free (g : string) : bool :=
  match g with
  | EmptyString => true
  | String c g' => negb (is_sep c) && sep_free g'
  end.

(** The text [g sep1 g1 sep2 g2 ...]. *)
Fixpoint join_groups (g : string) (rest : list (ascii * string)) : string :=
  match rest with
  | [] => g
  | (sep, g') :: rest' => g +:+ String sep (join_groups g' rest')
  end.

Fixpoint all_digits (s : string) : bool :=
  match s with
  | EmptyString => true
  | String c s' => is_digit c && all_digits s'
  end.

Definition digits (s : string) : bool :=
  match s with
  | EmptyString => false
  | _ => all_digits s
  end.

(** The characters of [s] form a decimal integer: an optional minus sign
    and at least one digit. *)
Definition is_int_literal (s : string) : bool :=
  match s with
  | String c s' => if Ascii.eqb c "-" then digits s' else digits s
  | EmptyString => false
  end.

(** The value of the digits [d] read after the value [acc]. *)
Fixpoint uint_val (d : Decimal.uint) (acc : Z) : Z :=
  match d with
  | Decimal.Nil => acc
  | Decimal.D0 l => uint_val l (10 * acc + 0)
  | Decimal.D1 l => uint_val l (10 * acc + 1)
  | Decimal.D2 l => uint_val l (10 * acc + 2)
  | Decimal.D3 l => uint_val l (10 * acc + 3)
  | Decimal.D4 l => uint_val l (10 * acc + 4)
  | Decimal.D5 l => uint_val l (10 * acc + 5)
  | Decimal.D6 l => uint_val l (10 * acc + 6)
  | Decimal.D7 l => uint_val l (10 * acc + 7)
  | Decimal.D8 l => uint_val l (10 * acc + 8)
  | Decimal.D9 l => uint_val l (10 * acc + 9)
  end.

(** An answer that keeps a polling loop waiting, and one that ends the
    wait: [read] extracts the count from the answer, [target] is the count
    the loop waits for. *)
Definition below (read : string -> result Z) (target : Z) (ans : string)
  : bool :=
  match read ans with
  | Ok n => n <? target
  | Raise _ => false
  end.

Definition reaches (read : string -> result Z) (target : Z) (ans : string)
  : bool :=
  match read ans with
  | Ok n => target <=? n
  | Raise _ => false
  end.

(** The [EWrite] commands of a log, in order. *)
Fixpoint writes (l : list event) : list string :=
  match l with
  | [] => []
  | EWrite c :: l' => c :: writes l'
  | _ :: l' => writes l'
  end.

(** The answers read in a log, in order. *)
Fixpoint reads (l : list event) : list string :=
  match l with
  | [] => []
  | ERead r :: l' => r :: reads l'
  | _ :: l' => reads l'
  end.

(** What a selected place needs for the binder to accept it: a channel
    label whose last character is read by [int], and a mode of the table. *)
Definition place_accepted (parameters : gmap string value) (place : Z) : bool :=
  let channel :=
    get_default parameters (RTx.place_key place "channel") (VStr "None") in
  let mode :=
    get_default parameters (RTx.place_key place "mode") (VStr "None") in
  match channel, mode with
  | VStr c, VStr m =>
      match (d ← last_char c; int_of_str d), table_get RTx.modes m with
      | Ok _, Ok _ => true
      | _, _ => false
      end
  | _, _ => false
  end.

(** [d.get(k)] on the dictionary of the panel. *)
Fixpoint gui_get (k : string) (d : list (string * RTx.gui_field))
  : option RTx.gui_field :=
  match d with
  | [] => None
  | (k', v) :: d' => if String.eqb k' k then Some v else gui_get k d'
  end.

(** The text of a label, empty for a value that is not a string. *)
Definition label_of (v : value) : string :=
  match v with VStr s => s | _ => EmptyString end.

(** The variable name and the unit that the oscilloscope binder derives
    from the channel and mode labels of a place: the channel, a space and
    the mode up to its first " in "; the mode after its last " in ". *)
Definition declared_variable (parameters : gmap string value) (place : Z)
  : string :=
  let channel :=
    get_default parameters (RTx.place_key place "channel") (VStr "None") in
  let mode :=
    get_default parameters (RTx.place_key place "mode") (VStr "None") in
  label_of channel +:+ " " +:+ hd EmptyString (split (label_of mode) " in ").

Definition declared_unit (parameters : gmap string value) (place : Z)
  : string :=
  let mode :=
    get_default parameters (RTx.place_key place "mode") (VStr "None") in
  List.last (split (label_of mode) " in ") EmptyString.

(** An item of [measurement_places] holds what the parameters say of its
    place: the number that ends the channel label, the code of the mode
    and the statistics chosen. *)
Definition bound_entry (parameters : gmap string value)
    (e : Z * RTx.place_config) : Prop :=
  let '(place, (channel_num, code, statistics)) := e in
  exists c m,
    get_default parameters (RTx.place_key place "channel") (VStr "None")
    = VStr c /\
    get_default parameters (RTx.place_key place "mode") (VStr "None")
    = VStr m /\
    (d ← last_char c; int_of_str d) = Ok channel_num /\
    table_get RTx.modes m = Ok code /\
    statistics
    = get_default parameters (RTx.place_key place "statistics") (VStr "None").

(** A group of a channel text that the multimeter binder refuses: it
    holds two ":" or more, or it is "a:b", written in ASCII, with a side
    that [int] does not read. *)
Definition refused_group (g : string) : Prop :=
  (exists a rest,
      g = a +:+ ":" +:+ rest /\
      mem_char ":" a = false /\ mem_char ":" rest = true) \/
  (exists sa sb,
      g = sa +:+ ":" +:+ sb /\
      mem_char ":" sa = false /\ mem_char ":" sb = false /\
      is_ascii sa = true /\ is_ascii sb = true /\
      (forall a b, int_of_str sa = Ok a -> int_of_str sb = Ok b -> False)).


(** The endings that [unit_to_float] of the lock-in rewrites after a
    number, each with the power of ten it stands for: an optional space,
    an optional prefix m, µ or n, and an optional unit V or s. *)
Definition label_scales : list (string * Z) :=
  [ ("", 0); ("m", -3); ("µ", -6); ("n", -9);
    ("s", 0); ("ms", -3); ("µs", -6); ("ns", -9);
    ("V", 0); ("mV", -3); ("µV", -6); ("nV", -9);
    (" V", 0); (" mV", -3); (" µV", -6); (" nV", -9) ].

End Spec.

(* ===================================================================== *)
(** * Concrete configurations used to exercise the statements            *)
(* ===================================================================== *)

Module Scenario.
Import Py Host.

(** A world with nothing to read, no stop request, and the clock at [t]. *)
Definition world_at (t : float) : world :=
  {| inbox := []; clock := t; stop_signal := fun _ => false;
     stop_polls := 0; log := [] |}.

(** A world whose instrument will give the answers [rs]. *)
Definition world_with (rs : list string) (stop : nat -> bool) : world :=
  {| inbox := rs; clock := 0; stop_signal := stop;
     stop_polls := 0; log := [] |}.

(** The lock-in with the defaults of [__init__], a bound time constant and
    wait multiplier, and the reference time 0. *)
Definition lockin_bound (tc : string) (wait : float) : LockIn.state :=
  {| LockIn.sweepmode := VStr "None"; LockIn.source := VStr "Internal";
     LockIn.input := VStr "Voltage A, Front"; LockIn.coupling := VStr "Fast";
     LockIn.slope := VStr "12 dB/octave"; LockIn.ground := VStr "Ground";
     LockIn.sensitivity := VStr "Auto sensitivity";
     LockIn.filter1 := VStr "Off"; LockIn.filter2 := VStr "Sync filter off";
     LockIn.gain := VStr "Auto gain";
     LockIn.timeconstant := Some (VStr tc);
     LockIn.waittimeconstants := Some wait;
     LockIn.variables := []; LockIn.units := [];
     LockIn.plottype := []; LockIn.savetype := [];
     LockIn.frq := 0; LockIn.r := 0; LockIn.phi := 0; LockIn.sen := 0;
     LockIn.nhz := 0; LockIn.acg := 0; LockIn.acg_dB := 0;
     LockIn.time_ref := 0; LockIn.inv_gains := ∅ |}.

(** The lock-in panel with its default choices. *)
Definition lockin_parameters (tc : string) : gmap string value :=
  list_to_map
    [ ("SweepMode", VStr "None"); ("Source", VStr "Internal");
      ("Input", VStr "Voltage A, Front"); ("Sensitivity", VStr "1 mV");
      ("Filter1", VStr "Off"); ("Filter2", VStr "Sync filter off");
      ("TimeConstant", VStr tc); ("Gain", VStr "Auto gain");
      ("Slope", VStr "12 dB/octave"); ("Coupling", VStr "Fast");
      ("Ground", VStr "Ground"); ("WaitTimeConstants", VFloat 4) ].

(** The multimeter panel. *)
Definition keithley_parameters (scan : bool) (channels : string)
  : gmap string value :=
  list_to_map
    [ ("Mode", VStr "Voltage DC"); ("Digits", VStr "5");
      ("Trigger", VStr "Immediate"); ("Integration speed", VStr "Fast");
      ("Range", VStr "Auto"); ("Temperature unit", VStr "K");
      ("Scanning", VBool scan); ("Channel list", VStr channels);
      ("Port", VStr "GPIB0::16::INSTR") ].

Definition keithley_blank : Keithley.state :=
  {| Keithley.mode := VNone; Keithley.digits := VNone;
     Keithley.channel_string := VNone; Keithley.channel_list := [];
     Keithley.channel_names := []; Keithley.trigger_type := VNone;
     Keithley.scanning := VNone; Keithley.range_ := VNone;
     Keithley.integration_speed := VNone;
     Keithley.temperature_unit := ""; Keithley.port_string := VNone;
     Keithley.variables := ["Variable1"]; Keithley.units := ["Unit1"];
     Keithley.plottype := [true]; Keithley.savetype := [true] |}.

(** No float is converted to text in these configurations. *)
Definition repr_unused (f : float) : string := "".

(** The oscilloscope panel: three places offered, the first with channel
    and mode, the second with a channel only, the third with channel, mode
    and statistics. *)
Definition rtx_parameters : gmap string value :=
  list_to_map
    [ ("Number of places", VStr "3"); ("Waveform count", VInt 2);
      ("Place 1 channel", VStr "CH1");
      ("Place 1 mode", VStr "Frequency in Hz");
      ("Place 2 channel", VStr "CH2");
      ("Place 3 channel", VStr "CH4");
      ("Place 3 mode", VStr "Peak to peak in V");
      ("Place 3 statistics", VStr "Average") ].

(** The multimeter after the panel [keithley_parameters] is bound. *)
Definition keithley_bound (scan : bool) (channels : string) : Keithley.state :=
  match Keithley.get_GUIparameter repr_unused
          (keithley_parameters scan channels) keithley_blank with
  | Ok st => st
  | Raise _ => keithley_blank
  end.

(** The oscilloscope after the panel [rtx_parameters] is bound. *)
Definition rtx_bound : RTx.state :=
  match RTx.apply_gui_parameters rtx_parameters RTx.init with
  | Ok st => st
  | Raise _ => RTx.init
  end.

(** [str(x)] on the three integration times that [configure] of the
    multimeter formats; no other float is converted to text in these
    configurations. *)
Definition repr_nplc (f : float) : string :=
  if (f =? 0.1)%float then "0.1"
  else if (f =? 1)%float then "1.0"
  else if (f =? 10)%float then "10.0"
  else "".

(** The lock-in of [lockin_bound] with the inverse gain table that
    [__init__] builds. *)
Definition lockin_ready (tc : string) (wait : float) : LockIn.state :=
  let st := lockin_bound tc wait in
  {| LockIn.sweepmode := LockIn.sweepmode st; LockIn.source := LockIn.source st;
     LockIn.input := LockIn.input st; LockIn.coupling := LockIn.coupling st;
     LockIn.slope := LockIn.slope st; LockIn.ground := LockIn.ground st;
     LockIn.sensitivity := LockIn.sensitivity st;
     LockIn.filter1 := LockIn.filter1 st; LockIn.filter2 := LockIn.filter2 st;
     LockIn.gain := LockIn.gain st;
     LockIn.timeconstant := LockIn.timeconstant st;
     LockIn.waittimeconstants := LockIn.waittimeconstants st;
     LockIn.variables := LockIn.variables st; LockIn.units := LockIn.units st;
     LockIn.plottype := LockIn.plottype st;
     LockIn.savetype := LockIn.savetype st;
     LockIn.frq := LockIn.frq st; LockIn.r := LockIn.r st;
     LockIn.phi := LockIn.phi st; LockIn.sen := LockIn.sen st;
     LockIn.nhz := LockIn.nhz st; LockIn.acg := LockIn.acg st;
     LockIn.acg_dB := LockIn.acg_dB st; LockIn.time_ref := LockIn.time_ref st;
     LockIn.inv_gains :=
       match LockIn.inv_gains_of LockIn.gains with
       | Ok m => m
       | Raise _ => ∅
       end |}.

End Scenario.

(* ===================================================================== *)
(** * Properties                                                          *)
(* ===================================================================== *)

Import Py Host Spec Scenario.

(** ** Proof support *)

(** Case analysis on the first computation of a chain of [x ← e; k]. *)
Ltac unbind H :=
  unfold mbind, result_bind in H;
  repeat match type of H with
         | (let _ := _ in _) = _ => cbv zeta in H
         | Py.bind ?r _ = _ =>
             let E := fresh "E" in
             destruct r eqn:E; cbn [Py.bind] in H; [|discriminate H]
         end.

(** Projections of a world built by the primitives. *)
Ltac simpl_world :=
  cbn [fst snd emit set_inbox slept
       inbox clock stop_signal stop_polls log].

(** The polling interval is an acceptable sleep. *)
Lemma time_sleep_interval (w : world) :
  time_sleep 0.1 w = (Ok tt, slept 0.1 w).
Proof. reflexivity. Qed.

Lemma bind_ok {A B} (r : result A) (k : A -> result B) (b : B) :
  (x ← r; k x) = Ok b -> exists a, r = Ok a /\ k a = Ok b.
Proof.
  unfold mbind, result_bind. destruct r as [a|e]; cbn; [eauto|discriminate].
Qed.

Lemma io_bind_ok {A B} (m : io A) (k : A -> io B) (w w' : world) (b : B) :
  (x ← m; k x) w = (Ok b, w') ->
  exists a w1, m w = (Ok a, w1) /\ k a w1 = (Ok b, w').
Proof.
  unfold mbind, io_mbind, io_bind.
  destruct (m w) as [[a|e] w1]; [eauto|discriminate].
Qed.

(** ** The runtime model on sample inputs

    The float literals on the right are read by Rocq itself, with correct
    rounding; the answers on the left are those of the interpreter. *)

Lemma float_of_str_samples :
  float_of_str "1.234E-03" = Ok 0.001234%float /\
  float_of_str "9.91E+37" = Ok 9.91e37%float /\
  float_of_str "100e-3" = Ok 0.1%float /\
  float_of_str " -1_0.5e1 " = Ok (-105)%float /\
  float_of_str ".5" = Ok 0.5%float /\
  float_of_str "5." = Ok 5%float /\
  float_of_str "9007199254740993" = Ok 9007199254740992%float /\
  float_of_str "1.7976931348623157e308" = Ok 0x1.fffffffffffffp+1023%float /\
  float_of_str "1e400" = Ok infinity /\
  float_of_str "5e-324" = Ok 0x0.0000000000001p-1022%float /\
  float_of_str "2e-324" = Ok 0%float /\
  float_of_str "-Infinity" = Ok neg_infinity /\
  float_of_str "NaN" = Ok nan /\
  float_of_str "1k" = Raise ValueError /\
  float_of_str "." = Raise ValueError /\
  float_of_str "1e" = Raise ValueError /\
  float_of_str "1__0" = Raise ValueError /\
  float_of_str "" = Raise ValueError.
Proof. repeat split; vm_compute; reflexivity. Qed.

Lemma int_of_str_samples :
  int_of_str " 101 " = Ok 101 /\
  int_of_str "-0_7" = Ok (-7) /\
  int_of_str "+12" = Ok 12 /\
  int_of_str "" = Raise ValueError /\
  int_of_str "1.0" = Raise ValueError /\
  int_of_str (String "009" " 7" +:+ String "010" "") = Ok 7 /\
  int_of_str (String "028" "7") = Raise ValueError /\
  int_of_str "7" = Ok 7 /\
  int_of_str "1 2" = Raise ValueError /\
  str_of_int (-120) = "-120" /\
  str_of_int 0 = "0".
Proof. repeat split; vm_compute; reflexivity. Qed.

Lemma str_samples :
  split "101;103;107:109" ";" = ["101"; "103"; "107:109"] /\
  split "Period time in s" " in " = ["Period time"; "s"] /\
  split "" ";" = [""] /\
  split "a;;b;" ";" = ["a"; ""; "b"; ""] /\
  split "aXXXb" "XX" = ["a"; "Xb"] /\
  replace "10µ" "µ" "e-6" = "10e-6" /\
  replace "aaa" "aa" "b" = "ba" /\
  split_ws "AUTOMATIC 0; ACGAIN 3" = ["AUTOMATIC"; "0;"; "ACGAIN"; "3"] /\
  slice_drop_last 3 "10 dB" = "10" /\
  chars "5 µV" = ["5"; " "; "µ"; "V"] /\
  slice_from 1 "µ1" = "1" /\
  slice_drop_last 1 "10µ" = "10" /\
  last_char "10µ" = Ok "µ" /\
  last_char "" = Raise IndexError /\
  endswith "100k" "k" = true /\
  contains "Temperature x" "Temp" = true /\
  contains "abc" "bd" = false /\
  range 101 106 = [101; 102; 103; 104; 105] /\
  range 5 3 = [].
Proof. repeat split; vm_compute; reflexivity. Qed.

Lemma float_samples :
  np_mean [1; 2; 3]%float = 2%float /\
  int_of_float (-3.75)%float = Ok (-3) /\
  to_float (VInt 3) = Ok 3%float /\
  sleep_check 0.1 = Ok tt /\
  sleep_check (-0) = Ok tt /\
  sleep_check (-1) = Raise ValueError /\
  sleep_check (-1e-10) = Raise ValueError /\
  sleep_check nan = Raise ValueError /\
  sleep_check infinity = Raise OverflowError /\
  sleep_check neg_infinity = Raise OverflowError /\
  sleep_check 1e300 = Raise OverflowError /\
  sleep_check (-1e300) = Raise OverflowError /\
  (0x1.12e0be826d695p+33 * 1e9 =? 0x1p63)%float = true /\
  sleep_check 0x1.12e0be826d695p+33 = Raise ValueError /\
  sleep_check 0x1.12e0be826d694p+33 = Ok tt.
Proof. repeat split; vm_compute; reflexivity. Qed.

(** ** Binary64 ordering and subtraction

    [a < b] implies that [a - b], as rounded, is not positive.  The proof
    goes through the specification of the primitive operations. *)

Section FloatOrder.

Lemma digits2_pos_bounds (m : positive) :
  2 ^ (Zpos (digits2_pos m) - 1) <= Zpos m < 2 ^ Zpos (digits2_pos m).
Proof.
  induction m as [m IH|m IH|]; cbn [digits2_pos].
  - rewrite Pos2Z.inj_succ, (Pos2Z.inj_xI m).
    replace (Z.succ (Zpos (digits2_pos m)) - 1)
      with (Z.succ (Zpos (digits2_pos m) - 1)) by lia.
    rewrite !Z.pow_succ_r by lia.
    revert IH.
    generalize (2 ^ (Zpos (digits2_pos m) - 1)) (2 ^ Zpos (digits2_pos m)).
    intros; lia.
  - rewrite Pos2Z.inj_succ, (Pos2Z.inj_xO m).
    replace (Z.succ (Zpos (digits2_pos m)) - 1)
      with (Z.succ (Zpos (digits2_pos m) - 1)) by lia.
    rewrite !Z.pow_succ_r by lia.
    revert IH.
    generalize (2 ^ (Zpos (digits2_pos m) - 1)) (2 ^ Zpos (digits2_pos m)).
    intros; lia.
  - cbn. lia.
Qed.

Lemma iter_xO_value (m d : positive) :
  Zpos (Pos.iter xO m d) = Zpos m * 2 ^ Zpos d.
Proof.
  induction d as [|d IH] using Pos.peano_ind.
  - cbn [Pos.iter]. rewrite Pos2Z.inj_xO. lia.
  - rewrite Pos.iter_succ, Pos2Z.inj_xO, IH, Pos2Z.inj_succ,
      Z.pow_succ_r by lia.
    lia.
Qed.

Lemma shl_align_value (m : positive) (e e' : Z) :
  e' <= e -> Zpos (fst (shl_align m e e')) = Zpos m * 2 ^ (e - e').
Proof.
  intros H. unfold shl_align.
  destruct (e' - e) as [|p|p] eqn:E; cbn [fst]; try lia.
  - replace (e - e') with 0 by lia. lia.
  - rewrite iter_xO_value. f_equal. f_equal. lia.
Qed.

(** Rounding keeps the sign. *)
Lemma binary_round_sign (s : bool) (m : positive) (e : Z) :
  SFltb (S754_zero false) (binary_round prec emax s m e) = negb s
  \/ binary_round prec emax s m e = S754_zero s
  \/ binary_round prec emax s m e = S754_nan.
Proof.
  unfold binary_round, binary_round_aux.
  destruct (shl_align _ _ _) as [mz ez].
  destruct (shr_fexp _ _ _ _ _) as [mrs' e'].
  destruct (shr_fexp _ _ _ _ _) as [mrs'' e''].
  destruct (shr_m mrs''); auto.
  left. destruct (_ <=? _); destruct s; reflexivity.
Qed.

Lemma canonical_digits (m : positive) (e : Z) :
  bounded prec emax m e = true ->
  emin <= e /\ Zpos (digits2_pos m) <= prec /\
  (emin < e -> Zpos (digits2_pos m) = prec).
Proof.
  unfold bounded, canonical_mantissa, fexp. intros H.
  apply andb_prop in H as [H _]. apply Z.eqb_eq in H.
  unfold SpecFloat.emin in *. lia.
Qed.

(** Valid finite numbers compare as their (exponent, mantissa) pairs. *)
Lemma finite_lt_value (m1 m2 : positive) (e1 e2 : Z) :
  bounded prec emax m1 e1 = true -> bounded prec emax m2 e2 = true ->
  e1 < e2 ->
  Zpos m1 < Zpos m2 * 2 ^ (e2 - e1).
Proof.
  intros H1 H2 Hlt.
  apply canonical_digits in H1 as (Hmin & Hd1 & _).
  apply canonical_digits in H2 as (_ & _ & Hd2).
  specialize (Hd2 ltac:(lia)).
  pose proof (digits2_pos_bounds m1) as [_ B1].
  pose proof (digits2_pos_bounds m2) as [B2 _].
  rewrite Hd2 in B2.
  assert (Zpos m1 < 2 ^ prec).
  { eapply Z.lt_le_trans; [exact B1|]. apply Z.pow_le_mono_r; lia. }
  assert (2 ^ 1 <= 2 ^ (e2 - e1)) by (apply Z.pow_le_mono_r; lia).
  assert (2 ^ prec = 2 ^ (prec - 1) * 2 ^ 1) by reflexivity.
  nia.
Qed.

Lemma SFsub_lt_nonpos (x y : spec_float) :
  valid_binary x = true -> valid_binary y = true ->
  SFltb x y = true ->
  SFltb (S754_zero false) (SFsub prec emax x y) = false.
Proof.
  intros Vx Vy Hlt.
  destruct x as [sx|sx| |sx mx ex], y as [sy|sy| |sy my ey];
    try discriminate Hlt;
    try (destruct sx, sy; try discriminate Hlt; reflexivity);
    try (destruct sx; try discriminate Hlt; reflexivity);
    try (destruct sy; try discriminate Hlt; reflexivity).
  cbn [valid_binary] in Vx, Vy.
  cbn [SFsub].
  set (ez := Z.min ex ey).
  set (D := cond_Zopp sx (Zpos (fst (shl_align mx ex ez))) -
            cond_Zopp sy (Zpos (fst (shl_align my ey ez)))).
  assert (HD : D < 0).
  { subst D. rewrite !shl_align_value by (subst ez; lia).
    unfold SFltb, SFcompare in Hlt.
    destruct sx, sy; cbn [cond_Zopp]; try discriminate Hlt.
    - destruct (ex ?= ey) eqn:E; try discriminate Hlt.
      + apply Z.compare_eq in E. subst ey. subst ez.
        rewrite Z.min_id, Z.sub_diag, !Z.mul_1_r.
        destruct (Pos.compare_cont Eq mx my) eqn:C; try discriminate Hlt.
        change (Pos.compare_cont Eq mx my) with (Pos.compare mx my) in C.
        apply -> Pos.compare_gt_iff in C. lia.
      + apply -> Z.compare_gt_iff in E. subst ez.
        rewrite Z.min_r by lia. rewrite Z.sub_diag, Z.mul_1_r.
        pose proof (finite_lt_value my mx ey ex Vy Vx E). lia.
    - pose proof (Z.pow_pos_nonneg 2 (ex - ez) ltac:(lia) ltac:(subst ez; lia)).
      pose proof (Z.pow_pos_nonneg 2 (ey - ez) ltac:(lia) ltac:(subst ez; lia)).
      nia.
    - destruct (ex ?= ey) eqn:E; try discriminate Hlt.
      + apply Z.compare_eq in E. subst ey. subst ez.
        rewrite Z.min_id, Z.sub_diag, !Z.mul_1_r.
        destruct (Pos.compare_cont Eq mx my) eqn:C; try discriminate Hlt.
        change (Pos.compare_cont Eq mx my) with (Pos.compare mx my) in C.
        apply -> Pos.compare_lt_iff in C. lia.
      + apply -> Z.compare_lt_iff in E. subst ez.
        rewrite Z.min_l by lia. rewrite Z.sub_diag, Z.mul_1_r.
        pose proof (finite_lt_value mx my ex ey Vx Vy E). lia. }
  clearbody D. destruct D as [|p|p]; try lia.
  cbn [binary_normalize].
  destruct (binary_round_sign true p ez) as [H|[H|H]].
  - exact H.
  - rewrite H. reflexivity.
  - rewrite H. reflexivity.
Qed.

Lemma sub_lt_nonpos (a b : float) :
  (a <? b)%float = true -> (0 <? a - b)%float = false.
Proof.
  rewrite !ltb_spec, sub_spec. intros H.
  change (Prim2SF 0) with (S754_zero false).
  apply SFsub_lt_nonpos; auto using Prim2SF_valid.
Qed.

End FloatOrder.

(** ** Strings: reversal, stripping, decimal text *)

Lemma rev_app_app (s t u : string) :
  String.rev_app s t +:+ u = String.rev_app s (t +:+ u).
Proof.
  revert t. induction s as [|c s IH]; intros t; cbn [String.rev_app].
  - reflexivity.
  - rewrite IH. reflexivity.
Qed.

Lemma rev_app_rev_app (s t : string) :
  String.rev_app (String.rev_app s t) EmptyString
  = String.rev_app t s.
Proof.
  revert t. induction s as [|c s IH]; intros t; cbn [String.rev_app].
  - reflexivity.
  - rewrite IH. reflexivity.
Qed.

Lemma rev_app_empty (s t : string) :
  String.rev_app s t = EmptyString -> t = EmptyString.
Proof.
  revert t. induction s as [|c s IH]; intros t E; cbn [String.rev_app] in E.
  - exact E.
  - apply IH in E. discriminate E.
Qed.

Lemma str_rev_involutive (s : string) : str_rev (str_rev s) = s.
Proof. unfold str_rev, String.rev. apply rev_app_rev_app. Qed.

(** A string whose first and last characters are kept is not stripped. *)
Lemma lstrip_by_head (p : ascii -> bool) (c : ascii) (s : string) :
  p c = false -> lstrip_by p (String c s) = String c s.
Proof. intros H. cbn. rewrite H. reflexivity. Qed.

Lemma all_digits_rev_app (s t : string) :
  all_digits (String.rev_app s t) = all_digits s && all_digits t.
Proof.
  revert t. induction s as [|c s IH]; intros t; cbn [String.rev_app all_digits].
  - reflexivity.
  - rewrite IH. cbn [all_digits]. destruct (is_digit c), (all_digits s); reflexivity.
Qed.

Lemma digit_not_space (c : ascii) : is_digit c = true -> is_c_space c = false.
Proof.
  unfold is_digit, is_c_space. intros H.
  apply andb_prop in H as [H1 H2].
  apply N.leb_le in H1. apply N.leb_le in H2.
  apply orb_false_iff. split.
  - apply andb_false_iff. right. apply N.leb_gt. lia.
  - apply N.eqb_neq. lia.
Qed.

Lemma strip_ws_digits (s : string) : all_digits s = true -> strip_ws s = s.
Proof.
  intros H. unfold strip_ws, strip_by.
  assert (L1 : lstrip_by is_c_space s = s).
  { destruct s as [|c s]; [reflexivity|]. cbn [all_digits] in H.
    apply andb_prop in H as [H _]. apply lstrip_by_head, digit_not_space, H. }
  rewrite L1.
  assert (L2 : lstrip_by is_c_space (str_rev s) = str_rev s).
  { assert (Hr : all_digits (str_rev s) = true).
    { unfold str_rev, String.rev. rewrite all_digits_rev_app, H. reflexivity. }
    destruct (str_rev s) as [|c r]; [reflexivity|]. cbn [all_digits] in Hr.
    apply andb_prop in Hr as [Hr _]. apply lstrip_by_head, digit_not_space, Hr. }
  rewrite L2. apply str_rev_involutive.
Qed.

Lemma strip_ws_minus_digits (s : string) :
  digits s = true -> strip_ws (String "-" s) = String "-" s.
Proof.
  intros H. unfold strip_ws, strip_by.
  rewrite lstrip_by_head by reflexivity.
  destruct s as [|c s]; [discriminate|]. cbn [digits] in H.
  assert (L2 : lstrip_by is_c_space (str_rev (String "-" (String c s)))
               = str_rev (String "-" (String c s))).
  { unfold str_rev, String.rev. cbn [String.rev_app].
    assert (Hr : all_digits (String.rev_app s (String c EmptyString)) = true).
    { rewrite all_digits_rev_app. cbn [all_digits] in *.
      apply andb_prop in H as [Hc Hs]. rewrite Hc, Hs. reflexivity. }
    change (String.rev_app s (String c (String "-" EmptyString)))
      with (String.rev_app s (String c EmptyString +:+ String "-" EmptyString)).
    rewrite <- (rev_app_app s (String c EmptyString) (String "-" EmptyString)).
    destruct (String.rev_app s (String c EmptyString)) as [|d r] eqn:E.
    - apply rev_app_empty in E. discriminate E.
    - cbn [all_digits] in Hr. apply andb_prop in Hr as [Hd _].
      cbn [String.append]. apply lstrip_by_head, digit_not_space, Hd. }
  rewrite L2. apply str_rev_involutive.
Qed.

Lemma string_of_uint_digits (d : Decimal.uint) :
  all_digits (NilEmpty.string_of_uint d) = true.
Proof. induction d; cbn; auto. Qed.

Lemma digitpart_go_digit (acc : Z) (n : nat) (c : ascii) (s : string) :
  is_digit c = true ->
  digitpart_go acc n (String c s)
  = digitpart_go (10 * acc + digit_val c) (S n) s.
Proof. intros H. cbn [digitpart_go]. rewrite H. reflexivity. Qed.

Lemma digitpart_go_uint (d : Decimal.uint) :
  forall acc n,
    digitpart_go acc n (NilEmpty.string_of_uint d)
    = (uint_val d acc, (n + Decimal.nb_digits d)%nat, EmptyString).
Proof.
  induction d; intros acc n;
    cbn [NilEmpty.string_of_uint uint_val Decimal.nb_digits].
  1: { cbn. do 2 f_equal. lia. }
  all: rewrite digitpart_go_digit by reflexivity; rewrite IHd.
  all: do 2 f_equal; try reflexivity; lia.
Qed.

Lemma of_uint_acc_val (d : Decimal.uint) :
  forall p, Zpos (Pos.of_uint_acc d p) = uint_val d (Zpos p).
Proof.
  induction d; intros p; cbn [Pos.of_uint_acc uint_val];
    try reflexivity; rewrite IHd; f_equal; lia.
Qed.

Lemma of_uint_val (d : Decimal.uint) : Z.of_N (Pos.of_uint d) = uint_val d 0.
Proof.
  induction d; cbn [Pos.of_uint uint_val];
    try reflexivity; try exact IHd;
    cbn [Z.of_N]; rewrite of_uint_acc_val; reflexivity.
Qed.

(** The digits of a positive number, as text, read back as that number. *)
Lemma digitpart_to_uint (p : positive) :
  exists n,
    digitpart (NilEmpty.string_of_uint (Pos.to_uint p))
    = Some (Zpos p, n, EmptyString).
Proof.
  pose proof (DecimalPos.Unsigned.of_to p) as Hof.
  pose proof (DecimalPos.Unsigned.to_uint_nonnil p) as Hnil.
  apply (f_equal Z.of_N) in Hof. rewrite of_uint_val in Hof. cbn [Z.of_N] in Hof.
  destruct (Pos.to_uint p) as [|d|d|d|d|d|d|d|d|d|d]; [contradiction|..];
    cbn [NilEmpty.string_of_uint uint_val] in *;
    unfold digitpart; change (is_digit _) with true; cbn iota;
    rewrite digitpart_go_uint; eexists; rewrite <- Hof; reflexivity.
Qed.

Lemma str_of_int_pos (p : positive) :
  str_of_int (Zpos p) = NilEmpty.string_of_uint (Pos.to_uint p).
Proof.
  unfold str_of_int. cbn [Z.to_int NilZero.string_of_int].
  unfold NilZero.string_of_uint.
  pose proof (DecimalPos.Unsigned.to_uint_nonnil p).
  destruct (Pos.to_uint p); [contradiction|reflexivity..].
Qed.

Lemma str_of_int_neg (p : positive) :
  str_of_int (Zneg p) = String "-" (str_of_int (Zpos p)).
Proof. reflexivity. Qed.

Lemma str_of_int_pos_digits (p : positive) :
  digits (str_of_int (Zpos p)) = true.
Proof.
  rewrite str_of_int_pos.
  pose proof (DecimalPos.Unsigned.to_uint_nonnil p).
  pose proof (string_of_uint_digits (Pos.to_uint p)) as Hd.
  destruct (Pos.to_uint p); [contradiction|exact Hd..].
Qed.

(** [str] of an integer is a decimal integer literal. *)
Lemma str_of_int_literal (z : Z) : is_int_literal (str_of_int z) = true.
Proof.
  destruct z as [|p|p].
  - reflexivity.
  - pose proof (str_of_int_pos_digits p) as H.
    destruct (str_of_int (Zpos p)) as [|c s] eqn:E; [discriminate|].
    unfold is_int_literal. destruct (Ascii.eqb c "-") eqn:Ec; [|exact H].
    apply Ascii.eqb_eq in Ec. subst c. cbn in H. discriminate.
  - rewrite str_of_int_neg. unfold is_int_literal.
    rewrite Ascii.eqb_refl. apply str_of_int_pos_digits.
Qed.

(** [int(str(z)) == z] *)
Lemma int_of_str_of_int (z : Z) : int_of_str (str_of_int z) = Ok z.
Proof.
  destruct z as [|p|p].
  - reflexivity.
  - pose proof (str_of_int_pos_digits p) as Hd.
    unfold int_of_str. rewrite strip_ws_digits.
    + destruct (digitpart_to_uint p) as (n & Hn).
      rewrite <- str_of_int_pos in Hn.
      destruct (str_of_int (Zpos p)) as [|c s] eqn:E; [discriminate|].
      cbn [digits all_digits] in Hd. apply andb_prop in Hd as [Hc _].
      unfold read_sign.
      destruct (Ascii.eqb c "-") eqn:E1;
        [apply Ascii.eqb_eq in E1; subst c; discriminate|].
      destruct (Ascii.eqb c "+") eqn:E2;
        [apply Ascii.eqb_eq in E2; subst c; discriminate|].
      rewrite Hn. reflexivity.
    + destruct (str_of_int (Zpos p)); [discriminate|exact Hd].
  - pose proof (str_of_int_pos_digits p) as Hd.
    unfold int_of_str. rewrite str_of_int_neg, strip_ws_minus_digits by exact Hd.
    cbn [read_sign]. rewrite Ascii.eqb_refl.
    destruct (digitpart_to_uint p) as (n & Hn).
    rewrite <- str_of_int_pos in Hn. rewrite Hn. reflexivity.
Qed.

(** ** Characters of a text *)

Fixpoint all_cont (s : string) : bool :=
  match s with
  | EmptyString => true
  | String c s' => is_cont c && all_cont s'
  end.

Lemma chars_cons (c : ascii) (s : string) :
  chars (String c s)
  = match s with
    | String d _ =>
        if is_cont d then
          match chars s with
          | t :: ts => String c t :: ts
          | [] => [String c EmptyString]
          end
        else String c EmptyString :: chars s
    | EmptyString => [String c EmptyString]
    end.
Proof. reflexivity. Qed.

Lemma chars_head (c : ascii) (s : string) :
  exists conts ts, chars (String c s) = String c conts :: ts.
Proof.
  rewrite chars_cons. destruct s as [|d s]; [eauto|].
  destruct (is_cont d); [|eauto].
  destruct (chars (String d s)); eauto.
Qed.

Lemma chars_nonempty (c : ascii) (s : string) : chars (String c s) <> [].
Proof. destruct (chars_head c s) as (conts & ts & ->). discriminate. Qed.

Lemma join_chars_cons (t : string) (l : list string) :
  join_chars (t :: l) = t +:+ join_chars l.
Proof. reflexivity. Qed.

(** The characters of a text, put together again, are the text. *)
Lemma join_chars_chars (s : string) : join_chars (chars s) = s.
Proof.
  induction s as [|c s IH]; [reflexivity|].
  rewrite chars_cons. destruct s as [|d s]; [reflexivity|].
  destruct (is_cont d).
  - destruct (chars (String d s)) as [|t ts].
    + discriminate IH.
    + rewrite join_chars_cons in *.
      change (String c t +:+ join_chars ts)
        with (String c (t +:+ join_chars ts)).
      rewrite IH. reflexivity.
  - rewrite join_chars_cons, IH. reflexivity.
Qed.

Lemma str_app_assoc (a b c : string) : (a +:+ b) +:+ c = a +:+ (b +:+ c).
Proof.
  induction a as [|x a IH]; [reflexivity|].
  change ((String x a +:+ b) +:+ c) with (String x ((a +:+ b) +:+ c)).
  rewrite IH. reflexivity.
Qed.

Lemma join_chars_app (l1 l2 : list string) :
  join_chars (l1 ++ l2) = join_chars l1 +:+ join_chars l2.
Proof.
  induction l1 as [|t l1 IH]; [reflexivity|].
  cbn [app]. rewrite !join_chars_cons, IH.
  symmetry. apply str_app_assoc.
Qed.

(** A character is one byte followed by continuation bytes only. *)
Lemma chars_shape (s : string) :
  Forall (fun t => exists a conts, t = String a conts /\ all_cont conts = true)
    (chars s).
Proof.
  induction s as [|c s IH]; [constructor|].
  rewrite chars_cons. destruct s as [|d s].
  - repeat constructor. exists c, EmptyString. auto.
  - destruct (is_cont d) eqn:Ed.
    + destruct (chars_head d s) as (conts & ts & E). rewrite E in *.
      inversion IH as [|? ? (a & conts' & Ea & Hc) IH']; subst.
      injection Ea as <- <-.
      constructor; [|exact IH'].
      exists c, (String d conts). split; [reflexivity|].
      cbn [all_cont]. rewrite Ed, Hc. reflexivity.
    + constructor; [|exact IH]. exists c, EmptyString. auto.
Qed.

(** A text of ASCII characters has one character per byte. *)
Lemma chars_ascii (s : string) :
  is_ascii s = true ->
  chars s = map (fun c => String c EmptyString) (list_ascii_of_string s).
Proof.
  induction s as [|c s IH]; [reflexivity|]. cbn [is_ascii]. intros H.
  apply andb_prop in H as [_ H]. rewrite chars_cons.
  destruct s as [|d s]; [reflexivity|].
  assert (Ed : is_cont d = false).
  { cbn [is_ascii] in H. apply andb_prop in H as [H _].
    unfold is_ascii_char in H. apply N.ltb_lt in H.
    unfold is_cont. apply andb_false_iff. left. apply N.leb_gt. lia. }
  rewrite Ed, (IH H). reflexivity.
Qed.

Lemma last_char_spec (c d : string) :
  last_char c = Ok d ->
  exists pre a conts,
    c = pre +:+ String a conts /\ d = String a conts /\
    all_cont conts = true.
Proof.
  unfold last_char. destruct (rev (chars c)) as [|t r] eqn:E; intros H;
    [discriminate H|]. injection H as ->.
  assert (Hc : chars c = rev r ++ [d]).
  { rewrite <- (rev_involutive (chars c)), E. reflexivity. }
  pose proof (chars_shape c) as F. rewrite Hc in F.
  apply Forall_app in F as [_ F].
  inversion F as [|? ? (a & conts & -> & Hcont) _]; subst.
  exists (join_chars (rev r)), a, conts.
  split; [|split; [reflexivity|exact Hcont]].
  rewrite <- (join_chars_chars c) at 1. rewrite Hc, join_chars_app.
  f_equal. rewrite join_chars_cons. change (join_chars []) with EmptyString.
  clear. generalize (String a conts). intros s.
  induction s as [|c s IH]; [reflexivity|].
  change (String c s +:+ EmptyString) with (String c (s +:+ EmptyString)).
  rewrite IH. reflexivity.
Qed.

Lemma is_ascii_rev_app (s t : string) :
  is_ascii (String.rev_app s t) = is_ascii s && is_ascii t.
Proof.
  revert t. induction s as [|c s IH]; intros t; cbn [String.rev_app is_ascii].
  - reflexivity.
  - rewrite IH. cbn [is_ascii].
    destruct (is_ascii_char c), (is_ascii s); reflexivity.
Qed.

Lemma is_ascii_rev (s : string) : is_ascii (str_rev s) = is_ascii s.
Proof.
  unfold str_rev, String.rev. rewrite is_ascii_rev_app. cbn [is_ascii].
  apply andb_true_r.
Qed.

Lemma is_ascii_lstrip (p : ascii -> bool) (s : string) :
  (forall c, p c = true -> is_ascii_char c = true) ->
  is_ascii (lstrip_by p s) = true -> is_ascii s = true.
Proof.
  intros Hp. induction s as [|c s IH]; [reflexivity|]. cbn [lstrip_by].
  destruct (p c) eqn:E; [|auto]. intros H. cbn [is_ascii].
  rewrite (Hp c E), (IH H). reflexivity.
Qed.

Lemma is_ascii_strip_ws (s : string) :
  is_ascii (strip_ws s) = true -> is_ascii s = true.
Proof.
  assert (Hp : forall c, is_c_space c = true -> is_ascii_char c = true).
  { intros c. unfold is_c_space, is_ascii_char. intros H.
    apply N.ltb_lt. apply orb_prop in H as [H|H].
    - apply andb_prop in H as [_ H]. apply N.leb_le in H. lia.
    - apply N.eqb_eq in H. lia. }
  unfold strip_ws, strip_by. rewrite is_ascii_rev. intros H.
  apply (is_ascii_lstrip _ _ Hp) in H. rewrite is_ascii_rev in H.
  apply (is_ascii_lstrip _ _ Hp) in H. exact H.
Qed.

Lemma digit_is_ascii (c : ascii) : is_digit c = true -> is_ascii_char c = true.
Proof.
  unfold is_digit, is_ascii_char. intros H. apply andb_prop in H as [_ H].
  apply N.leb_le in H. apply N.ltb_lt. lia.
Qed.

Lemma digitpart_go_ascii (k : nat) :
  forall (s : string) (acc : Z) (n : nat) (v : Z) (m : nat),
    (String.length s <= k)%nat ->
    digitpart_go acc n s = (v, m, EmptyString) -> is_ascii s = true.
Proof.
  induction k as [|k IH]; intros s acc n v m Hk H.
  - destruct s; [reflexivity|cbn in Hk; lia].
  - destruct s as [|c s]; [reflexivity|]. cbn [String.length] in Hk.
    cbn [digitpart_go] in H. cbn [is_ascii].
    destruct (is_digit c) eqn:Ec.
    + rewrite (digit_is_ascii c Ec).
      apply (IH s _ _ _ _ ltac:(lia) H).
    + destruct (Ascii.eqb c "_") eqn:Eu; [|discriminate H].
      apply Ascii.eqb_eq in Eu. subst c.
      destruct s as [|d s]; [discriminate H|].
      destruct (is_digit d) eqn:Ed; [|discriminate H].
      cbn [is_ascii]. rewrite (digit_is_ascii d Ed).
      cbn [String.length] in Hk.
      rewrite (IH s _ _ _ _ ltac:(lia) H). reflexivity.
Qed.

(** A text that [int] reads is made of ASCII characters. *)
Lemma int_of_str_ascii (s : string) (z : Z) :
  int_of_str s = Ok z -> is_ascii s = true.
Proof.
  unfold int_of_str. intros H. apply is_ascii_strip_ws.
  destruct (strip_ws s) as [|c t]; [discriminate H|].
  unfold read_sign in H.
  assert (G : forall (body : string) (neg : bool),
             match digitpart body with
             | Some (v, _, EmptyString) => Ok (if neg then - v else v)
             | _ => @Raise Z ValueError
             end = Ok z -> is_ascii body = true).
  { clear. intros body neg H. unfold digitpart in H.
    destruct body as [|c body]; [discriminate H|].
    destruct (is_digit c) eqn:Ec; [|discriminate H]. cbn [is_ascii].
    rewrite (digit_is_ascii c Ec).
    destruct (digitpart_go (digit_val c) 1 body) as [[v m] r] eqn:E.
    destruct r; [|discriminate H].
    apply (digitpart_go_ascii (String.length body) body _ _ _ _
             ltac:(lia) E). }
  destruct (Ascii.eqb c "-") eqn:E1.
  - apply Ascii.eqb_eq in E1. subst c. cbn [is_ascii].
    rewrite (G t true H). reflexivity.
  - destruct (Ascii.eqb c "+") eqn:E2.
    + apply Ascii.eqb_eq in E2. subst c. cbn [is_ascii].
      rewrite (G t false H). reflexivity.
    + apply (G (String c t) false H).
Qed.

(** The last character of a text, when [int] reads it, is one digit. *)
Lemma last_char_int (c d : string) (n : Z) :
  last_char c = Ok d -> int_of_str d = Ok n ->
  exists pre a,
    c = pre +:+ String a EmptyString /\ d = String a EmptyString.
Proof.
  intros Hd Hn.
  apply last_char_spec in Hd as (pre & a & conts & -> & -> & Hc).
  apply int_of_str_ascii in Hn. cbn [is_ascii] in Hn.
  apply andb_prop in Hn as [_ Hn].
  destruct conts as [|b conts]; [exists pre, a; auto|].
  cbn [is_ascii all_cont] in Hn, Hc.
  apply andb_prop in Hn as [Hn _]. apply andb_prop in Hc as [Hc _].
  unfold is_ascii_char in Hn. unfold is_cont in Hc.
  apply N.ltb_lt in Hn. apply andb_prop in Hc as [Hc _].
  apply N.leb_le in Hc. lia.
Qed.

(** ** Splitting and replacing on one character *)

Lemma prefix_one (d c : ascii) (s : string) :
  String.prefix (String d EmptyString) (String c s) = Ascii.eqb d c.
Proof.
  cbn [String.prefix]. destruct (ascii_dec d c) as [->|Hne].
  - rewrite Ascii.eqb_refl. destruct s; reflexivity.
  - symmetry. apply Ascii.eqb_neq. exact Hne.
Qed.

Lemma split_go_one (d c : ascii) (s : string) :
  split_go (String d EmptyString) O (String c s)
  = let '(t, ts) := split_go (String d EmptyString) O s in
    if Ascii.eqb d c then (EmptyString, t :: ts) else (String c t, ts).
Proof.
  cbn [split_go]. rewrite prefix_one. cbn [String.length Nat.sub].
  destruct (Ascii.eqb d c); reflexivity.
Qed.

Lemma replace_go_one (d e c : ascii) (s : string) :
  replace_go (String d EmptyString) (String e EmptyString) O (String c s)
  = String (if Ascii.eqb d c then e else c)
      (replace_go (String d EmptyString) (String e EmptyString) O s).
Proof.
  cbn [replace_go]. rewrite prefix_one. cbn [String.length Nat.sub].
  destruct (Ascii.eqb d c); reflexivity.
Qed.

Lemma contains_one (c : ascii) (s : string) :
  contains s (String c EmptyString) = mem_char c s.
Proof.
  induction s as [|x s IH]; cbn [contains mem_char]; [reflexivity|].
  rewrite prefix_one, IH. reflexivity.
Qed.

(** A text without the separator is one piece. *)
Lemma split_go_absent (d : ascii) (s : string) :
  mem_char d s = false ->
  split_go (String d EmptyString) O s = (s, []).
Proof.
  induction s as [|c s IH]; intros H; [reflexivity|].
  cbn [mem_char] in H. destruct (Ascii.eqb d c) eqn:E; [discriminate|].
  rewrite split_go_one, IH, E by exact H. reflexivity.
Qed.

Lemma split_go_app (d : ascii) (a b : string) :
  mem_char d a = false ->
  split_go (String d EmptyString) O (a +:+ String d b)
  = let '(t, ts) := split_go (String d EmptyString) O b in (a, t :: ts).
Proof.
  induction a as [|c a IH]; intros H.
  - change (EmptyString +:+ String d b) with (String d b).
    rewrite split_go_one, Ascii.eqb_refl. reflexivity.
  - cbn [mem_char] in H. destruct (Ascii.eqb d c) eqn:E; [discriminate|].
    change (String c a +:+ String d b) with (String c (a +:+ String d b)).
    rewrite split_go_one, IH, E by exact H.
    destruct (split_go (String d EmptyString) O b). reflexivity.
Qed.

Lemma split_two (d : ascii) (a b : string) :
  mem_char d a = false -> mem_char d b = false ->
  split (a +:+ String d b) (String d EmptyString) = [a; b].
Proof.
  intros Ha Hb. unfold split.
  rewrite split_go_app, split_go_absent by assumption. reflexivity.
Qed.

(** ** Lists and ranges *)

Lemma range_from_length (a : Z) (n : nat) : length (range_from a n) = n.
Proof. revert a. induction n as [|n IH]; intros a; cbn; [|rewrite IH]; reflexivity. Qed.

Lemma range_length (a b : Z) : length (range a b) = Z.to_nat (b - a).
Proof. apply range_from_length. Qed.

Lemma range_from_lookup (a : Z) (n i : nat) :
  (i < n)%nat -> nth_error (range_from a n) i = Some (a + Z.of_nat i).
Proof.
  revert a i. induction n as [|n IH]; intros a i Hi; [lia|].
  destruct i as [|i]; cbn [range_from nth_error].
  - f_equal. lia.
  - rewrite IH by lia. f_equal. lia.
Qed.

Lemma range_from_In (a : Z) (n : nat) (z : Z) :
  In z (range_from a n) <-> a <= z < a + Z.of_nat n.
Proof.
  revert a. induction n as [|n IH]; intros a; cbn [range_from In].
  - lia.
  - rewrite IH. lia.
Qed.

Lemma range_In (a b z : Z) : In z (range a b) <-> a <= z < b.
Proof. unfold range. rewrite range_from_In. lia. Qed.

Lemma repeat_length' {A} (x : A) (n : nat) : length (repeat x n) = n.
Proof. induction n as [|n IH]; cbn; [|rewrite IH]; reflexivity. Qed.

(** ** Lock-in: the inverse gain table (C2) *)

(** C2.  The inverse gain table built from [gains] exists, and for every
    entry of [gains] whose command starts with "AUTOMATIC 0; ACGAIN", say
    label "N dB" and command "AUTOMATIC 0; ACGAIN c", it maps [c] to [N].
    It has no other entry: "Auto gain" contributes nothing. *)
Theorem C2_inverse_gain_table :
  exists m : gmap Z Z,
    LockIn.inv_gains_of LockIn.gains = Ok m /\
    (forall k v,
        In (k, v) LockIn.gains ->
        startswith v "AUTOMATIC 0; ACGAIN" = true ->
        exists c n,
          v = "AUTOMATIC 0; ACGAIN " +:+ str_of_int c /\
          k = str_of_int n +:+ " dB" /\
          m !! c = Some n) /\
    (forall c n,
        m !! c = Some n ->
        In (str_of_int n +:+ " dB",
            "AUTOMATIC 0; ACGAIN " +:+ str_of_int c) LockIn.gains) /\
    startswith "AUTOMATIC 1" "AUTOMATIC 0; ACGAIN" = false /\
    size m = 10%nat.
Proof.
  eexists. split; [vm_compute; reflexivity|]. split; [|split; [|split]].
  - intros k v Hin Hp. unfold LockIn.gains in Hin. cbn [In] in Hin.
    repeat (destruct Hin as [Hin|Hin]; [injection Hin as <- <-|]);
      try contradiction; try discriminate Hp.
    + exists 0, 0. repeat split; vm_compute; reflexivity.
    + exists 1, 10. repeat split; vm_compute; reflexivity.
    + exists 2, 20. repeat split; vm_compute; reflexivity.
    + exists 3, 30. repeat split; vm_compute; reflexivity.
    + exists 4, 40. repeat split; vm_compute; reflexivity.
    + exists 5, 50. repeat split; vm_compute; reflexivity.
    + exists 6, 60. repeat split; vm_compute; reflexivity.
    + exists 7, 70. repeat split; vm_compute; reflexivity.
    + exists 8, 80. repeat split; vm_compute; reflexivity.
    + exists 9, 90. repeat split; vm_compute; reflexivity.
  - intros c n H. apply elem_of_map_to_list in H.
    match type of H with
    | _ ∈ ?l => let l' := eval vm_compute in l in change l with l' in H
    end.
    repeat (apply elem_of_cons in H;
            destruct H as [H|H]; [injection H as -> ->; vm_compute; tauto|]).
    apply elem_of_nil in H. contradiction.
  - reflexivity.
  - vm_compute. reflexivity.
Qed.

(** ** Lock-in: labels that [unit_to_float] converts *)

Lemma digit_facts (c : ascii) :
  is_digit c = true ->
  lower c = c /\ is_c_space c = false /\
  Ascii.eqb c "-" = false /\ Ascii.eqb c "+" = false /\
  Ascii.eqb c "i" = false /\ Ascii.eqb c "n" = false /\
  Ascii.eqb c "_" = false.
Proof.
  destruct c as [[] [] [] [] [] [] [] []]; vm_compute; intros H;
    try discriminate H; repeat split; reflexivity.
Qed.

Lemma prefix_head (c x : ascii) (o s : string) :
  c <> x -> String.prefix (String c o) (String x s) = false.
Proof.
  intros H. cbn [String.prefix]. destruct (ascii_dec c x); [contradiction|].
  reflexivity.
Qed.

(** A replacement whose pattern starts with no digit leaves leading digits
    alone. *)
Lemma replace_digits (c : ascii) (o new : string) (d : string) :
  forall s,
    is_digit c = false -> all_digits d = true ->
    replace (d +:+ s) (String c o) new = d +:+ replace s (String c o) new.
Proof.
  intros s Hc. unfold replace.
  induction d as [|x d IH]; intros Hd; [reflexivity|].
  cbn [all_digits] in Hd. apply andb_true_iff in Hd as [Hx Hd].
  change (String x d +:+ s) with (String x (d +:+ s)).
  change (String x d +:+ replace_go (String c o) new 0 s)
    with (String x (d +:+ replace_go (String c o) new 0 s)).
  cbn [replace_go]. rewrite prefix_head.
  - rewrite IH by exact Hd. reflexivity.
  - intros ->. rewrite Hx in Hc. discriminate Hc.
Qed.

Lemma unit_replacements_digits (d s : string) :
  all_digits d = true ->
  fold_left (fun u '(c, by_) => replace u c by_) LockIn.chars (d +:+ s)
  = d +:+ fold_left (fun u '(c, by_) => replace u c by_) LockIn.chars s.
Proof.
  intros Hd. unfold LockIn.chars. cbn [fold_left].
  rewrite !replace_digits by (reflexivity || exact Hd). reflexivity.
Qed.

Lemma digitpart_go_uint_tail (rest : string) (d : Decimal.uint) :
  rest = EmptyString \/
  (exists c r, rest = String c r /\ is_digit c = false /\
               Ascii.eqb c "_" = false) ->
  forall acc n,
    digitpart_go acc n (NilEmpty.string_of_uint d +:+ rest)
    = (uint_val d acc, (n + Decimal.nb_digits d)%nat, rest).
Proof.
  intros Ht.
  induction d; intros acc n;
    cbn [NilEmpty.string_of_uint uint_val Decimal.nb_digits].
  1: { change (EmptyString +:+ rest) with rest. rewrite Nat.add_0_r.
       destruct Ht as [->|(c & r & -> & H1 & H2)]; [reflexivity|].
       cbn [digitpart_go]. rewrite H1, H2. reflexivity. }
  all: match goal with
       | |- context [String ?x ?s +:+ ?t] =>
           change (String x s +:+ t) with (String x (s +:+ t))
       end.
  all: rewrite digitpart_go_digit by reflexivity; rewrite IHd.
  all: do 2 f_equal; try reflexivity; lia.
Qed.

(** The digits of a number that is not negative, followed by something
    that continues no number, are read back as that number. *)
Lemma digitpart_str_of_int (n : Z) (rest : string) :
  0 <= n ->
  rest = EmptyString \/
  (exists c r, rest = String c r /\ is_digit c = false /\
               Ascii.eqb c "_" = false) ->
  exists k, digitpart (str_of_int n +:+ rest) = Some (n, k, rest).
Proof.
  intros Hn Ht. destruct n as [|p|p]; [| |lia].
  - change (str_of_int 0 +:+ rest) with (String "0" rest).
    unfold digitpart. change (is_digit "0") with true. cbn iota.
    exists 1%nat. f_equal.
    destruct Ht as [->|(c & r & -> & H1 & H2)]; [reflexivity|].
    cbn [digitpart_go]. rewrite H1, H2. reflexivity.
  - rewrite str_of_int_pos.
    pose proof (DecimalPos.Unsigned.of_to p) as Hof.
    pose proof (DecimalPos.Unsigned.to_uint_nonnil p) as Hnil.
    apply (f_equal Z.of_N) in Hof. rewrite of_uint_val in Hof.
    cbn [Z.of_N] in Hof.
    destruct (Pos.to_uint p) as [|d|d|d|d|d|d|d|d|d|d]; [contradiction|..];
      cbn [NilEmpty.string_of_uint uint_val] in *;
      match goal with
      | |- context [String ?x ?s +:+ ?t] =>
          change (String x s +:+ t) with (String x (s +:+ t))
      end;
      unfold digitpart; change (is_digit _) with true; cbn iota;
      rewrite digitpart_go_uint_tail by exact Ht;
      eexists; rewrite <- Hof; reflexivity.
Qed.

Lemma rev_app_append (a b t : string) :
  String.rev_app (a +:+ b) t = String.rev_app b (String.rev_app a t).
Proof.
  revert t. induction a as [|c a IH]; intros t; [reflexivity|].
  change (String c a +:+ b) with (String c (a +:+ b)).
  cbn [String.rev_app]. apply IH.
Qed.

Lemma strip_ws_ends (s : string) :
  (exists c s', s = String c s' /\ is_c_space c = false) ->
  (exists c r, str_rev s = String c r /\ is_c_space c = false) ->
  strip_ws s = s.
Proof.
  intros (c & s' & -> & Hc) (c' & r & Hr & Hc').
  unfold strip_ws, strip_by. rewrite lstrip_by_head by exact Hc.
  rewrite Hr, lstrip_by_head by exact Hc'. rewrite <- Hr.
  apply str_rev_involutive.
Qed.

Lemma str_of_int_nonneg (n : Z) :
  0 <= n ->
  exists c s, str_of_int n = String c s /\ is_digit c = true /\
              all_digits (str_of_int n) = true.
Proof.
  intros Hn. destruct n as [|p|p]; [| |lia].
  - exists "0"%char, EmptyString. repeat split; reflexivity.
  - pose proof (str_of_int_pos_digits p) as H. unfold digits in H.
    destruct (str_of_int (Zpos p)) as [|c s]; [discriminate H|].
    exists c, s. cbn [all_digits] in H.
    pose proof H as H'. apply andb_true_iff in H' as [Hc _]. auto.
Qed.

(** [float] reads the digits of a number that is not negative, alone or
    followed by one of the exponents that [unit_to_float] writes, as the
    binary64 number nearest to the scaled number. *)
Lemma float_of_str_scaled (n : Z) (rest : string) (e : Z) :
  0 <= n ->
  In (rest, e) [("", 0); ("e-3", -3); ("e-6", -6); ("e-9", -9)] ->
  float_of_str (str_of_int n +:+ rest) = Ok (float_of_decimal false n e).
Proof.
  intros Hn Hin.
  destruct (str_of_int_nonneg n Hn) as (c & s & Es & Hc & Hd).
  destruct (digit_facts c Hc) as (Hlow & Hsp & Hm & Hp & Hi & Hnn & Hu).
  assert (Hrest : rest = EmptyString \/
                  (exists c r, rest = String c r /\ is_digit c = false /\
                               Ascii.eqb c "_" = false)).
  { cbn [In] in Hin.
    destruct Hin as [H|[H|[H|[H|[]]]]]; injection H as <- <-;
      [left; reflexivity|right; eexists _, _; repeat split; reflexivity..]. }
  destruct (digitpart_str_of_int n rest Hn Hrest) as [k Hk].
  assert (Hstrip : strip_ws (str_of_int n +:+ rest) = str_of_int n +:+ rest).
  { cbn [In] in Hin.
    destruct Hin as [H|[H|[H|[H|[]]]]]; injection H as <- <-.
    - assert (E0 : str_of_int n +:+ "" = str_of_int n).
      { clear. induction (str_of_int n) as [|x t IH]; [reflexivity|].
        change (String x t +:+ "") with (String x (t +:+ "")).
        rewrite IH. reflexivity. }
      rewrite E0. apply strip_ws_digits, Hd.
    - apply strip_ws_ends.
      + rewrite Es. eexists _, _. split; [reflexivity|exact Hsp].
      + unfold str_rev, String.rev. rewrite rev_app_append.
        eexists _, _. split; [reflexivity|reflexivity].
    - apply strip_ws_ends.
      + rewrite Es. eexists _, _. split; [reflexivity|exact Hsp].
      + unfold str_rev, String.rev. rewrite rev_app_append.
        eexists _, _. split; [reflexivity|reflexivity].
    - apply strip_ws_ends.
      + rewrite Es. eexists _, _. split; [reflexivity|exact Hsp].
      + unfold str_rev, String.rev. rewrite rev_app_append.
        eexists _, _. split; [reflexivity|reflexivity]. }
  unfold float_of_str. rewrite Hstrip.
  assert (Hsign : read_sign (str_of_int n +:+ rest)
                  = (false, str_of_int n +:+ rest)).
  { rewrite Es. change (String c s +:+ rest) with (String c (s +:+ rest)).
    cbn [read_sign]. rewrite Hm, Hp. reflexivity. }
  rewrite Hsign.
  assert (Hword : forall word c' w',
             word = String c' w' -> Ascii.eqb c c' = false ->
             String.eqb (str_lower (str_of_int n +:+ rest)) word = false).
  { intros word c' w' -> Hcc. rewrite Es.
    change (String c s +:+ rest) with (String c (s +:+ rest)).
    cbn [str_lower String.eqb]. rewrite Hlow, Hcc. reflexivity. }
  rewrite (Hword "inf" "i"%char "nf" eq_refl Hi).
  rewrite (Hword "infinity" "i"%char "nfinity" eq_refl Hi).
  rewrite (Hword "nan" "n"%char "an" eq_refl Hnn).
  cbn [orb].
  unfold read_number. rewrite Hk.
  cbn [In] in Hin.
  destruct Hin as [H|[H|[H|[H|[]]]]]; injection H as <- <-;
    cbn; rewrite ?Z.sub_0_r; reflexivity.
Qed.

(** [unit_to_float] on a number that is not negative, written in decimal
    and followed by an optional space, prefix and unit. *)
Lemma unit_to_float_scaled (n : Z) (suffix : string) (e : Z) :
  0 <= n ->
  In (suffix, e)
    [ ("", 0); ("m", -3); ("µ", -6); ("n", -9);
      ("s", 0); ("ms", -3); ("µs", -6); ("ns", -9);
      ("V", 0); ("mV", -3); ("µV", -6); ("nV", -9);
      (" V", 0); (" mV", -3); (" µV", -6); (" nV", -9) ] ->
  LockIn.unit_to_float (VStr (str_of_int n +:+ suffix))
  = Ok (float_of_decimal false n e).
Proof.
  intros Hn Hin.
  destruct (str_of_int_nonneg n Hn) as (_ & _ & _ & _ & Hd).
  unfold LockIn.unit_to_float. cbn [as_str mbind result_bind Py.bind].
  rewrite unit_replacements_digits by exact Hd.
  cbn [In] in Hin.
  repeat (destruct Hin as [Hin|Hin];
          [injection Hin as <- <-;
           match goal with
           | |- context [fold_left ?f LockIn.chars ?sfx] =>
               let t := eval vm_compute in (fold_left f LockIn.chars sfx) in
               change (fold_left f LockIn.chars sfx) with t
           end;
           apply float_of_str_scaled; [exact Hn|cbn [In]; tauto]|]).
  destruct Hin.
Qed.

(** ** Lock-in: the settle-time wait (C4) and the kilo labels (C10) *)

Lemma sleeps_app (l1 l2 : list event) : sleeps (l1 ++ l2) = sleeps l1 ++ sleeps l2.
Proof.
  induction l1 as [|[] l1 IH]; cbn; rewrite ?IH; reflexivity.
Qed.

(** C4.  With the attributes bound and the time constant convertible,
    the time constant in seconds is the value of its label: for a label
    made of a number [n] and an ending that stands for [10^e], the
    binary64 number nearest to [n * 10^e]; every label of [timeconstants]
    that converts is such a label, with no ending, "m" or "µ".
    [trigger_ready] sleeps once, for the remaining time
    [WaitTimeConstants * tc - (time.time() - time_ref)], when that is
    positive, and returns without sleeping otherwise; so it sleeps
    [max(0, remaining)] whenever [time.sleep] accepts that duration, and it
    does not sleep when the elapsed time exceeds the required wait.  For the
    time constant "100m", the multiplier 4.0 and a reference time 0.3 s
    before the clock, the required wait is 0.4 s, the elapsed time is
    smaller, and the single sleep lasts between 0.1 s and 0.1 s + 1e-15 s. *)
Theorem C4_trigger_ready_wait
    (st : LockIn.state) (w : world) (wait tc : float) (unit : value) :
  LockIn.waittimeconstants st = Some wait ->
  LockIn.timeconstant st = Some unit ->
  LockIn.unit_to_float unit = Ok tc ->
  let required := (wait * tc)%float in
  let elapsed := (clock w - LockIn.time_ref st)%float in
  let remaining := max_ 0 (required - elapsed) in
  (forall n suffix e,
      0 <= n -> In (suffix, e) label_scales ->
      unit = VStr (str_of_int n +:+ suffix) ->
      tc = float_of_decimal false n e /\
      required = (wait * float_of_decimal false n e)%float) /\
  (forall label cmd,
      In (label, cmd) LockIn.timeconstants -> unit = VStr label ->
      exists n suffix e,
        0 <= n /\ In (suffix, e) [("", 0); ("m", -3); ("µ", -6)] /\
        label = str_of_int n +:+ suffix /\
        tc = float_of_decimal false n e) /\
  LockIn.trigger_ready st w =
    (if (0 <? required - elapsed)%float
     then time_sleep (required - elapsed) w else (Ok tt, w)) /\
  (sleep_check remaining = Ok tt ->
   fst (LockIn.trigger_ready st w) = Ok tt /\
   log (snd (LockIn.trigger_ready st w)) =
     log w ++ (if (0 <? remaining)%float then [ESleep remaining] else [])) /\
  ((required <? elapsed)%float = true ->
   LockIn.trigger_ready st w = (Ok tt, w)) /\
  (unit = VStr "100m" -> wait = 4%float ->
   LockIn.time_ref st = 0%float -> clock w = 0.3%float ->
   required = 0.4%float /\ (elapsed <? required)%float = true /\
   fst (LockIn.trigger_ready st w) = Ok tt /\
   sleeps (log (snd (LockIn.trigger_ready st w))) = sleeps (log w) ++ [remaining] /\
   (0.1 <=? remaining)%float = true /\
   (remaining <=? 0.1 + 1e-15)%float = true).
Proof.
  intros Hw Hu Htc required elapsed remaining.
  assert (Hrun : LockIn.trigger_ready st w =
                 if (0 <? required - elapsed)%float
                 then time_sleep (required - elapsed) w else (Ok tt, w)).
  { unfold LockIn.trigger_ready, mbind, io_mbind, io_bind, lift, time_time.
    rewrite Hw, Hu. cbn [LockIn.attr]. rewrite Htc.
    fold required elapsed. destruct (0 <? required - elapsed)%float; reflexivity. }
  assert (Hval : forall n suffix e,
             0 <= n -> In (suffix, e) label_scales ->
             unit = VStr (str_of_int n +:+ suffix) ->
             tc = float_of_decimal false n e).
  { intros n suffix e Hn Hin ->.
    rewrite (unit_to_float_scaled n suffix e Hn Hin) in Htc.
    injection Htc as <-. reflexivity. }
  split; [|split; [|split; [exact Hrun|split; [|split]]]].
  - intros n suffix e Hn Hin Hl.
    pose proof (Hval n suffix e Hn Hin Hl) as E.
    split; [exact E|]. unfold required. rewrite E. reflexivity.
  - intros label cmd Hl ->.
    unfold LockIn.timeconstants in Hl. cbn [In] in Hl.
    repeat (destruct Hl as [Hl|Hl];
            [injection Hl as <- <-;
             try (vm_compute in Htc; discriminate Htc)|]);
      try destruct Hl.
    all: match goal with
         | |- exists _ _ _, _ /\ _ /\ ?label = _ /\ _ =>
             first
               [ let x := eval vm_compute in (int_of_str label) in
                 match x with
                 | Ok ?v => exists v, "", 0
                 end
               | let x := eval vm_compute in
                          (int_of_str (slice_drop_last 1 label)) in
                 match x with
                 | Ok ?v =>
                     let y := eval vm_compute in (endswith label "m") in
                     match y with
                     | true => exists v, "m", (-3)
                     | false => exists v, "µ", (-6)
                     end
                 end ]
         end.
    all: split; [lia|]; split; [cbn [In]; tauto|]; split; [reflexivity|].
    all: match goal with
         | |- _ = float_of_decimal _ ?v ?e =>
             first
               [ apply (Hval v "" 0);
                 [lia|unfold label_scales; cbn [In]; tauto|reflexivity]
               | apply (Hval v "m" (-3));
                 [lia|unfold label_scales; cbn [In]; tauto|reflexivity]
               | apply (Hval v "µ" (-6));
                 [lia|unfold label_scales; cbn [In]; tauto|reflexivity] ]
         end.
  - intros Hok. rewrite Hrun. unfold remaining, max_ in *.
    destruct (0 <? required - elapsed)%float eqn:E.
    + unfold time_sleep. rewrite Hok, E. simpl_world. split; reflexivity.
    + change (0 <? 0)%float with false. simpl_world.
      split; [reflexivity|]. symmetry. apply app_nil_r.
  - intros Hlt. rewrite Hrun, (sub_lt_nonpos _ _ Hlt). reflexivity.
  - intros -> -> Href Hclk. vm_compute in Htc. injection Htc as <-.
    assert (Hdelta : (required - elapsed)%float = 0x1.999999999999cp-4%float).
    { subst required elapsed. rewrite Href, Hclk. vm_compute. reflexivity. }
    assert (Hel : elapsed = 0.3%float).
    { subst elapsed. rewrite Href, Hclk. vm_compute. reflexivity. }
    unfold remaining. rewrite Hrun, Hdelta, Hel.
    change (max_ 0 0x1.999999999999cp-4) with 0x1.999999999999cp-4%float.
    change (0 <? 0x1.999999999999cp-4)%float with true.
    unfold time_sleep.
    change (sleep_check 0x1.999999999999cp-4) with (Ok tt).
    simpl_world. rewrite sleeps_app.
    repeat split.
Qed.

Lemma C4_trigger_ready_wait_witness :
  LockIn.unit_to_float (VStr "100m") = Ok (float_of_decimal false 100 (-3)) /\
  LockIn.trigger_ready (lockin_bound "100m" 4) (world_at 0.3) =
    (Ok tt,
     slept (4 * float_of_decimal false 100 (-3) - (0.3 - 0)) (world_at 0.3)).
Proof.
  pose proof (C4_trigger_ready_wait (lockin_bound "100m" 4) (world_at 0.3)
                4%float 0.1%float (VStr "100m")
                eq_refl eq_refl ltac:(vm_compute; reflexivity))
    as (H1 & _ & H & _).
  cbv zeta in H1.
  destruct (H1 100 "m" (-3) ltac:(lia)
              ltac:(unfold label_scales; cbn [In]; tauto) eq_refl) as [E _].
  split; [rewrite <- E; vm_compute; reflexivity|].
  rewrite <- E. exact H.
Defined.

(** C10.  [unit_to_float] rewrites "V", "s", " ", "n", "µ" and "m" only.
    For every label of [timeconstants] that ends in "k" (these are "1k" to
    "100k") the text handed to [float] is the label itself and the
    conversion raises [ValueError]; [trigger_ready] then fails whenever that
    label is the bound time constant, with that [ValueError] once the wait
    multiplier is bound too, and without sleeping. *)
Theorem C10_kilo_time_constants
    (label cmd : string) (st : LockIn.state) (w : world) :
  In (label, cmd) LockIn.timeconstants ->
  endswith label "k" = true ->
  LockIn.timeconstant st = Some (VStr label) ->
  map fst LockIn.chars = ["V"; "s"; " "; "n"; "µ"; "m"] /\
  In label ["1k"; "2k"; "5k"; "10k"; "20k"; "50k"; "100k"] /\
  fold_left (fun u '(c, by_) => replace u c by_) LockIn.chars label = label /\
  LockIn.unit_to_float (VStr label) = Raise ValueError /\
  (exists e, LockIn.trigger_ready st w = (Raise e, w)) /\
  (forall wait,
      LockIn.waittimeconstants st = Some wait ->
      LockIn.trigger_ready st w = (Raise ValueError, w)).
Proof.
  intros Hin Hk Htc.
  assert (Hconv : In label ["1k"; "2k"; "5k"; "10k"; "20k"; "50k"; "100k"] /\
                  fold_left (fun u '(c, by_) => replace u c by_)
                    LockIn.chars label = label /\
                  LockIn.unit_to_float (VStr label) = Raise ValueError).
  { unfold LockIn.timeconstants in Hin. cbn [In] in Hin.
    repeat (destruct Hin as [Hin|Hin];
            [injection Hin as <- <-;
             first [discriminate Hk | vm_compute; tauto]|]).
    contradiction. }
  destruct Hconv as (Hl & Hfold & Hraise).
  assert (Hrun : forall wait,
             LockIn.waittimeconstants st = Some wait ->
             LockIn.trigger_ready st w = (Raise ValueError, w)).
  { intros wait Hwait.
    unfold LockIn.trigger_ready, mbind, io_mbind, io_bind, lift.
    rewrite Hwait, Htc. cbn [LockIn.attr]. rewrite Hraise. reflexivity. }
  repeat split; try assumption.
  destruct (LockIn.waittimeconstants st) as [wait|] eqn:Hwait.
  - exists ValueError. apply (Hrun wait). reflexivity.
  - exists AttributeError.
    unfold LockIn.trigger_ready, mbind, io_mbind, io_bind, lift.
    rewrite Hwait. reflexivity.
Qed.

Lemma C10_kilo_time_constants_witness :
  LockIn.unit_to_float (VStr "1k") = Raise ValueError /\
  LockIn.trigger_ready (lockin_bound "1k" 4) (world_at 0.3) =
    (Raise ValueError, world_at 0.3).
Proof.
  pose proof (C10_kilo_time_constants "1k" "TC 23"
                (lockin_bound "1k" 4) (world_at 0.3)
                ltac:(vm_compute; tauto) ltac:(vm_compute; reflexivity)
                eq_refl) as (_ & _ & _ & H1 & _ & H2).
  exact (conj H1 (H2 4%float eq_refl)).
Defined.

(** ** Lock-in: six values for six variables *)

Lemma lockin_declared (p : gmap string value) (st st' : LockIn.state) :
  LockIn.get_GUIparameter p st = Ok st' ->
  LockIn.variables st' =
    ["Magnitude"; "Phase"; "Frequency"; "Sensitivity"; "AC Gain";
     "Noise density"].
Proof.
  intros H. unfold LockIn.get_GUIparameter in H. unbind H.
  injection H as <-. reflexivity.
Qed.

Lemma lockin_read_result_variables (st st' : LockIn.state) (w w' : world) :
  LockIn.read_result st w = (Ok st', w') ->
  LockIn.variables st' = LockIn.variables st.
Proof.
  intros H. unfold LockIn.read_result in H.
  repeat (apply io_bind_ok in H as (? & ? & _ & H)).
  injection H as <- _. reflexivity.
Qed.

(** ** Channel list of the multimeter *)

Lemma sep_free_cons (c : ascii) (g : string) :
  sep_free (String c g) = true ->
  Ascii.eqb "," c = false /\ Ascii.eqb ";" c = false /\ sep_free g = true.
Proof.
  cbn [sep_free]. unfold is_sep. intros H.
  apply andb_prop in H as [H1 H2].
  apply negb_true_iff in H1. apply orb_false_iff in H1.
  destruct H1 as [H1 H3]. rewrite Ascii.eqb_sym in H1. rewrite Ascii.eqb_sym in H3.
  auto.
Qed.

(** After "," is replaced by ";", splitting at ";" gives back the groups. *)
Lemma split_joined_groups (rest : list (ascii * string)) :
  forall g,
    sep_free g = true ->
    Forall (fun '(sep, g') => is_sep sep = true /\ sep_free g' = true) rest ->
    split (replace (join_groups g rest) "," ";") ";" = g :: map snd rest.
Proof.
  unfold split, replace.
  induction rest as [|[sep g1] rest IH]; intros g Hg Hrest.
  - cbn [join_groups map].
    induction g as [|c g IHg]; [reflexivity|].
    apply sep_free_cons in Hg as (H1 & H2 & Hg).
    rewrite replace_go_one, H1, split_go_one, H2.
    specialize (IHg Hg).
    destruct (split_go ";" 0 (replace_go "," ";" 0 g)) as [t ts].
    injection IHg as -> ->. reflexivity.
  - inversion Hrest as [|x l Hhd Hrest']; subst.
    destruct Hhd as [Hsep Hg1].
    specialize (IH g1 Hg1 Hrest'). cbn [join_groups map snd].
    induction g as [|c g IHg].
    + change (EmptyString +:+ String sep (join_groups g1 rest))
        with (String sep (join_groups g1 rest)).
      rewrite replace_go_one.
      assert (Hs : (if Ascii.eqb "," sep then ";"%char else sep) = ";"%char).
      { unfold is_sep in Hsep. apply orb_prop in Hsep as [H|H];
          apply Ascii.eqb_eq in H; subst sep; reflexivity. }
      rewrite Hs, split_go_one, Ascii.eqb_refl.
      destruct (split_go ";" 0 (replace_go "," ";" 0 (join_groups g1 rest)))
        as [t ts].
      injection IH as -> ->. reflexivity.
    + apply sep_free_cons in Hg as (H1 & H2 & Hg).
      change (String c g +:+ String sep (join_groups g1 rest))
        with (String c (g +:+ String sep (join_groups g1 rest))).
      rewrite replace_go_one, H1, split_go_one, H2.
      specialize (IHg Hg).
      destruct (split_go ";" 0
                  (replace_go "," ";" 0
                     (g +:+ String sep (join_groups g1 rest)))) as [t ts].
      injection IHg as -> ->. reflexivity.
Qed.

Lemma expand_groups_acc (groups : list string) :
  forall acc,
    Keithley.expand_groups groups acc
    = (l ← Keithley.expand_groups groups []; Ok (acc ++ l)).
Proof.
  unfold mbind, result_bind.
  induction groups as [|x groups IH]; intros acc; cbn [Keithley.expand_groups].
  - cbn. rewrite app_nil_r. reflexivity.
  - unfold mbind, result_bind.
    destruct (Keithley.expand_group x) as [added|e]; cbn [Py.bind]; [|reflexivity].
    rewrite (IH (acc ++ added)), (IH ([] ++ added)).
    destruct (Keithley.expand_groups groups []) as [l|e]; cbn [Py.bind];
      [|reflexivity].
    rewrite <- List.app_assoc. reflexivity.
Qed.

(** The groups contribute one after the other, in order. *)
Lemma expand_groups_concat (groups : list string) (outs : list (list string)) :
  Forall2 (fun g o => Keithley.expand_group g = Ok o) groups outs ->
  Keithley.expand_groups groups [] = Ok (concat outs).
Proof.
  induction 1 as [|g o groups outs Hg _ IH]; [reflexivity|].
  cbn [Keithley.expand_groups concat]. unfold mbind, result_bind.
  rewrite Hg. cbn [Py.bind app].
  rewrite expand_groups_acc, IH. reflexivity.
Qed.

Lemma expand_group_plain (x : string) :
  contains x ":" = false -> Keithley.expand_group x = Ok [x].
Proof. intros H. unfold Keithley.expand_group. rewrite H. reflexivity. Qed.

Lemma expand_group_range (sa sb : string) (a b : Z) :
  mem_char ":" sa = false -> mem_char ":" sb = false ->
  int_of_str sa = Ok a -> int_of_str sb = Ok b ->
  Keithley.expand_group (sa +:+ ":" +:+ sb)
  = Ok (map str_of_int (range a (b + 1))).
Proof.
  intros Ha Hb Hia Hib. unfold Keithley.expand_group, Keithley.expand_range.
  assert (Hc : contains (sa +:+ ":" +:+ sb) ":" = true).
  { rewrite contains_one. clear. induction sa as [|c sa IH].
    - reflexivity.
    - change (String c sa +:+ ":" +:+ sb) with (String c (sa +:+ ":" +:+ sb)).
      cbn [mem_char]. rewrite IH. destruct (Ascii.eqb ":" c); reflexivity. }
  rewrite Hc.
  change (sa +:+ ":" +:+ sb) with (sa +:+ String ":" sb).
  rewrite split_two by assumption.
  unfold mbind, result_bind. rewrite Hia, Hib. reflexivity.
Qed.

(** ** Multimeter: expansion of the channel text (C5) *)

(** C5.  "101:105" expands to 101..105 and "101;103;107:109" to 101, 103,
    107, 108, 109.  Groups free of "," and ";" that are joined by either
    separator are expanded one after the other, in order.  A group "a:b"
    whose sides read as the integers [a] and [b] gives the decimal texts of
    [a], [a+1], ..., [b] in ascending order (none when [b < a]); a group
    without ":" is kept as it is. *)
Theorem C5_channel_range_expansion :
  Keithley.expand_channels "101:105"
    = Ok ["101"; "102"; "103"; "104"; "105"] /\
  Keithley.expand_channels "101;103;107:109"
    = Ok ["101"; "103"; "107"; "108"; "109"] /\
  (forall (g : string) (rest : list (ascii * string)),
      sep_free g = true ->
      Forall (fun '(sep, g') => is_sep sep = true /\ sep_free g' = true) rest ->
      Keithley.expand_channels (join_groups g rest)
      = Keithley.expand_groups (g :: map snd rest) []) /\
  (forall (groups : list string) (outs : list (list string)),
      Forall2 (fun g o => Keithley.expand_group g = Ok o) groups outs ->
      Keithley.expand_groups groups [] = Ok (concat outs)) /\
  (forall (sa sb : string) (a b : Z),
      mem_char ":" sa = false -> mem_char ":" sb = false ->
      int_of_str sa = Ok a -> int_of_str sb = Ok b ->
      Keithley.expand_group (sa +:+ ":" +:+ sb)
        = Ok (map str_of_int (range a (b + 1))) /\
      length (range a (b + 1)) = Z.to_nat (b - a + 1) /\
      (forall i, (i < Z.to_nat (b - a + 1))%nat ->
                 nth_error (range a (b + 1)) i = Some (a + Z.of_nat i)) /\
      (forall z, In z (range a (b + 1)) <-> a <= z <= b)) /\
  (forall x : string,
      contains x ":" = false -> Keithley.expand_group x = Ok [x]).
Proof.
  split; [vm_compute; reflexivity|].
  split; [vm_compute; reflexivity|].
  split; [|split; [|split]].
  - intros g rest Hg Hrest. unfold Keithley.expand_channels.
    rewrite split_joined_groups by assumption. reflexivity.
  - apply expand_groups_concat.
  - intros sa sb a b Ha Hb Hia Hib.
    split; [apply expand_group_range; assumption|].
    split; [rewrite range_length; f_equal; lia|].
    split.
    + intros i Hi. unfold range. apply range_from_lookup. lia.
    + intros z. rewrite range_In. lia.
  - apply expand_group_plain.
Qed.

(** ** Multimeter: the elements of the channel list (C9) *)

Lemma expand_group_elements (g : string) (o : list string) (x : string) :
  Keithley.expand_group g = Ok o -> In x o ->
  (contains g ":" = false /\ x = g) \/
  (contains g ":" = true /\ exists z, x = str_of_int z).
Proof.
  unfold Keithley.expand_group. intros H Hin.
  destruct (contains g ":") eqn:Hc.
  - right. split; [reflexivity|]. unfold Keithley.expand_range in H.
    destruct (split g ":") as [|first [|last [|? ?]]]; try discriminate H.
    apply bind_ok in H as (a & _ & H). apply bind_ok in H as (b & _ & H).
    injection H as <-. apply in_map_iff in Hin as (z & <- & _).
    exists z. reflexivity.
  - left. injection H as <-. destruct Hin as [<-|[]]. split; reflexivity.
Qed.

Lemma expand_groups_elements (groups : list string) :
  forall acc l,
    Keithley.expand_groups groups acc = Ok l ->
    forall x, In x l ->
              In x acc \/
              exists g o, In g groups /\
                          Keithley.expand_group g = Ok o /\ In x o.
Proof.
  induction groups as [|g groups IH]; intros acc l H x Hin;
    cbn [Keithley.expand_groups] in H.
  - injection H as <-. left. exact Hin.
  - apply bind_ok in H as (added & Hg & H).
    destruct (IH _ _ H x Hin) as [Hacc|(g' & o & Hg' & Ho & Hx)].
    + apply in_app_or in Hacc as [Hacc|Hadd]; [left; exact Hacc|].
      right. exists g, added. repeat split; [left; reflexivity|assumption..].
    + right. exists g', o. repeat split; [right; exact Hg'|assumption..].
Qed.

(** The claim as stated fails: the binder accepts the channel string
    "abc;1 2" and derives the elements "abc" and "1 2", which are not
    integers. *)
Lemma C9_counterexample :
  exists st',
    Keithley.get_GUIparameter repr_unused
      (keithley_parameters false "abc;1 2") keithley_blank = Ok st' /\
    Keithley.channel_list st' = ["abc"; "1 2"] /\
    is_int_literal "abc" = false /\ int_of_str "abc" = Raise ValueError /\
    is_int_literal "1 2" = false /\ int_of_str "1 2" = Raise ValueError.
Proof.
  eexists. split; [vm_compute; reflexivity|].
  repeat split; vm_compute; reflexivity.
Qed.

(** C9, amended.  When the binder succeeds, the field "Channel list" held a
    text [cs], the channel list is the expansion of [cs], and each of its
    elements is either the decimal text of an integer [z], made of digits
    with an optional minus sign and read back as [z] by [int], or a group of
    [cs] without ":" kept unchanged.  The list is computed from the bound
    parameters alone: the state before the binding plays no part. *)
Theorem C9_channel_list_elements
    (repr : float -> string) (p : gmap string value)
    (st st' : Keithley.state) :
  Keithley.get_GUIparameter repr p st = Ok st' ->
  exists cs,
    p !! "Channel list" = Some (VStr cs) /\
    Keithley.expand_channels cs = Ok (Keithley.channel_list st') /\
    (forall x,
        In x (Keithley.channel_list st') ->
        (exists z, x = str_of_int z /\ is_int_literal x = true /\
                   int_of_str x = Ok z) \/
        (In x (split (replace cs "," ";") ";") /\ contains x ":" = false)) /\
    (forall st0, Keithley.get_GUIparameter repr p st0 = Ok st').
Proof.
  intros H. pose proof H as H0. unfold Keithley.get_GUIparameter in H.
  apply bind_ok in H as (p_mode & _ & H).
  apply bind_ok in H as (p_digits & _ & H).
  apply bind_ok in H as (p_channels & Hp & H).
  apply bind_ok in H as (cs & Hcs & H).
  apply bind_ok in H as (chans & Hch & H). cbv zeta in H.
  assert (Hlist : Keithley.channel_list st' = chans).
  { apply bind_ok in H as (p_trigger & _ & H).
    apply bind_ok in H as (p_scanning & _ & H).
    apply bind_ok in H as (p_range & _ & H).
    apply bind_ok in H as (p_speed & _ & H).
    apply bind_ok in H as (p_tunit & _ & H). cbv zeta in H.
    apply bind_ok in H as (p_port & _ & H).
    destruct (truthy p_scanning).
    - apply bind_ok in H as (vars & _ & H).
      apply bind_ok in H as (m & _ & H).
      apply bind_ok in H as (unit & _ & H).
      injection H as <-. reflexivity.
    - apply bind_ok in H as (var & _ & H).
      apply bind_ok in H as (unit & _ & H).
      injection H as <-. reflexivity. }
  destruct p_channels as [| | | |s]; try discriminate Hcs.
  injection Hcs as ->.
  unfold getitem in Hp. destruct (p !! "Channel list") as [v|] eqn:Hl;
    [|discriminate Hp].
  injection Hp as ->.
  exists cs. rewrite Hlist.
  split; [reflexivity|]. split; [exact Hch|].
  split; [|intros st0; exact H0].
  intros x Hin. unfold Keithley.expand_channels in Hch.
  destruct (expand_groups_elements _ _ _ Hch x Hin)
    as [[]|(g & o & Hg & Ho & Hx)].
  destruct (expand_group_elements g o x Ho Hx) as [(Hc & ->)|(_ & z & ->)].
  - right. split; assumption.
  - left. exists z.
    repeat split; [apply str_of_int_literal|apply int_of_str_of_int].
Qed.

Lemma C9_channel_list_elements_witness :
  exists st',
    Keithley.get_GUIparameter repr_unused
      (keithley_parameters true "101;103;107:109") keithley_blank = Ok st' /\
    Keithley.expand_channels "101;103;107:109"
      = Ok (Keithley.channel_list st') /\
    Keithley.channel_list st' = ["101"; "103"; "107"; "108"; "109"].
Proof.
  eexists. split; [vm_compute; reflexivity|].
  match goal with
  | |- _ = Ok (Keithley.channel_list ?s) /\ _ =>
      destruct (C9_channel_list_elements repr_unused
                  (keithley_parameters true "101;103;107:109")
                  keithley_blank s ltac:(vm_compute; reflexivity))
        as (cs & Hcs & Hex & _)
  end.
  vm_compute in Hcs. injection Hcs as <-.
  split; [exact Hex|reflexivity].
Defined.

(** ** Multimeter: the decoded readings *)

Lemma floats_of_spec (l : list string) :
  forall vals, Keithley.floats_of l = Ok vals ->
               Forall2 (fun t v => float_of_str t = Ok v) l vals.
Proof.
  induction l as [|t l IH]; intros vals H; cbn [Keithley.floats_of] in H.
  - injection H as <-. constructor.
  - apply bind_ok in H as (v & Hv & H).
    apply bind_ok in H as (vs & Hvs & H).
    injection H as <-. constructor; [exact Hv|apply IH; exact Hvs].
Qed.

Lemma floats_of_length (l : list string) (vals : list float) :
  Keithley.floats_of l = Ok vals -> length vals = length l.
Proof.
  intros H. apply floats_of_spec in H.
  induction H; cbn; [reflexivity|f_equal; assumption].
Qed.

Lemma keithley_call_run (st : Keithley.state) (w : world)
    (answer : string) (rs : list string) :
  inbox w = answer :: rs ->
  fst (Keithley.call st w) =
    (vals ← Keithley.floats_of (Keithley.answer_tokens answer);
     Ok (if truthy (Keithley.scanning st) then vals
         else [np_mean vals])).
Proof.
  intros Hin.
  unfold Keithley.call, mbind, io_mbind, io_bind, port_write, port_read, lift.
  cbn [emit inbox]. rewrite Hin.
  unfold result_bind.
  destruct (Keithley.floats_of _) as [vals|e]; cbn [Py.bind fst]; [|reflexivity].
  case (truthy (Keithley.scanning st)); reflexivity.
Qed.

Lemma keithley_call_inv (st : Keithley.state) (w w' : world) (out : list float) :
  Keithley.call st w = (Ok out, w') ->
  exists answer rs vals,
    inbox w = answer :: rs /\
    Keithley.floats_of (Keithley.answer_tokens answer) = Ok vals /\
    out = if truthy (Keithley.scanning st) then vals else [np_mean vals].
Proof.
  intros H.
  destruct (inbox w) as [|answer rs] eqn:Hin.
  - unfold Keithley.call, mbind, io_mbind, io_bind, port_write, port_read in H.
    cbn [emit inbox] in H. rewrite Hin in H. discriminate H.
  - pose proof (keithley_call_run st w answer rs Hin) as Hrun.
    rewrite H in Hrun. cbn [fst] in Hrun. symmetry in Hrun.
    apply bind_ok in Hrun as (vals & Hv & Hout). injection Hout as <-.
    exists answer, rs, vals. repeat split; assumption.
Qed.

Lemma keithley_declared (repr : float -> string) (p : gmap string value)
    (st st' : Keithley.state) :
  Keithley.get_GUIparameter repr p st = Ok st' ->
  length (Keithley.variables st') =
    if truthy (Keithley.scanning st')
    then length (Keithley.channel_list st') else 1%nat.
Proof.
  intros H. unfold Keithley.get_GUIparameter in H.
  apply bind_ok in H as (p_mode & _ & H).
  apply bind_ok in H as (p_digits & _ & H).
  apply bind_ok in H as (p_channels & _ & H).
  apply bind_ok in H as (cs & _ & H).
  apply bind_ok in H as (chans & _ & H). cbv zeta in H.
  apply bind_ok in H as (p_trigger & _ & H).
  apply bind_ok in H as (p_scanning & _ & H).
  apply bind_ok in H as (p_range & _ & H).
  apply bind_ok in H as (p_speed & _ & H).
  apply bind_ok in H as (p_tunit & _ & H). cbv zeta in H.
  apply bind_ok in H as (p_port & _ & H).
  destruct (truthy p_scanning) eqn:Hs.
  - apply bind_ok in H as (vars & Hvars & H).
    apply bind_ok in H as (m & _ & H).
    apply bind_ok in H as (unit & _ & H).
    injection H as <-. cbn. rewrite Hs.
    destruct chans as [|c chans]; cbn [map] in Hvars.
    + injection Hvars as <-. reflexivity.
    + apply bind_ok in Hvars as (m' & _ & Hvars). injection Hvars as <-.
      cbn [map length]. rewrite !length_map. reflexivity.
  - apply bind_ok in H as (var & _ & H).
    apply bind_ok in H as (unit & _ & H).
    injection H as <-. cbn. rewrite Hs. reflexivity.
Qed.

(** ** Multimeter: mean or readings (C7) *)



(** The depth given to [pairwise_sum] never runs out: any depth that is
    large enough for the number of values gives the same sum. *)
Lemma pairwise_sum_depth (d : nat) :
  forall (d' : nat) (l : list float),
    (length l <= 128 + d)%nat -> (d <= d')%nat ->
    pairwise_sum d' l = pairwise_sum d l.
Proof.
  induction d as [|d IH]; intros d' l Hl Hd.
  - destruct d' as [|d']; [reflexivity|]. cbn [pairwise_sum].
    replace (128 <? length l)%nat with false
      by (symmetry; apply Nat.ltb_ge; lia).
    reflexivity.
  - destruct d' as [|d']; [lia|]. cbn [pairwise_sum].
    destruct (128 <? length l)%nat eqn:E; [|reflexivity].
    apply Nat.ltb_lt in E.
    pose proof (Nat.div_mod_eq (length l) 2) as D.
    pose proof (Nat.mod_upper_bound (length l) 2 ltac:(lia)) as M.
    pose proof (Nat.mod_upper_bound (length l / 2) 8 ltac:(lia)) as M8.
    pose proof (Nat.Div0.mod_le (length l / 2) 8) as L8.
    rewrite (IH d' (firstn _ l)), (IH d' (skipn _ l));
      rewrite ?length_firstn, ?length_skipn; try lia.
    reflexivity.
Qed.

Lemma np_sum_any_depth (a : float) (l : list float) (d : nat) :
  (length (a :: l) <= 128 + d)%nat ->
  np_sum (a :: l) = (-0 + pairwise_sum d (a :: l))%float.
Proof.
  intros H. unfold np_sum.
  destruct (Nat.le_ge_cases d (length (a :: l))) as [C|C].
  - rewrite (pairwise_sum_depth d (length (a :: l)) (a :: l) H C).
    reflexivity.
  - rewrite (pairwise_sum_depth (length (a :: l)) d (a :: l)
               ltac:(lia) C).
    reflexivity.
Qed.

(** Eight values and more are not added from left to right: eight times
    0.1 add up to 0.8 and their mean is 0.1, where the sum from left to
    right ends one bit below 0.8. *)
Lemma np_mean_samples :
  np_mean [1; 2; 3]%float = 2%float /\
  np_mean [0.1; 0.1; 0.1; 0.1; 0.1; 0.1; 0.1; 0.1]%float = 0.1%float /\
  (fold_left PrimFloat.add
     [0.1; 0.1; 0.1; 0.1; 0.1; 0.1; 0.1; 0.1] 0 / 8)%float
  = 0x1.9999999999999p-4%float /\
  np_mean [-0]%float = (-0)%float /\
  np_sum [] = 0%float.
Proof. repeat split; vm_compute; reflexivity. Qed.



(** ** Oscilloscope: what a binding declares and what [call] returns *)

Lemma dict_set_fresh {V} (k : Z) (v : V) (d : list (Z * V)) :
  (forall k', In k' (RTx.keys d) -> k' <> k) ->
  RTx.dict_set k v d = d ++ [(k, v)].
Proof.
  induction d as [|[k' v'] d IH]; intros H; cbn; [reflexivity|].
  destruct (k' =? k) eqn:E.
  - apply Z.eqb_eq in E. exfalso. apply (H k'); [left; reflexivity|exact E].
  - rewrite IH; [reflexivity|]. intros k'' Hin. apply H. right. exact Hin.
Qed.

Lemma dict_set_length {V} (k : Z) (v : V) (d : list (Z * V)) :
  (length (RTx.dict_set k v d) <= S (length d))%nat.
Proof.
  induction d as [|[k' v'] d IH]; cbn; [lia|].
  destruct (k' =? k); cbn; lia.
Qed.

(** One turn of the binding loop, for a place above every key so far. *)
Lemma bind_place_spec (p : gmap string value) (place : Z) (b b' : RTx.binding) :
  RTx.bind_place p place b = Ok b' ->
  (forall k, In k (RTx.keys (RTx.b_places b)) -> k < place) ->
  let sel := if RTx.place_selected p place then [place] else [] in
  RTx.keys (RTx.b_places b') = RTx.keys (RTx.b_places b) ++ sel /\
  length (RTx.b_variables b') = (length (RTx.b_variables b) + length sel)%nat /\
  length (RTx.b_units b') = (length (RTx.b_units b) + length sel)%nat /\
  length (RTx.b_plottype b') = (length (RTx.b_plottype b) + length sel)%nat /\
  length (RTx.b_savetype b') = (length (RTx.b_savetype b) + length sel)%nat.
Proof.
  intros H Hk. unfold RTx.bind_place in H.
  destruct (RTx.place_selected p place).
  - unbind H. injection H as <-. cbn.
    rewrite dict_set_fresh.
    + unfold RTx.keys. rewrite map_app, !length_app. cbn. repeat split; lia.
    + intros k' Hin. specialize (Hk k' Hin). lia.
  - injection H as <-. cbn. rewrite app_nil_r. repeat split; lia.
Qed.

Lemma bind_places_spec (p : gmap string value) (n : nat) :
  forall (a : Z) (b b' : RTx.binding),
    RTx.bind_places p (range_from a n) b = Ok b' ->
    (forall k, In k (RTx.keys (RTx.b_places b)) -> k < a) ->
    let sel := List.filter (RTx.place_selected p) (range_from a n) in
    RTx.keys (RTx.b_places b') = RTx.keys (RTx.b_places b) ++ sel /\
    length (RTx.b_variables b') = (length (RTx.b_variables b) + length sel)%nat /\
    length (RTx.b_units b') = (length (RTx.b_units b) + length sel)%nat /\
    length (RTx.b_plottype b') = (length (RTx.b_plottype b) + length sel)%nat /\
    length (RTx.b_savetype b') = (length (RTx.b_savetype b) + length sel)%nat.
Proof.
  induction n as [|n IH]; intros a b b' H Hk; cbn [range_from RTx.bind_places] in H.
  - injection H as <-. cbn. rewrite app_nil_r. repeat split; lia.
  - apply bind_ok in H as (b1 & H1 & H2).
    pose proof (bind_place_spec p a b b1 H1 Hk) as (K1 & V1 & U1 & P1 & S1).
    apply IH in H2 as (K2 & V2 & U2 & P2 & S2).
    + cbn [range_from List.filter].
      destruct (RTx.place_selected p a); cbn [length app] in *.
      * rewrite K2, K1, V2, V1, U2, U1, P2, P1, S2, S1, <- app_assoc.
        cbn. repeat split; lia.
      * rewrite app_nil_r in K1.
        rewrite K2, K1, V2, V1, U2, U1, P2, P1, S2, S1.
        repeat split; lia.
    + intros k Hin. rewrite K1 in Hin. apply in_app_or in Hin as [Hin|Hin].
      * specialize (Hk k Hin). lia.
      * destruct (RTx.place_selected p a); cbn in Hin; [|contradiction].
        destruct Hin as [<-|[]]. lia.
Qed.

Lemma apply_gui_parameters_spec (p : gmap string value) (st st' : RTx.state) :
  RTx.apply_gui_parameters p st = Ok st' ->
  RTx.use_preset st = false ->
  let sel := List.filter (RTx.place_selected p) (RTx.visited_places p st) in
  RTx.keys (RTx.measurement_places st') = sel /\
  length (RTx.variables st') = length sel /\
  length (RTx.units st') = length sel /\
  length (RTx.plottype st') = length sel /\
  length (RTx.savetype st') = length sel /\
  RTx.use_preset st' = false.
Proof.
  intros H Hp. unfold RTx.apply_gui_parameters in H. rewrite Hp in H.
  apply bind_ok in H as (b & Hb & H). injection H as <-. cbn.
  apply bind_places_spec in Hb; [|intros k []].
  cbn in Hb. destruct Hb as (K & V & U & P & S).
  unfold RTx.visited_places. repeat split; assumption.
Qed.

Lemma apply_gui_parameters_preset (p : gmap string value) (st st' : RTx.state) :
  RTx.apply_gui_parameters p st = Ok st' ->
  RTx.use_preset st = true ->
  RTx.measurement_places st' = [] /\
  length (RTx.variables st') = Z.to_nat (RTx.maximum_measurement_places st') /\
  RTx.use_preset st' = true.
Proof.
  intros H Hp. unfold RTx.apply_gui_parameters in H. rewrite Hp in H.
  injection H as <-. cbn. rewrite length_map, range_length.
  replace (RTx.maximum_measurement_places st + 1 - 1)
    with (RTx.maximum_measurement_places st) by lia.
  repeat split.
Qed.

Lemma connect_places_length (places : list Z) :
  forall (mp mp' : list (Z * RTx.place_config)) (w w' : world),
    RTx.connect_places places mp w = (Ok mp', w') ->
    (length mp' <= length mp + length places)%nat.
Proof.
  induction places as [|place rest IH]; intros mp mp' w w' H;
    cbn [RTx.connect_places] in H.
  - injection H as <- _. cbn. lia.
  - apply io_bind_ok in H as (mode & w1 & _ & H).
    destruct (negb (String.eqb mode "NONE")).
    + apply io_bind_ok in H as (src & w2 & _ & H).
      apply io_bind_ok in H as (source & w3 & _ & H).
      apply IH in H.
      pose proof (dict_set_length (V := RTx.place_config) place
                    (source, mode, VStr "Average") mp).
      unfold RTx.place_config in *. cbn [length]. lia.
    + apply IH in H. cbn [length]. lia.
Qed.

Lemma measure_places_length (mp : list (Z * RTx.place_config)) :
  forall (acc out : list float) (w w' : world),
    RTx.measure_places mp acc w = (Ok out, w') ->
    length out = (length acc + length mp)%nat.
Proof.
  induction mp as [|[place cfg] mp IH]; intros acc out w w' H;
    cbn [RTx.measure_places] in H.
  - injection H as <- _. cbn. lia.
  - apply io_bind_ok in H as (v & w1 & _ & H).
    apply IH in H. rewrite H, length_app. cbn. lia.
Qed.

(** What [call] returns has one value per measurement place, filled up to
    the maximal number of places when presets are used. *)
Lemma rtx_call_length (st : RTx.state) (w w' : world) (out : list float) :
  RTx.call st w = (Ok out, w') ->
  length out =
    if RTx.use_preset st &&
       (Z.of_nat (length (RTx.measurement_places st)) <?
        RTx.maximum_measurement_places st)
    then Z.to_nat (RTx.maximum_measurement_places st)
    else length (RTx.measurement_places st).
Proof.
  intros H. unfold RTx.call in H.
  apply io_bind_ok in H as (res & w1 & Hm & H).
  apply measure_places_length in Hm. cbn in Hm. rewrite Hm in H.
  destruct (RTx.use_preset st &&
            (Z.of_nat (length (RTx.measurement_places st)) <?
             RTx.maximum_measurement_places st)) eqn:E.
  - injection H as <- _. rewrite length_app, repeat_length', Hm.
    apply andb_prop in E as [_ E]. apply Z.ltb_lt in E. lia.
  - injection H as <- _. exact Hm.
Qed.

Lemma rtx_output_length (p : gmap string value) (st st1 st2 : RTx.state)
    (w w' : world) (out : list float) :
  RTx.apply_gui_parameters p st = Ok st1 ->
  (st2 = st1 \/ exists w0 w1, RTx.connect st1 w0 = (Ok st2, w1)) ->
  RTx.call st2 w = (Ok out, w') ->
  length out = length (RTx.variables st2).
Proof.
  intros Happly Hst Hcall. apply rtx_call_length in Hcall.
  destruct (RTx.use_preset st) eqn:Hp.
  - apply apply_gui_parameters_preset in Happly as (Hmp & Hv & Hp1); [|exact Hp].
    assert (Hinv : RTx.use_preset st2 = true /\
                   RTx.variables st2 = RTx.variables st1 /\
                   RTx.maximum_measurement_places st2 =
                     RTx.maximum_measurement_places st1 /\
                   (length (RTx.measurement_places st2) <=
                    Z.to_nat (RTx.maximum_measurement_places st1))%nat).
    { destruct Hst as [->|(w0 & w1 & Hc)].
      - rewrite Hmp. cbn. repeat split; try assumption. lia.
      - unfold RTx.connect in Hc. rewrite Hp1 in Hc.
        apply io_bind_ok in Hc as (mp & w2 & Hc & Hr).
        injection Hr as <- _. cbn.
        apply connect_places_length in Hc. rewrite range_length in Hc.
        cbn in Hc. repeat split; try assumption.
        replace (RTx.maximum_measurement_places st1 + 1 - 1)
          with (RTx.maximum_measurement_places st1) in Hc by lia.
        exact Hc. }
    destruct Hinv as (Hp2 & Hv2 & Hm2 & Hlen).
    rewrite Hcall, Hp2, Hv2, Hv, Hm2. cbn [andb].
    destruct (Z.of_nat (length (RTx.measurement_places st2)) <?
              RTx.maximum_measurement_places st1) eqn:E; [reflexivity|].
    apply Z.ltb_ge in E. lia.
  - apply apply_gui_parameters_spec in Happly as (K & V & _ & _ & _ & Hp1);
      [|exact Hp].
    assert (st2 = st1) as ->.
    { destruct Hst as [->|(w0 & w1 & Hc)]; [reflexivity|].
      unfold RTx.connect in Hc. rewrite Hp1 in Hc.
      injection Hc as <- _. reflexivity. }
    rewrite Hcall, Hp1, V, <- K. cbn [andb]. unfold RTx.keys.
    rewrite length_map. reflexivity.
Qed.

(** ** Oscilloscope: which places contribute (C8) *)

Lemma range_from_NoDup (a : Z) (n : nat) : List.NoDup (range_from a n).
Proof.
  revert a. induction n as [|n IH]; intros a; cbn [range_from].
  - constructor.
  - constructor; [|apply IH]. rewrite range_from_In. lia.
Qed.

(** The claim as stated fails: place 2 has the channel "CH2" assigned and
    no mode, and contributes no place and no variable. *)
Lemma C8_counterexample :
  exists st',
    RTx.apply_gui_parameters rtx_parameters RTx.init = Ok st' /\
    get_default rtx_parameters (RTx.place_key 2 "channel") (VStr "None")
      = VStr "CH2" /\
    RTx.keys (RTx.measurement_places st') = [1; 3] /\
    RTx.variables st' = ["CH1 Frequency"; "CH4 Peak to peak"] /\
    RTx.units st' = ["Hz"; "V"].
Proof.
  eexists. split; [vm_compute; reflexivity|].
  repeat split; vm_compute; reflexivity.
Qed.

(** C8, amended.  With presets off, a binding that succeeds gives place
    [k] an entry of [measurement_places] if and only if [k] is one of the
    places 1..number_of_places and both its channel and its mode differ
    from "None"; each such place occurs once, and the lists of variables,
    units, plot flags and save flags have one entry per such place. *)
Theorem C8_place_contributes
    (p : gmap string value) (st st' : RTx.state) :
  RTx.use_preset st = false ->
  RTx.apply_gui_parameters p st = Ok st' ->
  let n := RTx.parse_parameter_int p "Number of places"
             (RTx.maximum_measurement_places st) in
  let places := RTx.keys (RTx.measurement_places st') in
  (forall k,
      In k places <->
      1 <= k <= n /\
      eq_str (get_default p (RTx.place_key k "channel") (VStr "None")) "None"
        = false /\
      eq_str (get_default p (RTx.place_key k "mode") (VStr "None")) "None"
        = false) /\
  List.NoDup places /\
  length (RTx.variables st') = length places /\
  length (RTx.units st') = length places /\
  length (RTx.plottype st') = length places /\
  length (RTx.savetype st') = length places.
Proof.
  intros Hp H n places.
  apply apply_gui_parameters_spec in H as (K & V & U & P & S & _); [|exact Hp].
  subst places. rewrite K, V, U, P, S.
  split; [|split; [|repeat split]].
  - intros k. rewrite filter_In. unfold RTx.visited_places.
    rewrite range_In. fold n. unfold RTx.place_selected.
    rewrite andb_true_iff, !negb_true_iff.
    split; intros (Hk & Hc & Hm); repeat split; try assumption; lia.
  - apply List.NoDup_filter. apply range_from_NoDup.
Qed.

Lemma C8_place_contributes_witness :
  exists st',
    RTx.apply_gui_parameters rtx_parameters RTx.init = Ok st' /\
    In 3 (RTx.keys (RTx.measurement_places st')) /\
    ~ In 2 (RTx.keys (RTx.measurement_places st')) /\
    length (RTx.variables st') =
      length (RTx.keys (RTx.measurement_places st')).
Proof.
  eexists. split; [vm_compute; reflexivity|].
  match goal with
  | |- In 3 (RTx.keys (RTx.measurement_places ?s)) /\ _ =>
      destruct (C8_place_contributes rtx_parameters RTx.init s eq_refl
                  ltac:(vm_compute; reflexivity)) as (Hiff & _ & Hv & _)
  end.
  split; [|split].
  - apply Hiff. vm_compute. repeat split; congruence.
  - intros H2. apply Hiff in H2 as (_ & _ & Hm). vm_compute in Hm.
    discriminate Hm.
  - exact Hv.
Defined.

(** ** Oscilloscope: the decoder and its sentinel (C6) *)

(** The claim as stated fails: the answer "abc" differs from the sentinel
    and is not converted but raises [ValueError]; the answer "nan" differs
    from the sentinel and yields not-a-number. *)
Lemma C6_counterexample :
  fst (RTx.read_result_and_handle_error
         (world_with ["abc"] (fun _ => false))) = Raise ValueError /\
  "nan" <> "9.91E+37" /\
  fst (RTx.read_result_and_handle_error
         (world_with ["nan"] (fun _ => false))) = Ok nan.
Proof.
  split; [vm_compute; reflexivity|].
  split; [discriminate|vm_compute; reflexivity].
Qed.

(** C6, amended.  [read_result_and_handle_error] consumes one answer.  It
    returns not-a-number when the answer is the sentinel "9.91E+37"; for any
    other answer it behaves as [float] does on it: the value of a float
    literal ("1.234E-03" yields 0.001234), and [ValueError] otherwise. *)
Theorem C6_sentinel_decoding (w : world) (ret : string) (rs : list string) :
  inbox w = ret :: rs ->
  let res := RTx.read_result_and_handle_error w in
  inbox (snd res) = rs /\
  (ret = "9.91E+37" -> fst res = Ok nan) /\
  (ret <> "9.91E+37" -> fst res = float_of_str ret) /\
  (ret = "1.234E-03" -> fst res = Ok 0.001234%float).
Proof.
  intros Hin res.
  assert (Hres : fst res = if String.eqb ret "9.91E+37" then Ok nan
                           else float_of_str ret).
  { unfold res, RTx.read_result_and_handle_error, mbind, io_mbind, io_bind,
      port_read, lift, mret, io_mret, io_ret.
    rewrite Hin. destruct (String.eqb ret "9.91E+37"); reflexivity. }
  split; [|split; [|split]].
  - unfold res, RTx.read_result_and_handle_error, mbind, io_mbind, io_bind,
      port_read, lift, mret, io_mret, io_ret.
    rewrite Hin. destruct (String.eqb ret "9.91E+37"); reflexivity.
  - intros ->. rewrite Hres. reflexivity.
  - intros Hne. rewrite Hres.
    apply String.eqb_neq in Hne. rewrite Hne. reflexivity.
  - intros ->. rewrite Hres. vm_compute. reflexivity.
Qed.

Lemma C6_sentinel_decoding_witness :
  fst (RTx.read_result_and_handle_error
         (world_with ["9.91E+37"; "1.234E-03"] (fun _ => false))) = Ok nan /\
  fst (RTx.read_result_and_handle_error
         (world_with ["1.234E-03"] (fun _ => false))) = Ok 0.001234%float.
Proof.
  split.
  - apply (C6_sentinel_decoding
             (world_with ["9.91E+37"; "1.234E-03"] (fun _ => false))
             "9.91E+37" ["1.234E-03"] eq_refl).
    reflexivity.
  - apply (C6_sentinel_decoding
             (world_with ["1.234E-03"] (fun _ => false))
             "1.234E-03" [] eq_refl).
    reflexivity.
Defined.

(** ** The polling loops, one turn at a time

    The loops are defined by recursion on the pending answers.  Unrolled
    once, each is the body of the source loop written with the primitives of
    the host. *)

Lemma set_inbox_same (w : world) : set_inbox (inbox w) w = w.
Proof. destruct w. reflexivity. Qed.

Lemma poll_buffer_inbox (need : Z) (rs : list string) (w : world) :
  Keithley.poll_buffer need rs w
  = Keithley.poll_buffer need rs (set_inbox rs w).
Proof. destruct rs; reflexivity. Qed.

Lemma keithley_read_result_turn (st : Keithley.state) (w : world) :
  Keithley.read_result st w =
  (stopped ← is_run_stopped;
   if stopped : bool then mret tt
   else
     port_write "TRAC:FREE?";;
     ans ← port_read;
     bytes_in_use ← lift (b ← item (split ans ",") 1; int_of_str b);
     if Z.of_nat (length (Keithley.channel_list st)) * 16 <=? bytes_in_use
     then mret tt
     else time_sleep 0.1;; Keithley.read_result st) w.
Proof.
  unfold Keithley.read_result.
  destruct w as [rs clk sig polls lg]. cbn [inbox].
  destruct rs as [|ans rs]; cbn [Keithley.poll_buffer];
    unfold mbind, io_mbind, io_bind, result_bind, is_run_stopped,
      port_write, port_read, lift, mret, io_mret, io_ret;
    simpl_world; destruct (sig polls); simpl_world; try reflexivity.
  destruct (Py.bind (item (split ans ",") 1) _) as [n|e];
    simpl_world; [|reflexivity].
  destruct (_ <=? n); simpl_world; [reflexivity|].
  rewrite !time_sleep_interval. simpl_world.
  rewrite poll_buffer_inbox. reflexivity.
Qed.

Lemma wait_waveforms_inbox (target : Z) (places : list Z) (rs : list string)
    (w : world) :
  RTx.wait_waveforms target places rs w
  = RTx.wait_waveforms target places rs (set_inbox rs w).
Proof. destruct places, rs; reflexivity. Qed.

Lemma rtx_wait_turn (target : Z) (place : Z) (rest : list Z) (w : world) :
  RTx.wait_waveforms target (place :: rest) (inbox w) w =
  (n ← RTx.get_waveform_count place;
   if n <? target
   then time_sleep 0.1;;
        ((fun w' =>
            RTx.wait_waveforms target (place :: rest) (inbox w') w') : io unit)
   else ((fun w' =>
            RTx.wait_waveforms target rest (inbox w') w') : io unit)) w.
Proof.
  destruct w as [rs clk sig polls lg]. cbn [inbox].
  unfold RTx.get_waveform_count, mbind, io_mbind, io_bind, port_write,
    port_read, lift.
  destruct rs as [|ans rs]; cbn [RTx.wait_waveforms]; simpl_world;
    [reflexivity|].
  destruct (int_of_str ans) as [n|e]; [|reflexivity].
  destruct (n <? target).
  - rewrite !time_sleep_interval. simpl_world.
    rewrite wait_waveforms_inbox. reflexivity.
  - rewrite wait_waveforms_inbox. reflexivity.
Qed.

(** ** The polling loops and the stop signal (C3) *)

Lemma stop_checks_app (l1 l2 : list event) :
  stop_checks (l1 ++ l2) = stop_checks l1 ++ stop_checks l2.
Proof.
  induction l1 as [|[] l1 IH]; cbn; rewrite ?IH; reflexivity.
Qed.

(** The multimeter loop asks the host before every sleep. *)
Lemma keithley_poll_polite (need : Z) (rs : list string) :
  forall w, exists new,
    log (snd (Keithley.poll_buffer need rs w)) = log w ++ new /\
    polite_poll "TRAC:FREE?" 0.1 new.
Proof.
  induction rs as [|ans rs IH]; intros w; cbn [Keithley.poll_buffer];
    unfold is_run_stopped; simpl_world;
    destruct (stop_signal w (stop_polls w)); simpl_world.
  - exists [EStop true]. split; [reflexivity|constructor].
  - exists [EStop false; EWrite "TRAC:FREE?"].
    rewrite <- List.app_assoc. split; [reflexivity|constructor].
  - exists [EStop true]. split; [reflexivity|constructor].
  - destruct (_ ← item (split ans ",") 1; int_of_str _) as [n|e].
    + destruct (need <=? n).
      * exists [EStop false; EWrite "TRAC:FREE?"; ERead ans].
        simpl_world. rewrite <- !List.app_assoc.
        split; [reflexivity|constructor].
      * rewrite time_sleep_interval.
        match goal with
        | |- context [Keithley.poll_buffer need rs ?w1] =>
            destruct (IH w1) as (new & Hlog & Hp)
        end.
        exists (EStop false :: EWrite "TRAC:FREE?" :: ERead ans ::
                ESleep 0.1 :: new).
        rewrite Hlog. simpl_world.
        rewrite <- !List.app_assoc. split; [reflexivity|constructor; exact Hp].
    + exists [EStop false; EWrite "TRAC:FREE?"; ERead ans].
      simpl_world. rewrite <- !List.app_assoc.
      split; [reflexivity|constructor].
Qed.

(** A stop request that is pending when the multimeter loop starts a turn
    ends the loop at once. *)
Lemma keithley_poll_stops (st : Keithley.state) (w : world) :
  stop_signal w (stop_polls w) = true ->
  fst (Keithley.read_result st w) = Ok tt /\
  log (snd (Keithley.read_result st w)) = log w ++ [EStop true].
Proof.
  intros H. unfold Keithley.read_result.
  destruct (inbox w); cbn [Keithley.poll_buffer];
    unfold is_run_stopped; simpl_world;
    rewrite H; split; reflexivity.
Qed.

(** The oscilloscope loop never asks the host. *)
Lemma rtx_wait_never_asks (target : Z) (rs : list string) :
  forall places w,
    stop_checks (log (snd (RTx.wait_waveforms target places rs w))) =
      stop_checks (log w) /\
    stop_polls (snd (RTx.wait_waveforms target places rs w)) = stop_polls w.
Proof.
  induction rs as [|ans rs IH]; intros [|place rest] w;
    cbn [RTx.wait_waveforms]; simpl_world;
    rewrite ?stop_checks_app, ?app_nil_r; try (split; reflexivity).
  destruct (int_of_str ans) as [n|e].
  - destruct (n <? target); rewrite ?time_sleep_interval;
      match goal with
      | |- context [RTx.wait_waveforms target ?ps rs ?w1] =>
          destruct (IH ps w1) as (Hc & Hp)
      end;
      rewrite Hc, Hp; simpl_world;
      rewrite !stop_checks_app, !app_nil_r; split; reflexivity.
  - simpl_world.
    rewrite !stop_checks_app, !app_nil_r. split; reflexivity.
Qed.

(** C3 fails on the oscilloscope driver.  [request_result] never calls
    [is_run_stopped]: whatever the state and the world, its log gains no
    stop check.  With two waveforms requested, an instrument that keeps
    answering 0 and a stop requested from the start, it sleeps after every
    answer and ends only on the transport timeout, where the multimeter's
    [read_result] returns at once. *)
Theorem C3_oscilloscope_poll_ignores_stop :
  (forall (st : RTx.state) (w : world),
      stop_checks (log (snd (RTx.request_result st w))) = stop_checks (log w) /\
      stop_polls (snd (RTx.request_result st w)) = stop_polls w) /\
  (exists st1,
      RTx.apply_gui_parameters rtx_parameters RTx.init = Ok st1 /\
      let w := world_with ["0"; "0"; "0"] (fun _ => true) in
      fst (RTx.request_result st1 w) = Raise TimeoutError /\
      sleeps (log (snd (RTx.request_result st1 w))) = [0.1; 0.1; 0.1]%float /\
      stop_checks (log (snd (RTx.request_result st1 w))) = []) /\
  (forall (st : Keithley.state),
      let w := world_with ["0,0"; "0,0"; "0,0"] (fun _ => true) in
      fst (Keithley.read_result st w) = Ok tt /\
      log (snd (Keithley.read_result st w)) = [EStop true]).
Proof.
  split; [|split].
  - intros st w. unfold RTx.request_result.
    destruct (1 <? RTx.waveform_count st); [|split; reflexivity].
    apply rtx_wait_never_asks.
  - eexists. split; [vm_compute; reflexivity|].
    cbv zeta. repeat split; vm_compute; reflexivity.
  - intros st w. apply (keithley_poll_stops st w). reflexivity.
Qed.

(** ** All drivers: as many values as declared variables (C1) *)

(** C1.  For each driver, the list that [call] returns is as long as the
    list of variable names declared by the latest parameter binding.
    Lock-in: six values for six names, also after [read_result].
    Oscilloscope: one value per declared variable, whether [connect] ran in
    between or not.  Multimeter: one value for one name when not scanning;
    when scanning, one value per channel of the declared list, provided the
    answer of the instrument has that many comma-separated pieces. *)
Theorem C1_output_length_matches_declaration :
  (forall (p : gmap string value) (st st1 : LockIn.state),
      LockIn.get_GUIparameter p st = Ok st1 ->
      length (LockIn.variables st1) = 6%nat /\
      length (LockIn.call st1) = length (LockIn.variables st1) /\
      forall (w w' : world) (st2 : LockIn.state),
        LockIn.read_result st1 w = (Ok st2, w') ->
        length (LockIn.call st2) = length (LockIn.variables st2)) /\
  (forall (p : gmap string value) (st st1 st2 : RTx.state)
          (w w' : world) (out : list float),
      RTx.apply_gui_parameters p st = Ok st1 ->
      (st2 = st1 \/ exists w0 w1, RTx.connect st1 w0 = (Ok st2, w1)) ->
      RTx.call st2 w = (Ok out, w') ->
      length out = length (RTx.variables st2)) /\
  (forall (repr : float -> string) (p : gmap string value)
          (st st1 : Keithley.state) (w w' : world) (out : list float),
      Keithley.get_GUIparameter repr p st = Ok st1 ->
      Keithley.call st1 w = (Ok out, w') ->
      (truthy (Keithley.scanning st1) = true ->
       forall answer rs,
         inbox w = answer :: rs ->
         length (Keithley.answer_tokens answer) =
           length (Keithley.channel_list st1)) ->
      length out = length (Keithley.variables st1) /\
      (truthy (Keithley.scanning st1) = false -> length out = 1%nat)).
Proof.
  split; [|split].
  - intros p st st1 H. pose proof (lockin_declared p st st1 H) as Hv.
    rewrite Hv. repeat split.
    intros w w' st2 Hr. apply lockin_read_result_variables in Hr.
    rewrite Hr, Hv. reflexivity.
  - intros p st st1 st2 w w' out. apply rtx_output_length.
  - intros repr p st st1 w w' out Hb Hc Htok.
    apply keithley_declared in Hb.
    apply keithley_call_inv in Hc as (answer & rs & vals & Hin & Hv & ->).
    rewrite Hb. destruct (truthy (Keithley.scanning st1)).
    + split; [|discriminate].
      rewrite (floats_of_length _ _ Hv). apply (Htok eq_refl answer rs Hin).
    + split; reflexivity.
Qed.

Lemma C1_output_length_matches_declaration_witness :
  (exists st1,
      LockIn.get_GUIparameter (lockin_parameters "100m")
        (lockin_bound "1" 1) = Ok st1 /\
      length (LockIn.call st1) = 6%nat) /\
  (exists st1 out w',
      RTx.apply_gui_parameters rtx_parameters RTx.init = Ok st1 /\
      RTx.call st1 (world_with ["1.0E+03"; "9.91E+37"] (fun _ => false)) =
        (Ok out, w') /\
      length out = 2%nat /\ length (RTx.variables st1) = 2%nat) /\
  (exists st1 out w',
      Keithley.get_GUIparameter repr_unused
        (keithley_parameters true "101:103") keithley_blank = Ok st1 /\
      Keithley.call st1 (world_with ["1.5,2.5,3.5"] (fun _ => false)) =
        (Ok out, w') /\
      length out = 3%nat /\ length (Keithley.variables st1) = 3%nat).
Proof.
  destruct C1_output_length_matches_declaration as (HL & HR & HK).
  split; [|split].
  - eexists. split; [vm_compute; reflexivity|].
    match goal with
    | |- length (LockIn.call ?s) = _ =>
        destruct (HL (lockin_parameters "100m") (lockin_bound "1" 1) s
                    ltac:(vm_compute; reflexivity)) as (H6 & Hc & _)
    end.
    rewrite Hc. exact H6.
  - eexists. eexists. eexists.
    split; [vm_compute; reflexivity|].
    split; [vm_compute; reflexivity|].
    match goal with
    | |- length ?o = _ /\ length (RTx.variables ?s) = _ =>
        rewrite (HR rtx_parameters RTx.init s s
                   (world_with ["1.0E+03"; "9.91E+37"] (fun _ => false))
                   _ o ltac:(vm_compute; reflexivity) (or_introl eq_refl)
                   ltac:(vm_compute; reflexivity))
    end.
    split; reflexivity.
  - eexists. eexists. eexists.
    split; [vm_compute; reflexivity|].
    split; [vm_compute; reflexivity|].
    match goal with
    | |- length ?o = _ /\ length (Keithley.variables ?s) = _ =>
        destruct (HK repr_unused (keithley_parameters true "101:103")
                    keithley_blank s
                    (world_with ["1.5,2.5,3.5"] (fun _ => false))
                    _ o ltac:(vm_compute; reflexivity)
                    ltac:(vm_compute; reflexivity)) as (Hlen & _)
    end.
    + intros _ answer rs Hin. injection Hin as <- _. reflexivity.
    + rewrite Hlen. split; reflexivity.
Defined.

(* ===================================================================== *)
(** * Further properties of the drivers                                   *)
(* ===================================================================== *)

(** ** The commands and the answers of a log *)

Lemma writes_app (l1 l2 : list event) : writes (l1 ++ l2) = writes l1 ++ writes l2.
Proof.
  induction l1 as [|[c|r|b|d] l1 IH]; cbn; [reflexivity|f_equal; exact IH|exact IH..].
Qed.

Lemma reads_app (l1 l2 : list event) : reads (l1 ++ l2) = reads l1 ++ reads l2.
Proof.
  induction l1 as [|[c|r|b|d] l1 IH]; cbn; [reflexivity|exact IH|f_equal; exact IH|exact IH..].
Qed.

(** ** The polling loops on the answers of an instrument *)

(** A run of the multimeter loop that the host does not stop, on the
    answers [pre ++ [last]]: those of [pre] report too few bytes, [last]
    does not. *)
Lemma poll_buffer_run (need : Z) (last : string) (post : list string)
    (pre : list string) :
  forall w : world,
    forallb (below Keithley.bytes_in_use need) pre = true ->
    below Keithley.bytes_in_use need last = false ->
    (forall i, (i <= length pre)%nat ->
               stop_signal w (stop_polls w + i)%nat = false) ->
    let r := Keithley.poll_buffer need (pre ++ last :: post) w in
    fst r = (n ← Keithley.bytes_in_use last; Ok tt) /\
    inbox (snd r) = post /\
    sleeps (log (snd r)) = sleeps (log w) ++ repeat 0.1%float (length pre) /\
    writes (log (snd r))
      = writes (log w) ++ repeat "TRAC:FREE?" (S (length pre)) /\
    reads (log (snd r)) = reads (log w) ++ pre ++ [last] /\
    stop_checks (log (snd r))
      = stop_checks (log w) ++ repeat false (S (length pre)).
Proof.
  induction pre as [|a pre IH]; intros w Hpre Hlast Hstop.
  - cbn [app Keithley.poll_buffer is_run_stopped]. simpl_world.
    pose proof (Hstop O ltac:(cbn; lia)) as H0. rewrite Nat.add_0_r in H0.
    rewrite H0.
    unfold below in Hlast. unfold Keithley.bytes_in_use in *.
    destruct (b ← item (split last ",") 1; int_of_str b) as [n|e].
    + apply Z.ltb_ge in Hlast. apply Z.leb_le in Hlast. rewrite Hlast.
      simpl_world. rewrite !sleeps_app, !writes_app, !reads_app, !stop_checks_app.
      cbn. rewrite ?app_nil_r, <- ?List.app_assoc. repeat split; reflexivity.
    + simpl_world. rewrite !sleeps_app, !writes_app, !reads_app, !stop_checks_app.
      cbn. rewrite ?app_nil_r, <- ?List.app_assoc. repeat split; reflexivity.
  - cbn [forallb] in Hpre. apply andb_true_iff in Hpre as [Ha Hpre].
    cbn [app Keithley.poll_buffer is_run_stopped]. simpl_world.
    pose proof (Hstop O ltac:(cbn; lia)) as H0. rewrite Nat.add_0_r in H0.
    rewrite H0.
    unfold below in Ha. unfold Keithley.bytes_in_use in Ha.
    destruct (b ← item (split a ",") 1; int_of_str b) as [n|e];
      [|discriminate Ha].
    apply Z.ltb_lt in Ha.
    replace (need <=? n) with false by (symmetry; apply Z.leb_gt; exact Ha).
    rewrite time_sleep_interval.
    match goal with
    | |- context [Keithley.poll_buffer need _ ?w1] =>
        specialize (IH w1 Hpre Hlast)
    end.
    simpl_world.
    cbn [fst snd emit set_inbox slept inbox clock stop_signal stop_polls log] in IH.
    destruct IH as (I1 & I2 & I3 & I4 & I5 & I6).
    { intros i Hi. specialize (Hstop (S i) ltac:(cbn; lia)).
      rewrite <- Hstop. f_equal. lia. }
    rewrite I1, I2, I3, I4, I5, I6.
    rewrite !sleeps_app, !writes_app, !reads_app, !stop_checks_app.
    cbn. rewrite ?app_nil_r, <- ?List.app_assoc. repeat split; reflexivity.
Qed.

(** X1.  [read_result] of the multimeter, when the host does not stop the
    run: on answers to "TRAC:FREE?" of which the first ones ([pre]) report
    fewer bytes in use than 16 per channel and the next one ([last]) does
    not, it asks once per answer, sleeps 0.1 s after each answer of [pre]
    and after no other, leaves the later answers ([post]) unread, and
    returns; or raises what reading the count of [last] raises. *)
Theorem X1_keithley_read_result_run
    (st : Keithley.state) (w : world) (need : Z)
    (pre : list string) (last : string) (post : list string) :
  need = Z.of_nat (length (Keithley.channel_list st)) * 16 ->
  inbox w = pre ++ last :: post ->
  forallb (below Keithley.bytes_in_use need) pre = true ->
  below Keithley.bytes_in_use need last = false ->
  (forall i, (i <= length pre)%nat ->
             stop_signal w (stop_polls w + i)%nat = false) ->
  let r := Keithley.read_result st w in
  fst r = match Keithley.bytes_in_use last with
          | Ok _ => Ok tt
          | Raise e => Raise e
          end /\
  inbox (snd r) = post /\
  sleeps (log (snd r)) = sleeps (log w) ++ repeat 0.1%float (length pre) /\
  writes (log (snd r))
    = writes (log w) ++ repeat "TRAC:FREE?" (S (length pre)) /\
  reads (log (snd r)) = reads (log w) ++ pre ++ [last] /\
  stop_checks (log (snd r))
    = stop_checks (log w) ++ repeat false (S (length pre)).
Proof.
  intros -> Hin Hpre Hlast Hstop. unfold Keithley.read_result. rewrite Hin.
  pose proof (poll_buffer_run _ last post pre w Hpre Hlast Hstop) as H.
  cbv zeta in H. destruct H as (H1 & H2).
  split; [|exact H2]. rewrite H1.
  destruct (Keithley.bytes_in_use last); reflexivity.
Qed.

Lemma X1_keithley_read_result_run_witness :
  let w := world_with ["1000,0"; "984,16"; "952,48"; "936,64"] (fun _ => false) in
  let r := Keithley.read_result (keithley_bound true "101:103") w in
  fst r = Ok tt /\ inbox (snd r) = ["936,64"] /\
  sleeps (log (snd r)) = [0.1; 0.1]%float.
Proof.
  pose proof (X1_keithley_read_result_run (keithley_bound true "101:103")
                (world_with ["1000,0"; "984,16"; "952,48"; "936,64"]
                   (fun _ => false))
                48 ["1000,0"; "984,16"] "952,48" ["936,64"]
                eq_refl eq_refl eq_refl eq_refl (fun _ _ => eq_refl)) as H.
  cbv zeta in *. destruct H as (H1 & H2 & H3 & _).
  split; [exact H1|]. split; [exact H2|exact H3].
Defined.

(** A run of the multimeter loop that the host stops after the answers
    [pre], which all report too few bytes. *)
Lemma poll_buffer_stopped (need : Z) (post : list string)
    (pre : list string) :
  forall w : world,
    forallb (below Keithley.bytes_in_use need) pre = true ->
    (forall i, (i < length pre)%nat ->
               stop_signal w (stop_polls w + i)%nat = false) ->
    stop_signal w (stop_polls w + length pre)%nat = true ->
    let r := Keithley.poll_buffer need (pre ++ post) w in
    fst r = Ok tt /\
    inbox (snd r) = post /\
    sleeps (log (snd r)) = sleeps (log w) ++ repeat 0.1%float (length pre) /\
    writes (log (snd r))
      = writes (log w) ++ repeat "TRAC:FREE?" (length pre) /\
    reads (log (snd r)) = reads (log w) ++ pre /\
    stop_checks (log (snd r))
      = stop_checks (log w) ++ repeat false (length pre) ++ [true].
Proof.
  induction pre as [|a pre IH]; intros w Hpre Hgo Hstop.
  - cbn [length] in Hstop. rewrite Nat.add_0_r in Hstop.
    cbn [app]. rewrite poll_buffer_inbox.
    destruct post as [|b post]; cbn [Keithley.poll_buffer is_run_stopped];
      simpl_world; rewrite Hstop; simpl_world;
      rewrite !sleeps_app, !writes_app, !reads_app, !stop_checks_app; cbn;
      rewrite ?app_nil_r; repeat split; reflexivity.
  - cbn [forallb] in Hpre. apply andb_true_iff in Hpre as [Ha Hpre].
    cbn [app Keithley.poll_buffer is_run_stopped]. simpl_world.
    pose proof (Hgo O ltac:(cbn; lia)) as H0. rewrite Nat.add_0_r in H0.
    rewrite H0.
    unfold below in Ha. unfold Keithley.bytes_in_use in Ha.
    destruct (b ← item (split a ",") 1; int_of_str b) as [n|e];
      [|discriminate Ha].
    apply Z.ltb_lt in Ha.
    replace (need <=? n) with false by (symmetry; apply Z.leb_gt; exact Ha).
    rewrite time_sleep_interval.
    match goal with
    | |- context [Keithley.poll_buffer need _ ?w1] =>
        specialize (IH w1 Hpre)
    end.
    simpl_world.
    cbn [fst snd emit set_inbox slept inbox clock stop_signal stop_polls log]
      in IH.
    destruct IH as (I1 & I2 & I3 & I4 & I5 & I6).
    { intros i Hi. specialize (Hgo (S i) ltac:(cbn; lia)).
      rewrite <- Hgo. f_equal. lia. }
    { rewrite <- Hstop. f_equal. cbn [length]. lia. }
    rewrite I1, I2, I3, I4, I5, I6.
    rewrite !sleeps_app, !writes_app, !reads_app, !stop_checks_app.
    cbn. rewrite ?app_nil_r, <- ?List.app_assoc. repeat split; reflexivity.
Qed.

(** X2.  [read_result] of the multimeter when the host stops the run: if
    the stop request is seen at the poll that follows the answers [pre],
    which all report too few bytes, it returns at that poll; after the
    stop it sends nothing, reads nothing and does not sleep, so the later
    answers stay unread and the wait ends within one interval. *)
Theorem X2_keithley_read_result_stopped
    (st : Keithley.state) (w : world) (need : Z)
    (pre post : list string) :
  need = Z.of_nat (length (Keithley.channel_list st)) * 16 ->
  inbox w = pre ++ post ->
  forallb (below Keithley.bytes_in_use need) pre = true ->
  (forall i, (i < length pre)%nat ->
             stop_signal w (stop_polls w + i)%nat = false) ->
  stop_signal w (stop_polls w + length pre)%nat = true ->
  let r := Keithley.read_result st w in
  fst r = Ok tt /\
  inbox (snd r) = post /\
  sleeps (log (snd r)) = sleeps (log w) ++ repeat 0.1%float (length pre) /\
  writes (log (snd r)) = writes (log w) ++ repeat "TRAC:FREE?" (length pre) /\
  reads (log (snd r)) = reads (log w) ++ pre /\
  stop_checks (log (snd r))
    = stop_checks (log w) ++ repeat false (length pre) ++ [true].
Proof.
  intros -> Hin Hpre Hgo Hstop. unfold Keithley.read_result. rewrite Hin.
  apply poll_buffer_stopped; assumption.
Qed.

Lemma X2_keithley_read_result_stopped_witness :
  let w := world_with ["1000,0"; "984,16"; "952,48"]
             (fun n => Nat.leb 1 n) in
  let r := Keithley.read_result (keithley_bound true "101:103") w in
  fst r = Ok tt /\ inbox (snd r) = ["984,16"; "952,48"] /\
  sleeps (log (snd r)) = [0.1%float].
Proof.
  pose proof (X2_keithley_read_result_stopped
                (keithley_bound true "101:103")
                (world_with ["1000,0"; "984,16"; "952,48"]
                   (fun n => Nat.leb 1 n))
                48 ["1000,0"] ["984,16"; "952,48"]
                eq_refl eq_refl eq_refl) as H.
  cbv zeta in H. destruct H as (H1 & H2 & H3 & _).
  - intros i Hi. cbn [length] in Hi.
    assert (i = O) as -> by lia. reflexivity.
  - reflexivity.
  - split; [exact H1|]. split; [exact H2|exact H3].
Defined.

(** The wait of the oscilloscope for one place, on the answers
    [pre ++ [last]]: those of [pre] report too few waveforms, [last]
    reports enough. *)
Lemma wait_waveforms_place (target place : Z) (rest : list Z)
    (last : string) (post : list string) (pre : list string) :
  forall w : world,
    forallb (below int_of_str target) pre = true ->
    reaches int_of_str target last = true ->
    exists w',
      RTx.wait_waveforms target (place :: rest) (pre ++ last :: post) w
      = RTx.wait_waveforms target rest post w' /\
      sleeps (log w') = sleeps (log w) ++ repeat 0.1%float (length pre) /\
      writes (log w')
      = writes (log w)
          ++ repeat (RTx.meas place ":RES:WFMCount?") (S (length pre)) /\
      reads (log w') = reads (log w) ++ pre ++ [last].
Proof.
  induction pre as [|a pre IH]; intros w Hpre Hlast.
  - cbn [app RTx.wait_waveforms].
    unfold reaches in Hlast.
    destruct (int_of_str last) as [n|e]; [|discriminate Hlast].
    apply Z.leb_le in Hlast.
    replace (n <? target) with false by (symmetry; apply Z.ltb_ge; exact Hlast).
    eexists. split; [reflexivity|]. simpl_world.
    rewrite !sleeps_app, !writes_app, !reads_app. cbn.
    rewrite ?app_nil_r, <- ?List.app_assoc. repeat split; reflexivity.
  - cbn [forallb] in Hpre. apply andb_true_iff in Hpre as [Ha Hpre].
    cbn [app RTx.wait_waveforms].
    unfold below in Ha.
    destruct (int_of_str a) as [n|e]; [|discriminate Ha].
    rewrite Ha, time_sleep_interval.
    match goal with
    | |- context [RTx.wait_waveforms target (place :: rest) _ ?w1] =>
        destruct (IH w1 Hpre Hlast) as (w' & E & I1 & I2 & I3)
    end.
    exists w'. split; [exact E|].
    cbn [fst snd emit set_inbox slept inbox clock stop_signal stop_polls log]
      in I1, I2, I3.
    rewrite I1, I2, I3.
    rewrite !sleeps_app, !writes_app, !reads_app. cbn.
    rewrite ?app_nil_r, <- ?List.app_assoc. repeat split; reflexivity.
Qed.

Lemma wait_waveforms_done (target : Z) (rs : list string) (w : world) :
  RTx.wait_waveforms target [] rs w = (Ok tt, set_inbox rs w).
Proof. destruct rs; reflexivity. Qed.

Lemma wait_waveforms_run (target : Z) (places : list Z) :
  forall (blocks : list (list string * string)) (post : list string)
         (w : world),
    length blocks = length places ->
    forallb (fun b => forallb (below int_of_str target) (fst b)
                      && reaches int_of_str target (snd b)) blocks = true ->
    let r := RTx.wait_waveforms target places
               (concat (map (fun b => fst b ++ [snd b]) blocks) ++ post) w in
    fst r = Ok tt /\
    inbox (snd r) = post /\
    sleeps (log (snd r))
    = sleeps (log w) ++ repeat 0.1%float (length (concat (map fst blocks))) /\
    writes (log (snd r))
    = writes (log w)
        ++ concat (map (fun pb => repeat (RTx.meas (fst pb) ":RES:WFMCount?")
                                    (S (length (fst (snd pb)))))
                     (combine places blocks)) /\
    reads (log (snd r))
    = reads (log w) ++ concat (map (fun b => fst b ++ [snd b]) blocks).
Proof.
  induction places as [|place rest IH]; intros blocks post w Hlen Hb.
  - destruct blocks; [|discriminate Hlen].
    cbn [map concat combine app]. rewrite wait_waveforms_done.
    simpl_world. cbn. rewrite ?app_nil_r. repeat split; reflexivity.
  - destruct blocks as [|[pre last] blocks]; [discriminate Hlen|].
    injection Hlen as Hlen.
    cbn [forallb fst snd] in Hb. apply andb_true_iff in Hb as [Hb1 Hb].
    apply andb_true_iff in Hb1 as [Hpre Hlast].
    cbn [map concat combine fst snd].
    rewrite <- !List.app_assoc. cbn [app].
    destruct (wait_waveforms_place target place rest last
                (concat (map (fun b => fst b ++ [snd b]) blocks) ++ post)
                pre w Hpre Hlast) as (w' & E & I1 & I2 & I3).
    rewrite E.
    destruct (IH blocks post w' Hlen Hb) as (J1 & J2 & J3 & J4 & J5).
    rewrite J1, J2, J3, J4, J5, I1, I2, I3.
    rewrite !length_app, !repeat_app, <- !List.app_assoc.
    repeat split; reflexivity.
Qed.

(** X3.  [request_result] of the oscilloscope with a waveform count above
    1: when the answers to the count queries are, place after place, some
    counts below the target ([fst b]) followed by one that reaches it
    ([snd b]), it returns; it has asked once per answer, each place in
    turn, has slept 0.1 s after each answer below the target and after no
    other, and leaves the later answers unread. *)
Theorem X3_rtx_request_result_run
    (st : RTx.state) (w : world) (blocks : list (list string * string))
    (post : list string) :
  1 < RTx.waveform_count st ->
  length blocks = length (RTx.measurement_places st) ->
  forallb (fun b =>
             forallb (below int_of_str (RTx.waveform_count st)) (fst b)
             && reaches int_of_str (RTx.waveform_count st) (snd b))
    blocks = true ->
  inbox w = concat (map (fun b => fst b ++ [snd b]) blocks) ++ post ->
  let r := RTx.request_result st w in
  fst r = Ok tt /\
  inbox (snd r) = post /\
  sleeps (log (snd r))
    = sleeps (log w) ++ repeat 0.1%float (length (concat (map fst blocks))) /\
  writes (log (snd r))
    = writes (log w)
        ++ concat (map (fun pb => repeat (RTx.meas (fst pb) ":RES:WFMCount?")
                                    (S (length (fst (snd pb)))))
                     (combine (RTx.keys (RTx.measurement_places st)) blocks)) /\
  reads (log (snd r))
    = reads (log w) ++ concat (map (fun b => fst b ++ [snd b]) blocks).
Proof.
  intros Hwc Hlen Hb Hin. unfold RTx.request_result.
  apply Z.ltb_lt in Hwc. rewrite Hwc, Hin.
  apply wait_waveforms_run; [|exact Hb].
  rewrite Hlen. symmetry. apply length_map.
Qed.

Lemma X3_rtx_request_result_run_witness :
  let w := world_with ["0"; "1"; "2"; "5"; "later"] (fun _ => false) in
  let r := RTx.request_result rtx_bound w in
  fst r = Ok tt /\ inbox (snd r) = ["later"] /\
  sleeps (log (snd r)) = [0.1; 0.1]%float /\
  writes (log (snd r))
    = ["MEAS1:RES:WFMCount?"; "MEAS1:RES:WFMCount?"; "MEAS1:RES:WFMCount?";
       "MEAS3:RES:WFMCount?"].
Proof.
  pose proof (X3_rtx_request_result_run rtx_bound
                (world_with ["0"; "1"; "2"; "5"; "later"] (fun _ => false))
                [(["0"; "1"], "2"); ([], "5")] ["later"]
                eq_refl eq_refl eq_refl eq_refl) as H.
  cbv zeta in *. destruct H as (H1 & H2 & H3 & H4 & _).
  repeat split; assumption.
Defined.

(** ** Oscilloscope: the values [call] returns *)

Lemma read_result_and_handle_error_run (w : world) (a : string)
    (rs : list string) :
  inbox w = a :: rs ->
  RTx.read_result_and_handle_error w
  = (RTx.handle_error a, emit (ERead a) (set_inbox rs w)).
Proof.
  intros H. unfold RTx.read_result_and_handle_error, RTx.handle_error.
  unfold mbind, io_mbind, io_bind, port_read. rewrite H.
  destruct (negb (a =? "9.91E+37")%string); reflexivity.
Qed.

Lemma measure_place_run (place : Z) (cfg : RTx.place_config) (w : world)
    (a : string) (rs : list string) :
  inbox w = a :: rs ->
  exists w',
    RTx.measure_place place cfg w = (RTx.handle_error a, w') /\
    inbox w' = rs /\
    reads (log w') = reads (log w) ++ [a] /\
    length (writes (log w')) = S (length (writes (log w))) /\
    sleeps (log w') = sleeps (log w).
Proof.
  intros H. destruct cfg as [[ch mode] stat]. unfold RTx.measure_place.
  assert (G : forall cmd,
             exists w',
               (port_write cmd;; RTx.read_result_and_handle_error) w
               = (RTx.handle_error a, w') /\
               inbox w' = rs /\
               reads (log w') = reads (log w) ++ [a] /\
               length (writes (log w')) = S (length (writes (log w))) /\
               sleeps (log w') = sleeps (log w)).
  { intros cmd. unfold mbind, io_mbind, io_bind, port_write.
    rewrite (read_result_and_handle_error_run _ a rs) by exact H.
    eexists. split; [reflexivity|]. simpl_world.
    rewrite !reads_app, !writes_app, !sleeps_app, !length_app. cbn.
    rewrite ?app_nil_r. repeat split; lia. }
  unfold RTx.get_measurement_minimum, RTx.get_measurement_maximum,
    RTx.get_averaged_measurement, RTx.get_measurement.
  repeat match goal with |- context [if ?c then _ else _] => destruct c end;
    apply G.
Qed.

Lemma measure_places_run (mp : list (Z * RTx.place_config)) :
  forall (acc : list float) (answers : list string) (vals : list float)
         (post : list string) (w : world),
    length answers = length mp ->
    Forall2 (fun a v => RTx.handle_error a = Ok v) answers vals ->
    inbox w = answers ++ post ->
    exists w',
      RTx.measure_places mp acc w = (Ok (acc ++ vals), w') /\
      inbox w' = post /\
      reads (log w') = reads (log w) ++ answers /\
      length (writes (log w')) = (length (writes (log w)) + length mp)%nat /\
      sleeps (log w') = sleeps (log w).
Proof.
  induction mp as [|[place cfg] mp IH]; intros acc answers vals post w Hlen HF Hin.
  - destruct answers; [|discriminate Hlen]. inversion HF; subst.
    exists w. cbn. rewrite !app_nil_r, Nat.add_0_r. repeat split; auto.
  - destruct answers as [|a answers]; [discriminate Hlen|].
    injection Hlen as Hlen. inversion HF as [|? v ? vals' Ha HF']; subst.
    cbn [app] in Hin.
    destruct (measure_place_run place cfg w a (answers ++ post) Hin)
      as (w1 & E1 & I1 & I2 & I3 & I4).
    destruct (IH (acc ++ [v]) answers vals' post w1 Hlen HF' I1)
      as (w2 & E2 & J1 & J2 & J3 & J4).
    exists w2. cbn [RTx.measure_places].
    unfold mbind, io_mbind, io_bind. rewrite E1, Ha.
    change (RTx.measure_places mp (acc ++ [v]) w1
            = (Ok (acc ++ v :: vals'), w2) /\ inbox w2 = post /\
              reads (log w2) = reads (log w) ++ a :: answers /\
              length (writes (log w2))
              = (length (writes (log w)) + S (length mp))%nat /\
              sleeps (log w2) = sleeps (log w)).
    rewrite E2, J1, J2, J3, J4, I2, I3, I4, <- !List.app_assoc.
    repeat split; try reflexivity. lia.
Qed.

(** X4.  [call] of the oscilloscope: when the instrument has one answer
    per measurement place and each is the sentinel or a float literal, the
    value returned for the i-th place is the i-th answer decoded (the
    sentinel as not-a-number), followed by the not-a-number padding of
    the preset mode; one answer is read per place, the later answers are
    left unread and nothing sleeps. *)
Theorem X4_rtx_call_values
    (st : RTx.state) (w : world) (answers : list string) (vals : list float)
    (post : list string) :
  length answers = length (RTx.measurement_places st) ->
  Forall2 (fun a v => RTx.handle_error a = Ok v) answers vals ->
  inbox w = answers ++ post ->
  let maxp := RTx.maximum_measurement_places st in
  let padding :=
    if RTx.use_preset st && (Z.of_nat (length vals) <? maxp)
    then repeat nan (Z.to_nat (maxp - Z.of_nat (length vals))) else [] in
  let r := RTx.call st w in
  fst r = Ok (vals ++ padding) /\
  inbox (snd r) = post /\
  reads (log (snd r)) = reads (log w) ++ answers /\
  length (writes (log (snd r)))
    = (length (writes (log w)) + length (RTx.measurement_places st))%nat /\
  sleeps (log (snd r)) = sleeps (log w).
Proof.
  intros Hlen HF Hin maxp padding. unfold RTx.call.
  destruct (measure_places_run (RTx.measurement_places st) [] answers vals
              post w Hlen HF Hin) as (w' & E & I1 & I2 & I3 & I4).
  unfold mbind, io_mbind, io_bind. rewrite E. cbn [app].
  subst padding maxp.
  destruct (RTx.use_preset st &&
            (Z.of_nat (length vals) <? RTx.maximum_measurement_places st));
    cbn; rewrite ?app_nil_r; repeat split; assumption.
Qed.

Lemma X4_rtx_call_values_witness :
  let w := world_with ["1.0E+03"; "9.91E+37"; "later"] (fun _ => false) in
  fst (RTx.call rtx_bound w) = Ok [1000%float; nan] /\
  inbox (snd (RTx.call rtx_bound w)) = ["later"].
Proof.
  pose proof (X4_rtx_call_values rtx_bound
                (world_with ["1.0E+03"; "9.91E+37"; "later"] (fun _ => false))
                ["1.0E+03"; "9.91E+37"] [1000%float; nan] ["later"]
                eq_refl
                ltac:(repeat constructor)
                eq_refl) as H.
  cbv zeta in *. destruct H as (H1 & H2 & _).
  split; [exact H1|exact H2].
Defined.

(** ** Oscilloscope: the panels that the binder accepts *)

Lemma split_nonempty (s sep : string) : exists t ts, split s sep = t :: ts.
Proof. unfold split. destruct (split_go sep 0 s) as [t ts]. eauto. Qed.

Lemma last_item_cons {A} (x : A) (l : list A) : exists y, last_item (x :: l) = Ok y.
Proof.
  unfold last_item. destruct (rev (x :: l)) as [|y l'] eqn:E; [|eauto].
  apply (f_equal (@length A)) in E. rewrite length_rev in E. discriminate E.
Qed.

Lemma bind_place_accepts (p : gmap string value) (place : Z) (b : RTx.binding) :
  (exists b', RTx.bind_place p place b = Ok b') <->
  (RTx.place_selected p place = true -> place_accepted p place = true).
Proof.
  unfold RTx.bind_place, place_accepted.
  destruct (RTx.place_selected p place) eqn:Hsel.
  2:{ split; [intros _ H; discriminate H|eauto]. }
  set (channel := get_default p (RTx.place_key place "channel") (VStr "None")).
  set (mode := get_default p (RTx.place_key place "mode") (VStr "None")).
  unfold RTx.last_char_of, RTx.table_get_value.
  split.
  - intros [b' H] _.
    destruct channel as [| | | |c]; try discriminate H.
    unfold mbind, result_bind in *.
    destruct (last_char c) as [d|]; [|discriminate H]. cbn [Py.bind] in *.
    destruct (int_of_str d) as [n|]; [|discriminate H]. cbn [Py.bind] in *.
    destruct mode as [| | | |m]; try discriminate H.
    destruct (table_get RTx.modes m); [reflexivity|discriminate H].
  - intros H. specialize (H eq_refl).
    destruct channel as [| | | |c]; try discriminate H.
    destruct mode as [| | | |m]; try discriminate H.
    unfold mbind, result_bind in *.
    destruct (last_char c) as [d|]; [|discriminate H]. cbn [Py.bind] in *.
    destruct (int_of_str d) as [n|]; [|discriminate H].
    destruct (table_get RTx.modes m) as [code|]; [|discriminate H].
    cbn [Py.bind as_str].
    destruct (split_nonempty m " in ") as (t & ts & ->).
    destruct (last_item_cons t ts) as (y & ->).
    cbn. eauto.
Qed.

Lemma bind_places_accepts (p : gmap string value) (places : list Z) :
  forall b,
    (exists b', RTx.bind_places p places b = Ok b') <->
    (forall k, In k places ->
               RTx.place_selected p k = true -> place_accepted p k = true).
Proof.
  induction places as [|k places IH]; intros b.
  - cbn. split; [intros _ k []|eauto].
  - cbn [RTx.bind_places]. unfold mbind, result_bind.
    split.
    + intros [b' H].
      destruct (RTx.bind_place p k b) as [b1|] eqn:E; [|discriminate H].
      cbn [Py.bind] in H.
      intros k' [<-|Hin].
      * apply (bind_place_accepts p k b). eauto.
      * apply (proj1 (IH b1)); eauto.
    + intros H.
      destruct (proj2 (bind_place_accepts p k b)) as [b1 E].
      { apply H. left. reflexivity. }
      rewrite E. cbn [Py.bind]. apply IH. intros k' Hin. apply H. right. exact Hin.
Qed.

Lemma table_get_In {V} (t : list (string * V)) (k : string) :
  In k (map fst t) <-> exists v, table_get t k = Ok v.
Proof.
  induction t as [|[k' v'] t IH]; cbn.
  - split; [intros []|intros [v H]; discriminate H].
  - destruct (String.eqb k' k) eqn:E.
    + apply String.eqb_eq in E. split; eauto.
    + apply String.eqb_neq in E. rewrite <- IH. split; [intros [H|H]|]; tauto.
Qed.

(** X5.  [apply_gui_parameters] of the oscilloscope, presets off, returns
    exactly when every selected place it visits has a channel label whose
    last character [int] reads and a mode of the table [modes]; it raises
    otherwise.  In particular it returns on every combination of the
    channels "None", "CH1" ... "CH4" and of the labels of [modes]. *)
Theorem X5_rtx_apply_accepts (p : gmap string value) (st : RTx.state) :
  RTx.use_preset st = false ->
  ((exists st', RTx.apply_gui_parameters p st = Ok st') <->
   (forall k, In k (RTx.visited_places p st) ->
              RTx.place_selected p k = true -> place_accepted p k = true)) /\
  ((forall k, In k (RTx.visited_places p st) ->
              In (get_default p (RTx.place_key k "channel") (VStr "None"))
                 (map VStr ["None"; "CH1"; "CH2"; "CH3"; "CH4"]) /\
              In (get_default p (RTx.place_key k "mode") (VStr "None"))
                 (map VStr (map fst RTx.modes))) ->
   exists st', RTx.apply_gui_parameters p st = Ok st').
Proof.
  intros Hpre.
  assert (Hiff :
    (exists st', RTx.apply_gui_parameters p st = Ok st') <->
    (forall k, In k (RTx.visited_places p st) ->
               RTx.place_selected p k = true -> place_accepted p k = true)).
  { rewrite <- (bind_places_accepts p (RTx.visited_places p st)
                  {| RTx.b_places := []; RTx.b_variables := [];
                     RTx.b_units := []; RTx.b_plottype := [];
                     RTx.b_savetype := [] |}).
    unfold RTx.apply_gui_parameters. rewrite Hpre.
    unfold mbind, result_bind.
    destruct (RTx.bind_places _ _ _) as [b|e]; cbn [Py.bind].
    - split; eauto.
    - split; intros [x H]; discriminate H. }
  split; [exact Hiff|].
  intros H. apply Hiff. intros k Hk Hsel.
  destruct (H k Hk) as [Hc Hm].
  unfold RTx.place_selected in Hsel. unfold place_accepted.
  destruct (get_default p (RTx.place_key k "channel") (VStr "None")) as [| | | |c];
    try (cbn in Hc; intuition discriminate).
  destruct (get_default p (RTx.place_key k "mode") (VStr "None")) as [| | | |m];
    try (apply in_map_iff in Hm as (? & Hm & _); discriminate Hm).
  apply in_map_iff in Hm as (m' & Hm & Hin). injection Hm as ->.
  apply table_get_In in Hin as [code ->].
  cbn [map In] in Hc.
  destruct Hc as [Hc|[Hc|[Hc|[Hc|[Hc|[]]]]]]; injection Hc as <-;
    try reflexivity.
  discriminate Hsel.
Qed.

Lemma X5_rtx_apply_accepts_witness :
  exists st', RTx.apply_gui_parameters rtx_parameters RTx.init = Ok st'.
Proof.
  apply (proj2 (proj1 (X5_rtx_apply_accepts rtx_parameters RTx.init eq_refl))).
  intros k Hk Hsel.
  change (RTx.visited_places rtx_parameters RTx.init) with [1; 2; 3] in Hk.
  destruct Hk as [<-|[<-|[<-|[]]]]; vm_compute; reflexivity.
Defined.

(** ** Oscilloscope: the keys of the panel *)

Lemma all_digits_no_space (s : string) :
  all_digits s = true -> mem_char " " s = false.
Proof.
  induction s as [|c s IH]; [reflexivity|]. cbn [all_digits mem_char].
  intros H. apply andb_true_iff in H as [Hc Hs].
  destruct (Ascii.eqb " " c) eqn:E.
  - apply Ascii.eqb_eq in E. subst c. discriminate Hc.
  - apply IH, Hs.
Qed.

Lemma str_of_int_no_space (z : Z) : mem_char " " (str_of_int z) = false.
Proof.
  pose proof (str_of_int_literal z) as H. unfold is_int_literal in H.
  destruct (str_of_int z) as [|c s]; [discriminate H|].
  destruct (Ascii.eqb c "-") eqn:E.
  - apply Ascii.eqb_eq in E. subst c. cbn [mem_char]. cbn.
    unfold digits in H. destruct s; [discriminate H|].
    apply all_digits_no_space, H.
  - unfold digits in H. apply all_digits_no_space, H.
Qed.

Lemma str_of_int_inj (a b : Z) : str_of_int a = str_of_int b -> a = b.
Proof.
  intros H. pose proof (int_of_str_of_int a) as Ha.
  rewrite H, int_of_str_of_int in Ha. injection Ha as ->. reflexivity.
Qed.

Lemma app_space_inj (a : string) :
  forall a' f f',
    mem_char " " a = false -> mem_char " " a' = false ->
    a +:+ String " " f = a' +:+ String " " f' -> a = a' /\ f = f'.
Proof.
  induction a as [|c a IH]; intros [|c' a'] f f' Ha Ha' H; cbn in H.
  - injection H as ->. auto.
  - injection H as <- _. cbn in Ha'. discriminate Ha'.
  - injection H as -> _. cbn in Ha. discriminate Ha.
  - injection H as -> H.
    cbn [mem_char] in Ha, Ha'.
    destruct (Ascii.eqb " " c'); [discriminate Ha|].
    destruct (IH a' f f' Ha Ha' H) as [-> ->]. auto.
Qed.

Lemma place_key_inj (k k' : Z) (f f' : string) :
  RTx.place_key k f = RTx.place_key k' f' -> k = k' /\ f = f'.
Proof.
  unfold RTx.place_key. intros H. cbn in H.
  repeat (injection H as H).
  apply app_space_inj in H as [H ->]; auto using str_of_int_no_space.
  apply str_of_int_inj in H. auto.
Qed.

Lemma spaces_place_key (n : nat) (k : Z) (f : string) :
  RTx.spaces n <> RTx.place_key k f.
Proof. unfold RTx.place_key. destruct n; cbn; discriminate. Qed.

Lemma spaces_inj (n m : nat) : RTx.spaces n = RTx.spaces m -> n = m.
Proof.
  revert m. induction n as [|n IH]; intros [|m] H; cbn in H;
    try discriminate H; [reflexivity|].
  injection H as H. f_equal. apply IH, H.
Qed.

Lemma gui_get_set_eq (k : string) (v : RTx.gui_field)
    (d : list (string * RTx.gui_field)) :
  gui_get k (RTx.gui_set k v d) = Some v.
Proof.
  induction d as [|[k' v'] d IH]; cbn.
  - rewrite String.eqb_refl. reflexivity.
  - destruct (String.eqb k' k) eqn:E; cbn.
    + rewrite String.eqb_refl. reflexivity.
    + rewrite E. exact IH.
Qed.

Lemma gui_get_set_ne (k k' : string) (v : RTx.gui_field)
    (d : list (string * RTx.gui_field)) :
  k <> k' -> gui_get k' (RTx.gui_set k v d) = gui_get k' d.
Proof.
  intros Hne. induction d as [|[k0 v0] d IH]; cbn.
  - apply String.eqb_neq in Hne. rewrite Hne. reflexivity.
  - destruct (String.eqb k0 k) eqn:E; cbn.
    + apply String.eqb_eq in E. subst k0.
      apply String.eqb_neq in Hne. rewrite Hne. reflexivity.
    + destruct (String.eqb k0 k'); [reflexivity|exact IH].
Qed.

(** A turn of the loop of [update_gui_parameters] leaves the keys of the
    other places, and the two keys above the places, as they are. *)
Lemma offer_place_other (p : gmap string value) (k : Z) (key : string)
    (d : list (string * RTx.gui_field)) :
  key <> RTx.spaces (Z.to_nat k) ->
  (forall f, key <> RTx.place_key k f) ->
  gui_get key (RTx.offer_place p k d) = gui_get key d.
Proof.
  intros H1 H2. unfold RTx.offer_place.
  destruct (negb _); rewrite !gui_get_set_ne; auto;
    try (intros E; apply (H2 _ (eq_sym E))).
Qed.

Lemma offer_place_same (p : gmap string value) (k : Z)
    (d : list (string * RTx.gui_field)) :
  let chosen :=
    negb (eq_str (get_default p (RTx.place_key k "channel") (VStr "None"))
            "None") in
  gui_get (RTx.spaces (Z.to_nat k)) (RTx.offer_place p k d) = Some RTx.GLine /\
  gui_get (RTx.place_key k "channel") (RTx.offer_place p k d)
  = Some (RTx.GChoices ["None"; "CH1"; "CH2"; "CH3"; "CH4"]) /\
  gui_get (RTx.place_key k "mode") (RTx.offer_place p k d)
  = (if chosen then Some (RTx.GChoices (map fst RTx.modes))
     else gui_get (RTx.place_key k "mode") d) /\
  gui_get (RTx.place_key k "statistics") (RTx.offer_place p k d)
  = (if chosen then Some (RTx.GChoices RTx.statistic_modes)
     else gui_get (RTx.place_key k "statistics") d).
Proof.
  intros chosen. unfold RTx.offer_place. fold chosen.
  assert (Hf : forall f f', f <> f' -> RTx.place_key k f <> RTx.place_key k f').
  { intros f f' Hne E. apply place_key_inj in E as [_ E]. auto. }
  assert (Hs : forall f, RTx.place_key k f <> RTx.spaces (Z.to_nat k)).
  { intros f E. apply (spaces_place_key _ _ _ (eq_sym E)). }
  destruct chosen.
  - repeat split.
    + rewrite !gui_get_set_ne by auto. apply gui_get_set_eq.
    + rewrite !gui_get_set_ne by (apply Hf; discriminate). apply gui_get_set_eq.
    + rewrite gui_get_set_ne by (apply Hf; discriminate). apply gui_get_set_eq.
    + apply gui_get_set_eq.
  - repeat split.
    + rewrite !gui_get_set_ne by auto. apply gui_get_set_eq.
    + apply gui_get_set_eq.
    + rewrite !gui_get_set_ne; auto;
        try (apply Hf; discriminate);
        try (intros E; apply (spaces_place_key _ _ _ E)).
    + rewrite !gui_get_set_ne; auto;
        try (apply Hf; discriminate);
        try (intros E; apply (spaces_place_key _ _ _ E)).
Qed.

Lemma offer_places_other (p : gmap string value) (key : string)
    (places : list Z) :
  forall d,
    (forall k, In k places ->
               key <> RTx.spaces (Z.to_nat k) /\
               forall f, key <> RTx.place_key k f) ->
    gui_get key (fold_left (fun d place => RTx.offer_place p place d) places d)
    = gui_get key d.
Proof.
  induction places as [|k places IH]; intros d H; [reflexivity|].
  cbn [fold_left]. rewrite IH.
  - apply offer_place_other; apply (H k); left; reflexivity.
  - intros k' Hin. apply H. right. exact Hin.
Qed.

Lemma place_keys_apart (k k' : Z) (f : string) :
  1 <= k -> 1 <= k' -> k <> k' ->
  (RTx.spaces (Z.to_nat k) <> RTx.spaces (Z.to_nat k') /\
   forall f', RTx.spaces (Z.to_nat k) <> RTx.place_key k' f') /\
  (RTx.place_key k f <> RTx.spaces (Z.to_nat k') /\
   forall f', RTx.place_key k f <> RTx.place_key k' f').
Proof.
  intros Hk Hk' Hne. repeat split.
  - intros E. apply spaces_inj in E. lia.
  - intros f'. apply spaces_place_key.
  - intros E. apply (spaces_place_key _ _ _ (eq_sym E)).
  - intros f' E. apply place_key_inj in E as [E _]. auto.
Qed.

(** The fields of place [k] after the loop of [update_gui_parameters] has
    gone through [places], which holds [k] once. *)
Lemma offer_places_same (p : gmap string value) (k : Z) (places : list Z)
    (d : list (string * RTx.gui_field)) :
  In k places -> List.NoDup places -> (forall k', In k' places -> 1 <= k') ->
  let chosen :=
    negb (eq_str (get_default p (RTx.place_key k "channel") (VStr "None"))
            "None") in
  let d' := fold_left (fun d place => RTx.offer_place p place d) places d in
  gui_get (RTx.spaces (Z.to_nat k)) d' = Some RTx.GLine /\
  gui_get (RTx.place_key k "channel") d'
  = Some (RTx.GChoices ["None"; "CH1"; "CH2"; "CH3"; "CH4"]) /\
  gui_get (RTx.place_key k "mode") d'
  = (if chosen then Some (RTx.GChoices (map fst RTx.modes))
     else gui_get (RTx.place_key k "mode") d) /\
  gui_get (RTx.place_key k "statistics") d'
  = (if chosen then Some (RTx.GChoices RTx.statistic_modes)
     else gui_get (RTx.place_key k "statistics") d).
Proof.
  intros Hin Hnd Hpos chosen d'.
  apply in_split in Hin as (l1 & l2 & ->).
  apply List.NoDup_remove_2 in Hnd.
  assert (Hk : 1 <= k) by (apply Hpos, in_or_app; right; left; reflexivity).
  assert (Hother : forall l key,
             (key = RTx.spaces (Z.to_nat k) \/ exists f, key = RTx.place_key k f) ->
             (forall k', In k' l -> In k' (l1 ++ l2)) ->
             forall d0,
               gui_get key
                 (fold_left (fun d place => RTx.offer_place p place d) l d0)
               = gui_get key d0).
  { intros l key Hkey Hsub d0. apply offer_places_other.
    intros k' Hk'. specialize (Hsub k' Hk').
    assert (k <> k') by (intros ->; contradiction).
    assert (1 <= k').
    { apply Hpos. apply in_app_or in Hsub as [?|?]; apply in_or_app;
        [left|right; right]; assumption. }
    destruct Hkey as [->|[f ->]].
    - apply (place_keys_apart k k' ""); assumption.
    - apply (place_keys_apart k k' f); assumption. }
  subst d'. rewrite fold_left_app. cbn [fold_left].
  rewrite !(Hother l2) by
    (eauto; intros ? ?; apply in_or_app; right; assumption).
  destruct (offer_place_same p k
              (fold_left (fun d place => RTx.offer_place p place d) l1 d))
    as (O1 & O2 & O3 & O4).
  rewrite O1, O2, O3, O4. fold chosen.
  rewrite !(Hother l1) by
    (eauto; intros ? ?; apply in_or_app; left; assumption).
  repeat split; reflexivity.
Qed.

(** X6.  The panel [update_gui_parameters] offers: the two fields
    "Number of places" (1 ... the maximum) and "Waveform count" (1); for
    each place from 1 to the number of places, an empty line under a key
    of as many spaces and a channel field; a mode field and a statistics
    field for exactly those of these places whose current channel is not
    "None"; and no field of a place outside that range.  Every place that
    [apply_gui_parameters] binds for the same parameters has its mode
    field on the panel. *)
Theorem X6_rtx_panel_fields (p : gmap string value) (st : RTx.state) :
  let n := RTx.parse_parameter_int p "Number of places"
             (RTx.maximum_measurement_places st) in
  let d := RTx.update_gui_parameters p st in
  gui_get "Number of places" d
  = Some (RTx.GNumbers (range 1 (RTx.maximum_measurement_places st + 1))) /\
  gui_get "Waveform count" d = Some (RTx.GNumber 1) /\
  (forall k,
      1 <= k <= n ->
      let chosen :=
        negb (eq_str (get_default p (RTx.place_key k "channel") (VStr "None"))
                "None") in
      gui_get (RTx.spaces (Z.to_nat k)) d = Some RTx.GLine /\
      gui_get (RTx.place_key k "channel") d
      = Some (RTx.GChoices ["None"; "CH1"; "CH2"; "CH3"; "CH4"]) /\
      gui_get (RTx.place_key k "mode") d
      = (if chosen then Some (RTx.GChoices (map fst RTx.modes)) else None) /\
      gui_get (RTx.place_key k "statistics") d
      = (if chosen then Some (RTx.GChoices RTx.statistic_modes) else None)) /\
  (forall k f, ~ 1 <= k <= n -> gui_get (RTx.place_key k f) d = None) /\
  (forall st' k,
      RTx.use_preset st = false ->
      RTx.apply_gui_parameters p st = Ok st' ->
      In k (RTx.keys (RTx.measurement_places st')) ->
      gui_get (RTx.place_key k "mode") d
      = Some (RTx.GChoices (map fst RTx.modes))).
Proof.
  intros n d.
  assert (Hin : forall k, In k (range 1 (n + 1)) <-> 1 <= k <= n).
  { intros k. rewrite range_In. lia. }
  assert (Hplace : forall k,
      1 <= k <= n ->
      let chosen :=
        negb (eq_str (get_default p (RTx.place_key k "channel") (VStr "None"))
                "None") in
      gui_get (RTx.spaces (Z.to_nat k)) d = Some RTx.GLine /\
      gui_get (RTx.place_key k "channel") d
      = Some (RTx.GChoices ["None"; "CH1"; "CH2"; "CH3"; "CH4"]) /\
      gui_get (RTx.place_key k "mode") d
      = (if chosen then Some (RTx.GChoices (map fst RTx.modes)) else None) /\
      gui_get (RTx.place_key k "statistics") d
      = (if chosen then Some (RTx.GChoices RTx.statistic_modes) else None)).
  { intros k Hk chosen. subst d. unfold RTx.update_gui_parameters. fold n.
    match goal with
    | |- context [fold_left _ _ ?d0] =>
        destruct (offer_places_same p k (range 1 (n + 1)) d0)
          as (O1 & O2 & O3 & O4)
    end.
    - apply Hin, Hk.
    - apply range_from_NoDup.
    - intros k' Hk'. apply Hin in Hk'. lia.
    - rewrite O1, O2, O3, O4. fold chosen.
      repeat split; reflexivity. }
  split; [|split; [|split; [exact Hplace|split]]].
  - subst d. unfold RTx.update_gui_parameters. fold n.
    rewrite offer_places_other; [reflexivity|].
    intros k _. split.
    + destruct (Z.to_nat k); discriminate.
    + intros f. unfold RTx.place_key. discriminate.
  - subst d. unfold RTx.update_gui_parameters. fold n.
    rewrite offer_places_other; [reflexivity|].
    intros k _. split.
    + destruct (Z.to_nat k); discriminate.
    + intros f. unfold RTx.place_key. discriminate.
  - intros k f Hk. subst d. unfold RTx.update_gui_parameters. fold n.
    rewrite offer_places_other.
    + unfold RTx.place_key. reflexivity.
    + intros k' Hk'. apply Hin in Hk'. split.
      * intros E. apply (spaces_place_key _ _ _ (eq_sym E)).
      * intros f' E. apply place_key_inj in E as [-> _]. contradiction.
  - intros st' k Hpre Happly Hk.
    destruct (apply_gui_parameters_spec p st st' Happly Hpre) as (Hkeys & _).
    rewrite Hkeys in Hk. apply filter_In in Hk as [Hvis Hsel].
    unfold RTx.visited_places in Hvis. apply Hin in Hvis.
    destruct (Hplace k Hvis) as (_ & _ & Hm & _). rewrite Hm.
    unfold RTx.place_selected in Hsel.
    apply andb_true_iff in Hsel as [-> _]. reflexivity.
Qed.

(** ** Oscilloscope: what a binding declares *)

Lemma last_item_last {A} (l : list A) (x d : A) :
  last_item l = Ok x -> List.last l d = x.
Proof.
  unfold last_item. intros H.
  destruct (rev l) as [|y l'] eqn:E; [discriminate H|]. injection H as ->.
  apply (f_equal (@rev A)) in E. rewrite rev_involutive in E. subst l.
  cbn [rev]. apply last_last.
Qed.

Lemma item_head {A} (l : list A) (x d : A) :
  item l 0 = Ok x -> hd d l = x.
Proof.
  unfold item. destruct l; cbn; intros H; [discriminate H|].
  injection H as ->. reflexivity.
Qed.

Lemma bind_place_names (p : gmap string value) (place : Z)
    (b b' : RTx.binding) :
  RTx.bind_place p place b = Ok b' ->
  (forall k, In k (RTx.keys (RTx.b_places b)) -> k < place) ->
  let sel := if RTx.place_selected p place then [place] else [] in
  RTx.b_variables b' = RTx.b_variables b ++ map (declared_variable p) sel /\
  RTx.b_units b' = RTx.b_units b ++ map (declared_unit p) sel /\
  RTx.b_plottype b' = RTx.b_plottype b ++ map (fun _ => true) sel /\
  RTx.b_savetype b' = RTx.b_savetype b ++ map (fun _ => true) sel /\
  (Forall (bound_entry p) (RTx.b_places b) ->
   Forall (bound_entry p) (RTx.b_places b')).
Proof.
  intros H Hk. unfold RTx.bind_place in H.
  destruct (RTx.place_selected p place).
  2:{ injection H as <-. cbn. rewrite !app_nil_r. repeat split; auto. }
  cbv zeta. cbn [map]. unfold declared_variable, declared_unit.
  set (channel := get_default p (RTx.place_key place "channel") (VStr "None")) in *.
  set (mode := get_default p (RTx.place_key place "mode") (VStr "None")) in *.
  unfold RTx.last_char_of, RTx.table_get_value in H.
  destruct channel as [| | | |c] eqn:Ec; try discriminate H.
  unfold mbind, result_bind in H.
  destruct (last_char c) as [d|] eqn:Ed; [|discriminate H]. cbn [Py.bind] in H.
  destruct (int_of_str d) as [n|] eqn:En; [|discriminate H]. cbn [Py.bind] in H.
  destruct mode as [| | | |m] eqn:Em; try discriminate H.
  destruct (table_get RTx.modes m) as [code|] eqn:Ecode; [|discriminate H].
  cbn [Py.bind as_str] in H.
  destruct (item (split m " in ") 0) as [x|] eqn:Ex; [|discriminate H].
  cbn [Py.bind] in H.
  destruct (last_item (split m " in ")) as [u|] eqn:Eu; [|discriminate H].
  cbn [Py.bind] in H. injection H as <-. cbn [RTx.b_variables RTx.b_units
    RTx.b_plottype RTx.b_savetype RTx.b_places map label_of].
  rewrite (item_head _ x "" Ex), (last_item_last _ u "" Eu).
  repeat split; try reflexivity.
  intros HF. rewrite dict_set_fresh.
  - apply Forall_app. split; [exact HF|]. constructor; [|constructor].
    unfold bound_entry. exists c, m. fold channel mode.
    unfold mbind, result_bind. rewrite Ed. cbn [Py.bind]. rewrite En.
    subst channel mode. repeat split; auto.
  - intros k' Hin. specialize (Hk k' Hin). lia.
Qed.

Lemma bind_places_names (p : gmap string value) (n : nat) :
  forall (a : Z) (b b' : RTx.binding),
    RTx.bind_places p (range_from a n) b = Ok b' ->
    (forall k, In k (RTx.keys (RTx.b_places b)) -> k < a) ->
    let sel := List.filter (RTx.place_selected p) (range_from a n) in
    RTx.b_variables b' = RTx.b_variables b ++ map (declared_variable p) sel /\
    RTx.b_units b' = RTx.b_units b ++ map (declared_unit p) sel /\
    RTx.b_plottype b' = RTx.b_plottype b ++ map (fun _ => true) sel /\
    RTx.b_savetype b' = RTx.b_savetype b ++ map (fun _ => true) sel /\
    (Forall (bound_entry p) (RTx.b_places b) ->
     Forall (bound_entry p) (RTx.b_places b')).
Proof.
  induction n as [|n IH]; intros a b b' H Hk; cbn [range_from RTx.bind_places] in H.
  - injection H as <-. cbn. rewrite !app_nil_r. repeat split; auto.
  - apply bind_ok in H as (b1 & H1 & H2).
    pose proof (bind_place_spec p a b b1 H1 Hk) as (K1 & _).
    pose proof (bind_place_names p a b b1 H1 Hk) as (V1 & U1 & P1 & S1 & F1).
    apply IH in H2 as (V2 & U2 & P2 & S2 & F2).
    + cbn [range_from List.filter].
      destruct (RTx.place_selected p a); cbn [map app] in *.
      * rewrite V2, V1, U2, U1, P2, P1, S2, S1, <- !List.app_assoc.
        cbn [app]. repeat split; auto.
      * rewrite !app_nil_r in *.
        rewrite V2, V1, U2, U1, P2, P1, S2, S1. repeat split; auto.
    + intros k Hin. rewrite K1 in Hin. apply in_app_or in Hin as [Hin|Hin].
      * specialize (Hk k Hin). lia.
      * destruct (RTx.place_selected p a); cbn in Hin; [|contradiction].
        destruct Hin as [<-|[]]. lia.
Qed.

Lemma split_absent (sep : string) (s : string) :
  sep <> EmptyString -> contains s sep = false -> split s sep = [s].
Proof.
  intros Hsep H. unfold split.
  enough (split_go sep 0 s = (s, [])) as -> by reflexivity.
  induction s as [|c s IH]; [reflexivity|].
  cbn [contains] in H. cbn [split_go].
  destruct (String.prefix sep (String c s)) eqn:E; [discriminate H|].
  rewrite IH by exact H. reflexivity.
Qed.

Lemma apply_gui_parameters_names (p : gmap string value)
    (st st' : RTx.state) :
  RTx.use_preset st = false ->
  RTx.apply_gui_parameters p st = Ok st' ->
  let places := RTx.keys (RTx.measurement_places st') in
  RTx.variables st' = map (declared_variable p) places /\
  RTx.units st' = map (declared_unit p) places /\
  RTx.plottype st' = map (fun _ => true) places /\
  RTx.savetype st' = map (fun _ => true) places /\
  Forall (bound_entry p) (RTx.measurement_places st').
Proof.
  intros Hp H places. subst places.
  pose proof (apply_gui_parameters_spec p st st' H Hp) as (K & _).
  cbv zeta in K. rewrite K.
  unfold RTx.apply_gui_parameters in H. rewrite Hp in H.
  apply bind_ok in H as (b & Hb & H). injection H as <-.
  cbn [RTx.variables RTx.units RTx.plottype RTx.savetype
       RTx.measurement_places].
  apply bind_places_names in Hb; [|intros k []].
  cbn in Hb. destruct Hb as (V & U & P & S & F).
  unfold RTx.visited_places.
  split; [exact V|]. split; [exact U|]. split; [exact P|]. split; [exact S|].
  apply F. constructor.
Qed.

(** X7.  After [apply_gui_parameters] of the oscilloscope, presets off, the
    four declared arrays line up with the bound places, in the order of
    [measurement_places]: the i-th variable is the channel label of the
    i-th place, a space and its mode label up to " in "; the i-th unit is
    the mode label after " in ", hence the whole mode label when it has no
    " in " ("STDDev", the counts); the i-th plot and save flags are true;
    and the i-th item holds the last digit of the channel label, the code
    of the mode and the statistics chosen for that place. *)
Theorem X7_rtx_declarations_aligned
    (p : gmap string value) (st st' : RTx.state) :
  RTx.use_preset st = false ->
  RTx.apply_gui_parameters p st = Ok st' ->
  let places := RTx.keys (RTx.measurement_places st') in
  RTx.variables st' = map (declared_variable p) places /\
  RTx.units st' = map (declared_unit p) places /\
  RTx.plottype st' = map (fun _ => true) places /\
  RTx.savetype st' = map (fun _ => true) places /\
  Forall (bound_entry p) (RTx.measurement_places st') /\
  (forall k c m,
      get_default p (RTx.place_key k "channel") (VStr "None") = VStr c ->
      get_default p (RTx.place_key k "mode") (VStr "None") = VStr m ->
      contains m " in " = false ->
      declared_variable p k = c +:+ " " +:+ m /\ declared_unit p k = m).
Proof.
  intros Hp H places.
  pose proof (apply_gui_parameters_names p st st' Hp H) as (V & U & P & S & F).
  split; [exact V|]. split; [exact U|]. split; [exact P|]. split; [exact S|].
  split; [exact F|].
  intros k c m Hc Hm Hno. unfold declared_variable, declared_unit.
  rewrite Hc, Hm. cbn [label_of].
  rewrite split_absent by (try exact Hno; discriminate).
  split; reflexivity.
Qed.

Lemma X7_rtx_declarations_aligned_witness :
  RTx.keys (RTx.measurement_places rtx_bound) = [1; 3] /\
  RTx.variables rtx_bound = ["CH1 Frequency"; "CH4 Peak to peak"] /\
  RTx.units rtx_bound = ["Hz"; "V"] /\
  RTx.measurement_places rtx_bound
  = [(1, (1, "FREQ", VStr "None")); (3, (4, "PEAK", VStr "Average"))].
Proof.
  pose proof (X7_rtx_declarations_aligned rtx_parameters RTx.init rtx_bound
                eq_refl eq_refl) as H.
  cbv zeta in H. destruct H as (V & U & _).
  split; [reflexivity|]. split; [exact V|]. split; [exact U|reflexivity].
Defined.

(** X8.  [apply_gui_parameters] of the oscilloscope starts from nothing:
    what it returns depends on the earlier state only through the preset
    flag and the maximum number of places, so binding a panel after any
    other binding gives what binding it first gives, and binding the same
    panel twice changes nothing. *)
Theorem X8_rtx_apply_starts_afresh
    (p p' : gmap string value) (st st1 : RTx.state) :
  RTx.apply_gui_parameters p st = Ok st1 ->
  RTx.apply_gui_parameters p' st1 = RTx.apply_gui_parameters p' st /\
  RTx.apply_gui_parameters p st1 = Ok st1 /\
  RTx.use_preset st1 = RTx.use_preset st /\
  RTx.maximum_measurement_places st1 = RTx.maximum_measurement_places st.
Proof.
  intros H.
  assert (E : RTx.use_preset st1 = RTx.use_preset st /\
              RTx.maximum_measurement_places st1
              = RTx.maximum_measurement_places st).
  { unfold RTx.apply_gui_parameters in H.
    destruct (RTx.use_preset st).
    - injection H as <-. split; reflexivity.
    - apply bind_ok in H as (b & _ & H). injection H as <-. split; reflexivity. }
  destruct E as [E1 E2].
  assert (G : forall q, RTx.apply_gui_parameters q st1
                        = RTx.apply_gui_parameters q st).
  { intros q. unfold RTx.apply_gui_parameters, RTx.visited_places.
    rewrite E1, E2. reflexivity. }
  split; [apply G|]. split; [rewrite G; exact H|]. split; assumption.
Qed.

Lemma X8_rtx_apply_starts_afresh_witness :
  RTx.apply_gui_parameters rtx_parameters rtx_bound = Ok rtx_bound /\
  RTx.apply_gui_parameters ∅ rtx_bound = RTx.apply_gui_parameters ∅ RTx.init.
Proof.
  pose proof (X8_rtx_apply_starts_afresh rtx_parameters ∅ RTx.init rtx_bound
                eq_refl) as (H1 & H2 & _).
  split; [exact H2|exact H1].
Defined.

(** ** Oscilloscope: the commands of [configure] *)

Lemma one_char_int (a : ascii) (n : Z) :
  int_of_str (String a EmptyString) = Ok n ->
  is_digit a = true /\ str_of_int n = String a EmptyString.
Proof.
  destruct a as [[] [] [] [] [] [] [] []]; vm_compute; intros H;
    try discriminate H; injection H as <-; split; reflexivity.
Qed.

Lemma configure_places_run (mp : list (Z * RTx.place_config)) :
  forall w : world,
    let r := RTx.configure_places mp w in
    fst r = Ok tt /\
    inbox (snd r) = inbox w /\
    reads (log (snd r)) = reads (log w) /\
    sleeps (log (snd r)) = sleeps (log w) /\
    writes (log (snd r))
    = writes (log w)
        ++ concat
             (map (fun e : Z * RTx.place_config =>
                     let '(place, (channel, mode, _)) := e in
                     [ RTx.meas place (":SOUR CH" +:+ str_of_int channel);
                       RTx.meas place (":MAIN " +:+ mode);
                       RTx.meas place ":ENAB ON" ]) mp).
Proof.
  induction mp as [|[place [[channel mode] stat]] mp IH]; intros w.
  - cbn. rewrite app_nil_r. repeat split; reflexivity.
  - cbn [RTx.configure_places].
    unfold RTx.set_source, RTx.set_measurement_mode.
    unfold mbind, io_mbind, io_bind, port_write.
    match goal with
    | |- context [RTx.configure_places mp ?w1] =>
        pose proof (IH w1) as H
    end.
    cbv zeta in *. destruct H as (H1 & H2 & H3 & H4 & H5).
    cbn [fst snd emit set_inbox inbox clock stop_signal stop_polls log]
      in H2, H3, H4, H5.
    rewrite H1, H2, H3, H4, H5.
    rewrite !reads_app, !sleeps_app, !writes_app. cbn.
    rewrite ?app_nil_r, <- ?List.app_assoc. repeat split; reflexivity.
Qed.

(** X9.  [configure] of the oscilloscope after a binding with presets off:
    it never raises, reads nothing and does not sleep; for each bound
    place, in order, it sends the source "MEAS<k>:SOUR CH<d>" where [d] is
    the last character of the channel label chosen for the place, a digit,
    then the mode "MEAS<k>:MAIN <code>" and "MEAS<k>:ENAB ON"; and it ends
    with "MEAS1:STAT:ENAB ON" exactly when the waveform count is above 1. *)
Theorem X9_rtx_configure_commands
    (p : gmap string value) (st st' : RTx.state) (w : world) :
  RTx.use_preset st = false ->
  RTx.apply_gui_parameters p st = Ok st' ->
  let r := RTx.configure st' w in
  fst r = Ok tt /\
  inbox (snd r) = inbox w /\
  reads (log (snd r)) = reads (log w) /\
  sleeps (log (snd r)) = sleeps (log w) /\
  exists blocks : list (list string),
    Forall2
      (fun (e : Z * RTx.place_config) (cmds : list string) =>
         exists label d,
           get_default p (RTx.place_key (fst e) "channel") (VStr "None")
           = VStr (label +:+ String d EmptyString) /\
           is_digit d = true /\
           cmds = [ RTx.meas (fst e) (":SOUR CH" +:+ String d EmptyString);
                    RTx.meas (fst e) (":MAIN " +:+ snd (fst (snd e)));
                    RTx.meas (fst e) ":ENAB ON" ])
      (RTx.measurement_places st') blocks /\
    writes (log (snd r))
    = writes (log w) ++ concat blocks
        ++ (if 1 <? RTx.waveform_count st' then ["MEAS1:STAT:ENAB ON"]
            else []).
Proof.
  intros Hp H r.
  pose proof (apply_gui_parameters_names p st st' Hp H) as (_ & _ & _ & _ & HF).
  assert (Hp' : RTx.use_preset st' = false).
  { apply (apply_gui_parameters_spec p st st' H Hp). }
  subst r. unfold RTx.configure. rewrite Hp'. cbn [negb orb].
  rewrite orb_false_r.
  unfold mbind, io_mbind, io_bind.
  pose proof (configure_places_run (RTx.measurement_places st') w) as C.
  cbv zeta in C. destruct C as (C1 & C2 & C3 & C4 & C5).
  destruct (RTx.configure_places (RTx.measurement_places st') w)
    as [[[]|e] w1] eqn:E; cbn [fst snd] in *; [|discriminate C1].
  assert (G : fst ((if 1 <? RTx.waveform_count st'
                    then port_write "MEAS1:STAT:ENAB ON" else mret tt) w1)
              = Ok tt /\
              inbox (snd ((if 1 <? RTx.waveform_count st'
                    then port_write "MEAS1:STAT:ENAB ON" else mret tt) w1))
              = inbox w1 /\
              reads (log (snd ((if 1 <? RTx.waveform_count st'
                    then port_write "MEAS1:STAT:ENAB ON" else mret tt) w1)))
              = reads (log w1) /\
              sleeps (log (snd ((if 1 <? RTx.waveform_count st'
                    then port_write "MEAS1:STAT:ENAB ON" else mret tt) w1)))
              = sleeps (log w1) /\
              writes (log (snd ((if 1 <? RTx.waveform_count st'
                    then port_write "MEAS1:STAT:ENAB ON" else mret tt) w1)))
              = writes (log w1)
                  ++ (if 1 <? RTx.waveform_count st'
                      then ["MEAS1:STAT:ENAB ON"] else [])).
  { destruct (1 <? RTx.waveform_count st'); cbn;
      rewrite ?reads_app, ?sleeps_app, ?writes_app; cbn;
      rewrite ?app_nil_r; repeat split; reflexivity. }
  destruct G as (G1 & G2 & G3 & G4 & G5).
  rewrite G1, G2, G3, G4, G5, C2, C3, C4, C5.
  repeat split; try reflexivity.
  eexists. split; [|rewrite <- List.app_assoc; reflexivity].
  clear - HF. induction HF as [|[k [[n code] stat]] mp Hk HF IH];
    cbn [map]; constructor; [|exact IH].
  destruct Hk as (c & m & Hc & Hm & Hn & Hcode & Hstat).
  apply bind_ok in Hn as (d & Hd & Hn).
  destruct (last_char_int c d n Hd Hn) as (pre & a & -> & ->).
  apply one_char_int in Hn as [Ha Hs].
  exists pre, a. cbn [fst snd]. rewrite Hc, Hs. repeat split; auto.
Qed.

Lemma X9_rtx_configure_commands_witness :
  fst (RTx.configure rtx_bound (world_at 0)) = Ok tt /\
  writes (log (snd (RTx.configure rtx_bound (world_at 0))))
  = [ "MEAS1:SOUR CH1"; "MEAS1:MAIN FREQ"; "MEAS1:ENAB ON";
      "MEAS3:SOUR CH4"; "MEAS3:MAIN PEAK"; "MEAS3:ENAB ON";
      "MEAS1:STAT:ENAB ON" ].
Proof.
  pose proof (X9_rtx_configure_commands rtx_parameters RTx.init rtx_bound
                (world_at 0) eq_refl eq_refl) as H.
  cbv zeta in H. destruct H as (H1 & _).
  split; [exact H1|reflexivity].
Defined.

(** ** Multimeter: the commands of [configure] *)

Lemma port_write_run (cmd : string) (w : world) :
  port_write cmd w = (Ok tt, emit (EWrite cmd) w).
Proof. reflexivity. Qed.

(** Effects of a computation that only writes. *)
Ltac write_only :=
  unfold mbind, io_mbind, io_bind, mret, io_mret, io_ret, lift, port_write;
  simpl_world;
  rewrite ?reads_app, ?sleeps_app, ?writes_app; cbn [reads sleeps writes];
  rewrite ?app_nil_r, <- ?List.app_assoc.

Lemma keithley_configure_run (repr : float -> string) (st : Keithley.state)
    (w : world) (m code trig : string) :
  Keithley.mode st = VStr m ->
  table_get Keithley.modes m = Ok code ->
  Keithley.table_get_value Keithley.trigger_types (Keithley.trigger_type st)
  = Ok trig ->
  (truthy (Keithley.scanning st) = true ->
   exists cs, Keithley.channel_string st = VStr cs) ->
  let r := Keithley.configure repr st w in
  let clist := Keithley.clist repr st in
  fst r = Ok tt /\
  inbox (snd r) = inbox w /\
  reads (log (snd r)) = reads (log w) /\
  sleeps (log (snd r)) = sleeps (log w) /\
  writes (log (snd r))
  = writes (log w)
      ++ ["sense:function '" +:+ code +:+ "', " +:+ clist]
      ++ (if contains m "Temperature" || contains m "Continuity"
          then ["CONF:" +:+ code +:+ " " +:+ clist]
          else [ (if eq_str (Keithley.range_ st) "Auto"
                  then code +:+ ":range:auto on, " +:+ clist
                  else code +:+ ":range "
                         +:+ Keithley.str_of_value repr (Keithley.range_ st)
                         +:+ ", " +:+ clist);
                 code +:+ ":dig "
                   +:+ Keithley.str_of_value repr (Keithley.digits st)
                   +:+ ", " +:+ clist ])
      ++ [ "INIT:CONT OFF"; "TRIG:SOUR " +:+ trig; "trigger:count 1";
           "TRIG:DEL 0.5";
           ":SENS:" +:+ code +:+ ":NPLC "
             +:+ repr (Keithley.nplc_of (Keithley.integration_speed st));
           "sample:count "
             +:+ str_of_int
                   (if truthy (Keithley.scanning st)
                    then Z.of_nat (length (Keithley.channel_list st))
                    else 1) ]
      ++ (if truthy (Keithley.scanning st)
          then [ "route:scan " +:+ clist; "ROUT:SCAN:TSO IMM";
                 "ROUT:SCAN:LSEL INT" ]
          else []).
Proof.
  intros Hm Hcode Htrig Hcs r clist. subst r clist.
  unfold Keithley.configure.
  rewrite Hm. cbn [Keithley.table_get_value Keithley.operand_str].
  rewrite Hcode, Htrig.
  destruct (truthy (Keithley.scanning st)) eqn:Hscan.
  - destruct (Hcs eq_refl) as [cs Ecs]. unfold Keithley.clist. rewrite Ecs.
    cbn [Keithley.operand_str Keithley.str_of_value].
    unfold mbind, io_mbind, io_bind, mret, io_mret, io_ret, lift, port_write.
    destruct (contains m "Temperature" || contains m "Continuity");
      [|destruct (eq_str (Keithley.range_ st) "Auto")];
      write_only; repeat split; reflexivity.
  - unfold mbind, io_mbind, io_bind, mret, io_mret, io_ret, lift, port_write.
    destruct (contains m "Temperature" || contains m "Continuity");
      [|destruct (eq_str (Keithley.range_ st) "Auto")];
      write_only; repeat split; reflexivity.
Qed.

(** What a successful binding of the multimeter leaves in the state. *)
Lemma keithley_bound_inv (repr : float -> string) (p : gmap string value)
    (st st' : Keithley.state) :
  Keithley.get_GUIparameter repr p st = Ok st' ->
  exists (cs : string) (tunit : value),
    getitem p "Mode" = Ok (Keithley.mode st') /\
    getitem p "Digits" = Ok (Keithley.digits st') /\
    getitem p "Channel list" = Ok (VStr cs) /\
    Keithley.channel_string st' = VStr cs /\
    Keithley.expand_channels cs = Ok (Keithley.channel_list st') /\
    Keithley.channel_names st'
    = map (fun x => "Dev" +:+ slice_from 1 x) (Keithley.channel_list st') /\
    getitem p "Trigger" = Ok (Keithley.trigger_type st') /\
    getitem p "Scanning" = Ok (Keithley.scanning st') /\
    getitem p "Range" = Ok (Keithley.range_ st') /\
    getitem p "Integration speed" = Ok (Keithley.integration_speed st') /\
    getitem p "Temperature unit" = Ok tunit /\
    Keithley.temperature_unit st' = Keithley.str_of_value repr tunit /\
    getitem p "Port" = Ok (Keithley.port_string st') /\
    (if truthy (Keithley.scanning st')
     then exists m unit,
         Keithley.mode st' = VStr m /\
         (if contains m "Temperature" then Ok (Keithley.temperature_unit st')
          else table_get Keithley.mode_units m) = Ok unit /\
         Keithley.variables st'
         = map (fun n => m +:+ " " +:+ n) (Keithley.channel_names st') /\
         Keithley.units st'
         = repeat unit (length (Keithley.channel_list st')) /\
         Keithley.plottype st'
         = repeat true (length (Keithley.channel_list st')) /\
         Keithley.savetype st'
         = repeat true (length (Keithley.channel_list st'))
     else exists m var unit,
         Keithley.mode st' = VStr m /\
         table_get Keithley.mode_variables m = Ok var /\
         table_get Keithley.mode_units m = Ok unit /\
         Keithley.variables st' = [var] /\ Keithley.units st' = [unit] /\
         Keithley.plottype st' = [true] /\ Keithley.savetype st' = [true]).
Proof.
  intros H. unfold Keithley.get_GUIparameter in H.
  apply bind_ok in H as (p_mode & Hmode & H).
  apply bind_ok in H as (p_digits & Hdigits & H).
  apply bind_ok in H as (p_channels & Hp & H).
  apply bind_ok in H as (cs & Hcs & H).
  apply bind_ok in H as (chans & Hch & H). cbv zeta in H.
  apply bind_ok in H as (p_trigger & Htrig & H).
  apply bind_ok in H as (p_scanning & Hscan & H).
  apply bind_ok in H as (p_range & Hrange & H).
  apply bind_ok in H as (p_speed & Hspeed & H).
  apply bind_ok in H as (p_tunit & Htunit & H). cbv zeta in H.
  apply bind_ok in H as (p_port & Hport & H).
  destruct p_channels as [| | | |s]; try discriminate Hcs.
  injection Hcs as ->.
  exists cs, p_tunit.
  destruct (truthy p_scanning) eqn:Hs.
  - apply bind_ok in H as (vars & Hvars & H).
    apply bind_ok in H as (m & Hm & H).
    apply bind_ok in H as (unit & Hunit & H).
    injection H as <-. cbn. rewrite Hs.
    destruct p_mode as [| | | |m']; try discriminate Hm. injection Hm as ->.
    repeat (split; [assumption || reflexivity|]).
    exists m, unit. split; [reflexivity|]. split.
    { destruct (contains m "Temperature"); exact Hunit. }
    split; [|repeat split; reflexivity].
    destruct (map _ chans) as [|n names] eqn:En.
    + injection Hvars as <-. reflexivity.
    + cbn [Keithley.operand_str] in Hvars. cbn in Hvars.
      injection Hvars as <-. reflexivity.
  - apply bind_ok in H as (var & Hvar & H).
    apply bind_ok in H as (unit & Hunit & H).
    injection H as <-. cbn. rewrite Hs.
    destruct p_mode as [| | | |m]; try discriminate Hvar.
    repeat (split; [assumption || reflexivity|]).
    exists m, var, unit. repeat split; assumption || reflexivity.
Qed.

(** X10.  [configure] of the multimeter after a binding, for a mode and a
    trigger of the tables: it returns, reads nothing and does not sleep,
    and sends, in this order, the sense function; "CONF:" for the
    temperature and continuity modes, the range and the digits for the
    others; "INIT:CONT OFF", the trigger source, "trigger:count 1",
    "TRIG:DEL 0.5", the integration time; a sample count that is the number
    of declared variables; and, when scanning, the three scan commands. *)
Theorem X10_keithley_configure_commands
    (repr : float -> string) (p : gmap string value)
    (st0 st : Keithley.state) (w : world) (m code trig : string) :
  Keithley.get_GUIparameter repr p st0 = Ok st ->
  Keithley.mode st = VStr m ->
  table_get Keithley.modes m = Ok code ->
  Keithley.table_get_value Keithley.trigger_types (Keithley.trigger_type st)
  = Ok trig ->
  let r := Keithley.configure repr st w in
  let clist := Keithley.clist repr st in
  fst r = Ok tt /\
  inbox (snd r) = inbox w /\
  reads (log (snd r)) = reads (log w) /\
  sleeps (log (snd r)) = sleeps (log w) /\
  writes (log (snd r))
  = writes (log w)
      ++ ["sense:function '" +:+ code +:+ "', " +:+ clist]
      ++ (if contains m "Temperature" || contains m "Continuity"
          then ["CONF:" +:+ code +:+ " " +:+ clist]
          else [ (if eq_str (Keithley.range_ st) "Auto"
                  then code +:+ ":range:auto on, " +:+ clist
                  else code +:+ ":range "
                         +:+ Keithley.str_of_value repr (Keithley.range_ st)
                         +:+ ", " +:+ clist);
                 code +:+ ":dig "
                   +:+ Keithley.str_of_value repr (Keithley.digits st)
                   +:+ ", " +:+ clist ])
      ++ [ "INIT:CONT OFF"; "TRIG:SOUR " +:+ trig; "trigger:count 1";
           "TRIG:DEL 0.5";
           ":SENS:" +:+ code +:+ ":NPLC "
             +:+ repr (Keithley.nplc_of (Keithley.integration_speed st));
           "sample:count "
             +:+ str_of_int (Z.of_nat (length (Keithley.variables st))) ]
      ++ (if truthy (Keithley.scanning st)
          then [ "route:scan " +:+ clist; "ROUT:SCAN:TSO IMM";
                 "ROUT:SCAN:LSEL INT" ]
          else []) /\
  (exists cs, p !! "Channel list" = Some (VStr cs) /\
              clist = "(@" +:+ cs +:+ ")").
Proof.
  intros H Hm Hcode Htrig r clist.
  pose proof (keithley_declared repr p st0 st H) as Hlen.
  destruct (keithley_bound_inv repr p st0 st H)
    as (cs & tunit & _ & _ & Hp & Hcs & _).
  pose proof (keithley_configure_run repr st w m code trig Hm Hcode Htrig
                (fun _ => ex_intro _ cs Hcs)) as R.
  cbv zeta in R. destruct R as (R1 & R2 & R3 & R4 & R5).
  subst r clist. split; [exact R1|]. split; [exact R2|].
  split; [exact R3|]. split; [exact R4|]. split.
  - rewrite R5, Hlen.
    destruct (truthy (Keithley.scanning st)); reflexivity.
  - exists cs. split.
    + unfold getitem in Hp. destruct (p !! "Channel list"); [|discriminate Hp].
      injection Hp as ->. reflexivity.
    + unfold Keithley.clist. rewrite Hcs. reflexivity.
Qed.

Lemma X10_keithley_configure_commands_witness :
  let r := Keithley.configure repr_nplc (keithley_bound true "101:103")
             (world_at 0) in
  fst r = Ok tt /\
  writes (log (snd r))
  = [ "sense:function 'VOLT:DC', (@101:103)";
      "VOLT:DC:range:auto on, (@101:103)";
      "VOLT:DC:dig 5, (@101:103)";
      "INIT:CONT OFF"; "TRIG:SOUR IMM"; "trigger:count 1"; "TRIG:DEL 0.5";
      ":SENS:VOLT:DC:NPLC 0.1"; "sample:count 3";
      "route:scan (@101:103)"; "ROUT:SCAN:TSO IMM"; "ROUT:SCAN:LSEL INT" ].
Proof.
  pose proof (X10_keithley_configure_commands repr_nplc
                (keithley_parameters true "101:103") keithley_blank
                (keithley_bound true "101:103") (world_at 0)
                "Voltage DC" "VOLT:DC" "IMM"
                eq_refl eq_refl eq_refl eq_refl) as H.
  cbv zeta in H. destruct H as (H1 & _).
  split; [exact H1|reflexivity].
Defined.

(** X11.  [configure] of the multimeter on a label that a table lacks: a
    mode that is not a key of [modes] raises KeyError before anything is
    sent; a trigger that is not a key of [trigger_types] raises KeyError
    after the sense function, the range and digits (or "CONF:") and
    "INIT:CONT OFF" have been sent, and nothing is sent after them. *)
Theorem X11_keithley_configure_unknown_label
    (repr : float -> string) (st : Keithley.state) (w : world) :
  (Keithley.table_get_value Keithley.modes (Keithley.mode st) = Raise KeyError ->
   Keithley.configure repr st w = (Raise KeyError, w)) /\
  (forall m code,
      Keithley.mode st = VStr m ->
      table_get Keithley.modes m = Ok code ->
      Keithley.table_get_value Keithley.trigger_types
        (Keithley.trigger_type st) = Raise KeyError ->
      let r := Keithley.configure repr st w in
      let clist := Keithley.clist repr st in
      fst r = Raise KeyError /\
      writes (log (snd r))
      = writes (log w)
          ++ ["sense:function '" +:+ code +:+ "', " +:+ clist]
          ++ (if contains m "Temperature" || contains m "Continuity"
              then ["CONF:" +:+ code +:+ " " +:+ clist]
              else [ (if eq_str (Keithley.range_ st) "Auto"
                      then code +:+ ":range:auto on, " +:+ clist
                      else code +:+ ":range "
                             +:+ Keithley.str_of_value repr (Keithley.range_ st)
                             +:+ ", " +:+ clist);
                     code +:+ ":dig "
                       +:+ Keithley.str_of_value repr (Keithley.digits st)
                       +:+ ", " +:+ clist ])
          ++ ["INIT:CONT OFF"]).
Proof.
  split.
  - intros H. unfold Keithley.configure. rewrite H. reflexivity.
  - intros m code Hm Hcode Htrig r clist. subst r clist.
    unfold Keithley.configure.
    rewrite Hm. cbn [Keithley.table_get_value Keithley.operand_str].
    rewrite Hcode, Htrig.
    unfold mbind, io_mbind, io_bind, mret, io_mret, io_ret, lift, port_write.
    destruct (contains m "Temperature" || contains m "Continuity");
      [|destruct (eq_str (Keithley.range_ st) "Auto")];
      write_only; repeat split; reflexivity.
Qed.

(** ** Multimeter: what a binding declares *)

(** X12.  After a binding of the multimeter the four declared arrays have
    the same length.  When scanning, the i-th variable is the mode, a
    space, "Dev" and the i-th channel id without its first character (a
    character, not a byte: of the id "µ1" the name keeps "1"), and every
    unit is the same: the temperature unit for a mode that contains
    "Temperature", the unit of the mode otherwise.  Hence two channels
    whose ids differ in the first character only are declared under the
    same name.  When not scanning there is one variable and one unit, those
    of the mode. *)
Theorem X12_keithley_declarations
    (repr : float -> string) (p : gmap string value)
    (st0 st : Keithley.state) :
  Keithley.get_GUIparameter repr p st0 = Ok st ->
  length (Keithley.units st) = length (Keithley.variables st) /\
  length (Keithley.plottype st) = length (Keithley.variables st) /\
  length (Keithley.savetype st) = length (Keithley.variables st) /\
  (truthy (Keithley.scanning st) = true ->
   exists m unit,
     Keithley.mode st = VStr m /\
     Keithley.variables st
     = map (fun x => m +:+ " Dev" +:+ slice_from 1 x)
         (Keithley.channel_list st) /\
     Keithley.units st = repeat unit (length (Keithley.channel_list st)) /\
     (if contains m "Temperature" then Ok (Keithley.temperature_unit st)
      else table_get Keithley.mode_units m) = Ok unit /\
     forall i j x y,
       nth_error (Keithley.channel_list st) i = Some x ->
       nth_error (Keithley.channel_list st) j = Some y ->
       slice_from 1 x = slice_from 1 y ->
       nth_error (Keithley.variables st) i
       = nth_error (Keithley.variables st) j) /\
  (truthy (Keithley.scanning st) = false ->
   exists m var unit,
     Keithley.mode st = VStr m /\
     table_get Keithley.mode_variables m = Ok var /\
     table_get Keithley.mode_units m = Ok unit /\
     Keithley.variables st = [var] /\ Keithley.units st = [unit]).
Proof.
  intros H.
  destruct (keithley_bound_inv repr p st0 st H)
    as (cs & tunit & _ & _ & _ & _ & _ & Hnames & _ & _ & _ & _ & _ & _ & _ & Hd).
  destruct (truthy (Keithley.scanning st)).
  - destruct Hd as (m & unit & Hm & Hunit & Hv & Hu & Hp & Hs).
    rewrite Hnames, map_map in Hv.
    rewrite Hv, Hu, Hp, Hs, !repeat_length, length_map.
    repeat split; try reflexivity; try discriminate.
    intros _. exists m, unit.
    repeat split; try assumption; try reflexivity.
    intros i j x y Hi Hj E.
    rewrite !nth_error_map, Hi, Hj. cbn [option_map]. rewrite E. reflexivity.
  - destruct Hd as (m & var & unit & Hm & Hvar & Hunit & Hv & Hu & Hp & Hs).
    rewrite Hv, Hu, Hp, Hs.
    repeat split; try reflexivity; try discriminate.
    intros _. exists m, var, unit. repeat split; assumption.
Qed.

Lemma X12_keithley_declarations_witness :
  Keithley.channel_list (keithley_bound true "101,201") = ["101"; "201"] /\
  Keithley.variables (keithley_bound true "101,201")
  = ["Voltage DC Dev01"; "Voltage DC Dev01"] /\
  length (Keithley.units (keithley_bound true "101,201")) = 2%nat /\
  Keithley.channel_list (keithley_bound true "µ1,201") = ["µ1"; "201"] /\
  Keithley.variables (keithley_bound true "µ1,201")
  = ["Voltage DC Dev1"; "Voltage DC Dev01"].
Proof.
  pose proof (X12_keithley_declarations repr_unused
                (keithley_parameters true "101,201") keithley_blank
                (keithley_bound true "101,201") eq_refl) as (H1 & _).
  pose proof (X12_keithley_declarations repr_unused
                (keithley_parameters true "µ1,201") keithley_blank
                (keithley_bound true "µ1,201") eq_refl)
    as (_ & _ & _ & H2 & _).
  destruct (H2 eq_refl) as (m & unit & Hm & Hv & _).
  split; [reflexivity|]. split; [reflexivity|]. split; [exact H1|].
  split; [reflexivity|].
  rewrite Hv. injection Hm as <-. reflexivity.
Defined.

(** ** Multimeter: channel texts that the binder refuses *)

Lemma int_of_str_raises (s : string) (e : exc) :
  int_of_str s = Raise e -> e = ValueError.
Proof.
  unfold int_of_str. destruct (read_sign (strip_ws s)) as [neg body].
  destruct (digitpart body) as [[[v n] [|c r]]|]; intros H;
    try discriminate H; injection H as <-; reflexivity.
Qed.

Lemma mem_char_app (c : ascii) (a b : string) :
  mem_char c (a +:+ b) = mem_char c a || mem_char c b.
Proof.
  induction a as [|d a IH]; [reflexivity|].
  change (String d a +:+ b) with (String d (a +:+ b)). cbn [mem_char].
  destruct (Ascii.eqb c d); [reflexivity|exact IH].
Qed.

Lemma mem_char_split (c : ascii) (s : string) :
  mem_char c s = true ->
  exists a b, s = a +:+ String c b /\ mem_char c a = false.
Proof.
  induction s as [|d s IH]; cbn [mem_char]; [discriminate|].
  destruct (Ascii.eqb c d) eqn:E; intros H.
  - apply Ascii.eqb_eq in E. subst d. exists EmptyString, s. auto.
  - destruct (IH H) as (a & b & -> & Ha). exists (String d a), b.
    cbn [mem_char]. rewrite E. auto.
Qed.

Lemma split_first (d : ascii) (a b : string) :
  mem_char d a = false ->
  split (a +:+ String d b) (String d EmptyString)
  = a :: split b (String d EmptyString).
Proof.
  intros Ha. unfold split. rewrite split_go_app by exact Ha.
  destruct (split_go (String d EmptyString) 0 b). reflexivity.
Qed.

(** X13.  Channel texts that the multimeter binder refuses with
    ValueError.  A group with two or more ":" is refused, whatever its
    pieces are (the two names [first, last] cannot take three pieces).  A
    group "a:b" written in ASCII is refused when a side is not an integer
    for [int].  A channel text is refused when one of its groups is refused
    in one of these two ways and no group before it holds a ":"; the whole
    binding then raises ValueError once "Mode" and "Digits" are present. *)
Theorem X13_keithley_refused_channels :
  (forall a rest,
      mem_char ":" a = false -> mem_char ":" rest = true ->
      Keithley.expand_group (a +:+ ":" +:+ rest) = Raise ValueError) /\
  (forall sa sb,
      mem_char ":" sa = false -> mem_char ":" sb = false ->
      is_ascii sa = true -> is_ascii sb = true ->
      (forall a b, int_of_str sa = Ok a -> int_of_str sb = Ok b -> False) ->
      Keithley.expand_group (sa +:+ ":" +:+ sb) = Raise ValueError) /\
  (forall cs before g after,
      split (replace cs "," ";") ";" = before ++ g :: after ->
      Forall (fun x => contains x ":" = false) before ->
      refused_group g ->
      Keithley.expand_channels cs = Raise ValueError /\
      forall (repr : float -> string) (p : gmap string value)
             (st : Keithley.state) (v_mode v_digits : value),
        p !! "Mode" = Some v_mode -> p !! "Digits" = Some v_digits ->
        p !! "Channel list" = Some (VStr cs) ->
        Keithley.get_GUIparameter repr p st = Raise ValueError) /\
  Keithley.expand_channels "101,1:2:3" = Raise ValueError /\
  Keithley.expand_channels "101;1:x" = Raise ValueError /\
  Keithley.expand_channels "101;:5" = Raise ValueError.
Proof.
  assert (C1 : forall a rest,
             mem_char ":" a = false -> mem_char ":" rest = true ->
             Keithley.expand_group (a +:+ ":" +:+ rest) = Raise ValueError).
  { intros a rest Ha Hrest.
    change (a +:+ ":" +:+ rest) with (a +:+ String ":" rest).
    unfold Keithley.expand_group.
    rewrite contains_one, mem_char_app. cbn [mem_char].
    rewrite Ascii.eqb_refl, orb_true_r.
    unfold Keithley.expand_range.
    rewrite split_first by exact Ha.
    apply mem_char_split in Hrest as (a' & b' & -> & Ha').
    rewrite split_first by exact Ha'.
    destruct (split_nonempty b' ":") as (t & ts & ->). reflexivity. }
  assert (C2 : forall sa sb,
             mem_char ":" sa = false -> mem_char ":" sb = false ->
             (forall a b, int_of_str sa = Ok a -> int_of_str sb = Ok b -> False) ->
             Keithley.expand_group (sa +:+ ":" +:+ sb) = Raise ValueError).
  { intros sa sb Ha Hb Hbad.
    change (sa +:+ ":" +:+ sb) with (sa +:+ String ":" sb).
    unfold Keithley.expand_group.
    rewrite contains_one, mem_char_app. cbn [mem_char].
    rewrite Ascii.eqb_refl, orb_true_r.
    unfold Keithley.expand_range.
    rewrite split_two by assumption.
    unfold mbind, result_bind.
    destruct (int_of_str sa) as [a|e] eqn:E1; cbn [Py.bind].
    - destruct (int_of_str sb) as [b|e] eqn:E2; cbn [Py.bind].
      + destruct (Hbad a b eq_refl eq_refl).
      + apply int_of_str_raises in E2. subst e. reflexivity.
    - apply int_of_str_raises in E1. subst e. reflexivity. }
  split; [exact C1|]. split; [intros sa sb Ha Hb _ _; apply C2; assumption|].
  split; [|repeat split; vm_compute; reflexivity].
  intros cs before g after Hsplit Hbefore Hg.
  assert (Hrg : Keithley.expand_group g = Raise ValueError).
  { destruct Hg as [(a & rest & -> & Ha & Hr)
                   |(sa & sb & -> & Ha & Hb & _ & _ & Hbad)].
    - apply C1; assumption.
    - apply C2; assumption. }
  assert (Hcs : Keithley.expand_channels cs = Raise ValueError).
  { unfold Keithley.expand_channels. rewrite Hsplit.
    generalize (@nil string). clear Hsplit.
    induction Hbefore as [|x before Hx Hbefore IH]; intros acc.
    - cbn [app Keithley.expand_groups]. unfold mbind, result_bind.
      rewrite Hrg. reflexivity.
    - cbn [app Keithley.expand_groups]. unfold mbind, result_bind.
      rewrite (expand_group_plain x Hx). cbn [Py.bind]. apply IH. }
  split; [exact Hcs|].
  intros repr p st v_mode v_digits Hm Hd Hc.
  unfold Keithley.get_GUIparameter, getitem.
  rewrite Hm, Hd, Hc. cbn. rewrite Hcs. reflexivity.
Qed.

(** ** Multimeter: what [call] does and returns *)

Lemma float_of_str_raises (s : string) (e : exc) :
  float_of_str s = Raise e -> e = ValueError.
Proof.
  unfold float_of_str. destruct (read_sign (strip_ws s)) as [neg body].
  destruct (_ || _); [discriminate|].
  destruct (String.eqb _ _); [discriminate|].
  destruct (read_number body) as [[[m nf] rest]|]; intros H.
  - destruct (read_exponent rest) as [[x [|c r]]|];
      try discriminate H; injection H as <-; reflexivity.
  - injection H as <-. reflexivity.
Qed.

Lemma floats_of_raises (l : list string) (e : exc) :
  Keithley.floats_of l = Raise e -> e = ValueError.
Proof.
  induction l as [|x l IH]; cbn [Keithley.floats_of]; [discriminate|].
  unfold mbind, result_bind.
  destruct (float_of_str x) eqn:E; cbn [Py.bind].
  - destruct (Keithley.floats_of l); cbn [Py.bind]; [discriminate|].
    intros H. injection H as <-. apply IH. reflexivity.
  - intros H. injection H as <-. apply (float_of_str_raises _ _ E).
Qed.

(** X14.  [call] of the multimeter sends "form:elem READ\n;FETCh?" and
    reads one answer.  When it returns, the list is not empty (one value
    when not scanning, one per comma-separated piece when scanning),
    whatever the channel list; when it raises, it is TimeoutError with
    nothing to read, or ValueError with an answer of which a piece is not
    a float literal, as the empty answer. *)
Theorem X14_keithley_call_effects (st : Keithley.state) (w : world) :
  (forall out w',
      Keithley.call st w = (Ok out, w') ->
      out <> [] /\
      exists answer,
        inbox w = answer :: inbox w' /\
        log w'
        = log w ++ [ EWrite ("form:elem READ" +:+ Keithley.newline
                               +:+ ";FETCh?");
                     ERead answer ] /\
        length out
        = if truthy (Keithley.scanning st)
          then length (Keithley.answer_tokens answer) else 1%nat) /\
  (forall e,
      fst (Keithley.call st w) = Raise e ->
      (e = TimeoutError /\ inbox w = []) \/
      (e = ValueError /\
       exists answer rs,
         inbox w = answer :: rs /\
         Keithley.floats_of (Keithley.answer_tokens answer)
         = Raise ValueError)) /\
  (forall rs, inbox w = "" :: rs ->
              fst (Keithley.call st w) = Raise ValueError).
Proof.
  unfold Keithley.call.
  unfold mbind, io_mbind, io_bind, mret, io_mret, io_ret, lift, port_write,
    port_read.
  simpl_world.
  destruct (inbox w) as [|answer rs] eqn:Hin.
  - split; [intros out w' H; discriminate H|].
    split; [|intros rs H; discriminate H].
    intros e H. injection H as <-. left. auto.
  - simpl_world.
    destruct (Keithley.floats_of (Keithley.answer_tokens answer))
      as [vals|e0] eqn:Hf.
    + split; [|split].
      * intros out w' H.
        assert (Hv : vals <> []).
        { apply floats_of_length in Hf. intros ->.
          unfold Keithley.answer_tokens in Hf.
          destruct (split_nonempty (strip answer Keithley.newline) ",")
            as (t & ts & E).
          rewrite E in Hf. discriminate Hf. }
        apply floats_of_length in Hf.
        destruct (truthy (Keithley.scanning st)); injection H as <- <-;
          simpl_world; rewrite <- List.app_assoc.
        -- split; [exact Hv|]. exists answer. rewrite Hf. auto.
        -- split; [discriminate|]. exists answer. auto.
      * intros e H. destruct (truthy (Keithley.scanning st)); discriminate H.
      * intros rs' H. injection H as -> ->. vm_compute in Hf. discriminate Hf.
    + pose proof (floats_of_raises _ _ Hf) as ->.
      split; [intros out w' H; discriminate H|]. split.
      * intros e H. injection H as <-. right. split; [reflexivity|].
        exists answer, rs. auto.
      * intros rs' H. reflexivity.
Qed.

(** ** Lock-in: what [unit_to_float] gives on the labels *)

(** X15.  [unit_to_float] of the lock-in on a number that is not negative,
    written in decimal and followed by an optional space, an optional
    prefix m, µ or n, and an optional unit V or s: the result is the
    binary64 number nearest to the number times 1, 1e-3, 1e-6 or 1e-9.
    The labels of [timeconstants] that do not end in "k" have this form,
    so each of them converts. *)
Theorem X15_lockin_unit_to_float_scaled (n : Z) (suffix : string) (e : Z) :
  0 <= n ->
  In (suffix, e)
    [ ("", 0); ("m", -3); ("µ", -6); ("n", -9);
      ("s", 0); ("ms", -3); ("µs", -6); ("ns", -9);
      ("V", 0); ("mV", -3); ("µV", -6); ("nV", -9);
      (" V", 0); (" mV", -3); (" µV", -6); (" nV", -9) ] ->
  LockIn.unit_to_float (VStr (str_of_int n +:+ suffix))
  = Ok (float_of_decimal false n e) /\
  (forall label cmd,
      In (label, cmd) LockIn.timeconstants -> endswith label "k" = false ->
      exists n' suffix' e',
        0 <= n' /\ In (suffix', e') [("", 0); ("m", -3); ("µ", -6)] /\
        label = str_of_int n' +:+ suffix' /\
        LockIn.unit_to_float (VStr label)
        = Ok (float_of_decimal false n' e')).
Proof.
  intros Hn Hin.
  pose proof unit_to_float_scaled as G.
  split; [apply G; assumption|].
  intros label cmd Hl Hk. unfold LockIn.timeconstants in Hl. cbn [In] in Hl.
  repeat (destruct Hl as [Hl|Hl];
          [injection Hl as <- <-; try discriminate Hk|]);
    try destruct Hl.
  all: match goal with
       | |- exists _ _ _, _ /\ _ /\ ?label = _ /\ _ =>
           first
             [ let x := eval vm_compute in (int_of_str label) in
               match x with
               | Ok ?v => exists v, "", 0
               end
             | let x := eval vm_compute in
                        (int_of_str (slice_drop_last 1 label)) in
               match x with
               | Ok ?v =>
                   let y := eval vm_compute in (endswith label "m") in
                   match y with
                   | true => exists v, "m", (-3)
                   | false => exists v, "µ", (-6)
                   end
               end ]
       end.
  all: split; [lia|]; split; [cbn [In]; tauto|]; split; [reflexivity|].
  all: match goal with
       | |- LockIn.unit_to_float (VStr _) = Ok (float_of_decimal _ ?v ?e) =>
           first [ apply (G v "" 0); [lia|cbn [In]; tauto]
                 | apply (G v "m" (-3)); [lia|cbn [In]; tauto]
                 | apply (G v "µ" (-6)); [lia|cbn [In]; tauto] ]
       end.
Qed.

Lemma X15_lockin_unit_to_float_scaled_witness :
  LockIn.unit_to_float (VStr "100m") = Ok 0.1%float /\
  LockIn.unit_to_float (VStr "640µ") = Ok 0.00064%float /\
  LockIn.unit_to_float (VStr "5 nV") = Ok 5e-9%float.
Proof.
  split; [|split].
  - apply (proj1 (X15_lockin_unit_to_float_scaled 100 "m" (-3)
                    ltac:(lia) ltac:(cbn [In]; tauto))).
  - apply (proj1 (X15_lockin_unit_to_float_scaled 640 "µ" (-6)
                    ltac:(lia) ltac:(cbn [In]; tauto))).
  - apply (proj1 (X15_lockin_unit_to_float_scaled 5 " nV" (-9)
                    ltac:(lia) ltac:(cbn [In]; tauto))).
Defined.

(** ** Lock-in: the readings and what [call] returns *)

Lemma inv_gains_lookup (m : gmap Z Z) (code : Z) :
  LockIn.inv_gains_of LockIn.gains = Ok m ->
  m !! code = if (0 <=? code) && (code <=? 9) then Some (10 * code) else None.
Proof.
  intros H.
  assert (Hm : Ok m = LockIn.inv_gains_of LockIn.gains) by (symmetry; exact H).
  vm_compute in Hm. injection Hm as Hm. clear H.
  destruct (m !! code) as [n|] eqn:L.
  - apply elem_of_map_to_list in L. rewrite Hm in L.
    match type of L with
    | _ ∈ ?l => let l' := eval vm_compute in l in change l with l' in L
    end.
    repeat (apply elem_of_cons in L;
            destruct L as [L|L]; [injection L as -> ->; reflexivity|]).
    apply elem_of_nil in L. contradiction.
  - destruct ((0 <=? code) && (code <=? 9)) eqn:B; [|reflexivity].
    apply andb_true_iff in B as [B1 B2].
    apply Z.leb_le in B1. apply Z.leb_le in B2.
    assert (Hin : m !! code = Some (10 * code)).
    { rewrite Hm.
      assert (Hc : code = 0 \/ code = 1 \/ code = 2 \/ code = 3 \/
                   code = 4 \/ code = 5 \/ code = 6 \/ code = 7 \/
                   code = 8 \/ code = 9) by lia.
      repeat (destruct Hc as [->|Hc]; [vm_compute; reflexivity|]).
      subst code. vm_compute. reflexivity. }
    rewrite Hin in L. discriminate L.
Qed.

(** One query of the lock-in that is answered. *)
Lemma lockin_query_run (cmd a : string) (rs : list string) (w : world) :
  inbox w = a :: rs ->
  LockIn.query_float cmd w
  = (float_of_str a, emit (ERead a) (set_inbox rs (emit (EWrite cmd) w))) /\
  LockIn.get_acgain w
  = (int_of_str a,
     emit (ERead a) (set_inbox rs (emit (EWrite "ACGAIN") w))).
Proof.
  intros H. unfold LockIn.query_float, LockIn.get_acgain.
  unfold mbind, io_mbind, io_bind, port_write, port_read, lift.
  simpl_world. rewrite H. split.
  - destruct (float_of_str a); reflexivity.
  - destruct (int_of_str a); reflexivity.
Qed.

(** X16.  [read_result] of the lock-in with the inverse gain table of
    [__init__], when the instrument gives six answers of which the first
    five are float literals and the sixth an integer: it has asked "FRQ.",
    "MAG.", "PHA.", "SEN.", "NHZ." and "ACGAIN" in this order and read the
    six answers.  If the integer is a gain code from 0 to 9, [call] then
    returns magnitude, phase, frequency, sensitivity, ten times the code
    (the gain in dB) and noise density, in this order; if it is any other
    integer, [read_result] raises KeyError. *)
Theorem X16_lockin_readings
    (st : LockIn.state) (w : world)
    (a_frq a_mag a_pha a_sen a_nhz a_acg : string) (post : list string)
    (v_frq v_mag v_pha v_sen v_nhz : float) (code : Z) :
  LockIn.inv_gains_of LockIn.gains = Ok (LockIn.inv_gains st) ->
  inbox w = [a_frq; a_mag; a_pha; a_sen; a_nhz; a_acg] ++ post ->
  float_of_str a_frq = Ok v_frq ->
  float_of_str a_mag = Ok v_mag ->
  float_of_str a_pha = Ok v_pha ->
  float_of_str a_sen = Ok v_sen ->
  float_of_str a_nhz = Ok v_nhz ->
  int_of_str a_acg = Ok code ->
  let r := LockIn.read_result st w in
  writes (log (snd r))
  = writes (log w) ++ ["FRQ."; "MAG."; "PHA."; "SEN."; "NHZ."; "ACGAIN"] /\
  reads (log (snd r))
  = reads (log w) ++ [a_frq; a_mag; a_pha; a_sen; a_nhz; a_acg] /\
  inbox (snd r) = post /\
  (0 <= code <= 9 ->
   exists st',
     fst r = Ok st' /\
     LockIn.call st'
     = [ VFloat v_mag; VFloat v_pha; VFloat v_frq; VFloat v_sen;
         VInt (10 * code); VFloat v_nhz ]) /\
  (~ 0 <= code <= 9 -> fst r = Raise KeyError).
Proof.
  intros Htbl Hin F1 F2 F3 F4 F5 F6 r.
  pose proof (inv_gains_lookup _ code Htbl) as Hl.
  assert (Er : r = LockIn.read_result st w) by reflexivity. clearbody r.
  unfold LockIn.read_result in Er. cbn [app] in Hin.
  unfold mbind at 1, io_mbind at 1, io_bind at 1 in Er.
  rewrite (proj1 (lockin_query_run "FRQ." a_frq _ w Hin)), F1 in Er.
  do 4 (unfold mbind at 1, io_mbind at 1, io_bind at 1 in Er;
        match type of Er with
        | context [LockIn.query_float ?cmd ?w0] =>
            rewrite (proj1 (lockin_query_run cmd _ _ w0 eq_refl)) in Er
        end;
        rewrite ?F2, ?F3, ?F4, ?F5 in Er).
  unfold mbind at 1, io_mbind at 1, io_bind at 1 in Er.
  match type of Er with
  | context [LockIn.get_acgain ?w0] =>
      rewrite (proj2 (lockin_query_run "" _ _ w0 eq_refl)) in Er
  end.
  rewrite F6 in Er.
  unfold mbind, io_mbind, io_bind, mret, io_mret, io_ret, lift in Er.
  rewrite Hl in Er.
  destruct ((0 <=? code) && (code <=? 9)) eqn:B; subst r.
  - apply andb_true_iff in B as [B1 B2].
    apply Z.leb_le in B1. apply Z.leb_le in B2.
    simpl_world. rewrite !writes_app, !reads_app. cbn [writes reads].
    rewrite ?app_nil_r, <- ?List.app_assoc.
    repeat split; try reflexivity.
    + intros _. eexists. split; reflexivity.
    + intros Hc. lia.
  - simpl_world. rewrite !writes_app, !reads_app. cbn [writes reads].
    rewrite ?app_nil_r, <- ?List.app_assoc.
    repeat split; try reflexivity.
    intros Hc. apply andb_false_iff in B as [B|B];
      [apply Z.leb_gt in B|apply Z.leb_gt in B]; lia.
Qed.

Lemma X16_lockin_readings_witness :
  let w := world_with ["1000.0"; "0.5"; "12.5"; "1E-3"; "2e-9"; "3"]
             (fun _ => false) in
  exists st',
    fst (LockIn.read_result (lockin_ready "100m" 4) w) = Ok st' /\
    LockIn.call st'
    = [ VFloat 0.5; VFloat 12.5; VFloat 1000; VFloat 0.001; VInt 30;
        VFloat 2e-9 ].
Proof.
  pose proof (X16_lockin_readings (lockin_ready "100m" 4)
                (world_with ["1000.0"; "0.5"; "12.5"; "1E-3"; "2e-9"; "3"]
                   (fun _ => false))
                "1000.0" "0.5" "12.5" "1E-3" "2e-9" "3" []
                1000 0.5 12.5 0.001 2e-9 3
                eq_refl eq_refl eq_refl eq_refl eq_refl eq_refl eq_refl
                eq_refl) as H.
  cbv zeta in H. destruct H as (_ & _ & _ & H & _).
  apply H. lia.
Defined.

(** ** Lock-in: the settle time counted from [adapt_ready] *)

Lemma sub_zero_r (x : float) : (x - 0)%float = x.
Proof.
  apply Prim2SF_inj. rewrite sub_spec.
  change (Prim2SF 0) with (S754_zero false).
  destruct (Prim2SF x) as [[]|[]| |s m e]; reflexivity.
Qed.

Lemma sub_diag_finite (c : float) :
  is_finite c = true -> (c - c)%float = 0%float.
Proof.
  unfold is_finite, is_nan, is_infinity. intros H.
  apply Bool.negb_true_iff in H. apply Bool.orb_false_iff in H as [Hn Hi].
  apply Bool.negb_false_iff in Hn.
  rewrite FloatAxioms.eqb_spec in Hn.
  rewrite FloatAxioms.eqb_spec, FloatAxioms.abs_spec in Hi.
  apply Prim2SF_inj. rewrite sub_spec.
  change (Prim2SF 0) with (S754_zero false).
  change (Prim2SF infinity) with (S754_infinity false) in Hi.
  destruct (Prim2SF c) as [[]|[]| |s m e];
    try reflexivity; try discriminate Hn; try discriminate Hi.
  unfold SF64sub, SFsub. rewrite Z.sub_diag. reflexivity.
Qed.

(** X17.  [trigger_ready] of the lock-in called at the time [adapt_ready]
    recorded, a finite time: nothing has elapsed, so the wait is the whole
    of the wait factor times the time constant, the value of its label.
    When that product is positive and [time.sleep] accepts it,
    [trigger_ready] sleeps once, for exactly that long; when [time.sleep]
    refuses it, [trigger_ready] raises what [time.sleep] raises and has not
    slept; when the product is not positive, it returns at once. *)
Theorem X17_lockin_settle_after_adapt
    (st : LockIn.state) (w : world) (wait tc : float) (unit : value) :
  is_finite (clock w) = true ->
  LockIn.waittimeconstants st = Some wait ->
  LockIn.timeconstant st = Some unit ->
  LockIn.unit_to_float unit = Ok tc ->
  exists st1,
    LockIn.adapt_ready st w = (Ok st1, w) /\
    LockIn.time_ref st1 = clock w /\
    (forall n suffix e,
        0 <= n -> In (suffix, e) label_scales ->
        unit = VStr (str_of_int n +:+ suffix) ->
        tc = float_of_decimal false n e) /\
    ((0 <? wait * tc)%float = true ->
     sleep_check (wait * tc) = Ok tt ->
     LockIn.trigger_ready st1 w = (Ok tt, slept (wait * tc) w)) /\
    ((0 <? wait * tc)%float = true ->
     forall e, sleep_check (wait * tc) = Raise e ->
               LockIn.trigger_ready st1 w = (Raise e, w)) /\
    ((0 <? wait * tc)%float = false ->
     LockIn.trigger_ready st1 w = (Ok tt, w)).
Proof.
  intros Hfin Hw Ht Hu.
  exists (LockIn.set_time_ref (clock w) st).
  split; [reflexivity|]. split; [reflexivity|].
  split.
  { intros n suffix e Hn Hin ->.
    rewrite (unit_to_float_scaled n suffix e Hn Hin) in Hu.
    injection Hu as <-. reflexivity. }
  assert (Hrun : LockIn.trigger_ready (LockIn.set_time_ref (clock w) st) w
                 = (if (0 <? wait * tc)%float then time_sleep (wait * tc) w
                    else (Ok tt, w))).
  { unfold LockIn.trigger_ready.
    cbn [LockIn.set_time_ref LockIn.waittimeconstants LockIn.timeconstant
         LockIn.time_ref].
    rewrite Hw, Ht.
    unfold mbind, io_mbind, io_bind, mret, io_mret, io_ret, lift, time_time,
      LockIn.attr.
    rewrite Hu. rewrite (sub_diag_finite _ Hfin), sub_zero_r.
    destruct (0 <? wait * tc)%float; reflexivity. }
  rewrite Hrun. unfold time_sleep.
  split; [|split].
  - intros -> ->. reflexivity.
  - intros -> e ->. reflexivity.
  - intros ->. reflexivity.
Qed.

Lemma X17_lockin_settle_after_adapt_witness :
  exists st1,
    LockIn.adapt_ready (lockin_bound "100m" 4) (world_at 12.5)
    = (Ok st1, world_at 12.5) /\
    LockIn.trigger_ready st1 (world_at 12.5)
    = (Ok tt, slept (4 * float_of_decimal false 100 (-3)) (world_at 12.5)).
Proof.
  destruct (X17_lockin_settle_after_adapt (lockin_bound "100m" 4)
              (world_at 12.5) 4 0.1 (VStr "100m")
              eq_refl eq_refl eq_refl eq_refl)
    as (st1 & H1 & _ & Hv & H2 & _).
  exists st1. split; [exact H1|].
  rewrite <- (Hv 100 "m" (-3) ltac:(lia)
                ltac:(unfold label_scales; cbn [In]; tauto) eq_refl).
  apply H2; reflexivity.
Defined.

(** ** Lock-in: the commands of [configure] *)

Lemma lockin_send_run (table : list (string * string)) (key : value)
    (cmd : string) (w : world) :
  LockIn.table_get_value table key = Ok cmd ->
  LockIn.send table key w = (Ok tt, emit (EWrite cmd) w).
Proof.
  intros H. unfold LockIn.send, mbind, io_mbind, io_bind, lift.
  rewrite H. reflexivity.
Qed.

Lemma lockin_amplitude_100 (w : world) :
  LockIn.set_oscillator_amplitude (VInt 100) w
  = (Ok tt, emit (EWrite "OA. 100000") w).
Proof. vm_compute. reflexivity. Qed.

(** X18.  [configure] of the lock-in with "Auto sensitivity" and, for the
    other settings, labels of their tables: it returns, reads nothing,
    does not sleep and does not consult [self.sensitivities]; it sends, in
    this order, the commands of the source, the input, the slope, the
    ground, the coupling, the notch filter, the sync filter, the gain and
    the time constant, then "AQN", and last "OA. 100000" when the sweep
    mode is "Oscillator frequency in Hz". *)
Theorem X18_lockin_configure_commands
    (sensitivities : result (list (string * string)))
    (st : LockIn.state) (w : world) (cmds : list string)
    (unit : value) (c_tc : string) :
  Forall2 (fun (s : list (string * string) * value) (c : string) =>
             LockIn.table_get_value (fst s) (snd s) = Ok c)
    [ (LockIn.source_commands, LockIn.source st);
      (LockIn.input_commands, LockIn.input st);
      (LockIn.slopes, LockIn.slope st);
      (LockIn.commands, LockIn.ground st);
      (LockIn.coupling_commands, LockIn.coupling st);
      (LockIn.filter1_commands, LockIn.filter1 st);
      (LockIn.filter2_commands, LockIn.filter2 st);
      (LockIn.gains, LockIn.gain st) ] cmds ->
  eq_str (LockIn.sensitivity st) "Auto sensitivity" = true ->
  LockIn.timeconstant st = Some unit ->
  LockIn.table_get_value LockIn.timeconstants unit = Ok c_tc ->
  let r := LockIn.configure sensitivities st w in
  fst r = Ok tt /\
  inbox (snd r) = inbox w /\
  reads (log (snd r)) = reads (log w) /\
  sleeps (log (snd r)) = sleeps (log w) /\
  writes (log (snd r))
  = writes (log w) ++ cmds ++ [c_tc; "AQN"]
      ++ (if eq_str (LockIn.sweepmode st) "Oscillator frequency in Hz"
          then ["OA. 100000"] else []).
Proof.
  intros HF Hs Ht Htc r.
  repeat match goal with
         | H : Forall2 _ (_ :: _) _ |- _ =>
             inversion H as [|? ? ? ? ? ?]; subst; clear H
         | H : Forall2 _ [] _ |- _ => inversion H; subst; clear H
         end.
  cbn [fst snd] in *.
  assert (Er : r = LockIn.configure sensitivities st w) by reflexivity.
  clearbody r.
  unfold LockIn.configure in Er.
  repeat (unfold mbind at 1, io_mbind at 1, io_bind at 1 in Er;
          erewrite lockin_send_run in Er by eassumption).
  rewrite Hs in Er. cbn [negb] in Er.
  unfold mbind at 1, io_mbind at 1, io_bind at 1 in Er.
  unfold mret at 1, io_mret at 1, io_ret at 1 in Er.
  rewrite Ht in Er.
  unfold mbind at 1, io_mbind at 1, io_bind at 1 in Er.
  unfold lift at 1, LockIn.attr in Er.
  unfold mbind at 1, io_mbind at 1, io_bind at 1 in Er.
  erewrite lockin_send_run in Er by eassumption.
  destruct (eq_str (LockIn.sweepmode st) "Oscillator frequency in Hz").
  - unfold mbind, io_mbind, io_bind, port_write in Er.
    cbv beta iota in Er. rewrite lockin_amplitude_100 in Er.
    subst r. simpl_world. rewrite !writes_app, !reads_app, !sleeps_app.
    cbn [writes reads sleeps].
    rewrite ?app_nil_r, <- ?List.app_assoc. repeat split; reflexivity.
  - unfold mbind, io_mbind, io_bind, mret, io_mret, io_ret, lift, port_write
      in Er.
    subst r. simpl_world. rewrite !writes_app, !reads_app, !sleeps_app.
    cbn [writes reads sleeps].
    rewrite ?app_nil_r, <- ?List.app_assoc. repeat split; reflexivity.
Qed.

Lemma X18_lockin_configure_commands_witness :
  let r := LockIn.configure (Raise AttributeError) (lockin_bound "100m" 4)
             (world_at 0) in
  fst r = Ok tt /\
  writes (log (snd r))
  = [ "IE 0"; "IMODE0; VMODE 1; REF FRONT"; "SLOPE 1"; "FLOAT 0"; "CP 0";
      "LF 0 0"; "SYNC 0"; "AUTOMATIC 1"; "TC 11"; "AQN" ].
Proof.
  pose proof (X18_lockin_configure_commands (Raise AttributeError)
                (lockin_bound "100m" 4) (world_at 0)
                [ "IE 0"; "IMODE0; VMODE 1; REF FRONT"; "SLOPE 1"; "FLOAT 0";
                  "CP 0"; "LF 0 0"; "SYNC 0"; "AUTOMATIC 1" ]
                (VStr "100m") "TC 11"
                ltac:(repeat constructor) eq_refl eq_refl eq_refl) as H.
  cbv zeta in H. destruct H as (H1 & _ & _ & _ & H2).
  split; [exact H1|exact H2].
Defined.

(** ** Lock-in: what a binding declares *)

(** X19.  After a binding of the lock-in: the variables are the six names
    and the plot and save flags six times true; the units are six as well,
    in volts when the input label starts with "Voltage" and in amperes when
    it starts with "Current", as every label of [input_commands] does; for
    any other input label the units of the state before the binding are
    kept.  The time constant and the wait factor become those of the
    panel, the latter converted by [float]. *)
Theorem X19_lockin_declarations
    (p : gmap string value) (st st' : LockIn.state) :
  LockIn.get_GUIparameter p st = Ok st' ->
  exists (inp : string) (v_tc v_wait : value) (wait : float),
    p !! "Input" = Some (VStr inp) /\
    p !! "TimeConstant" = Some v_tc /\
    p !! "WaitTimeConstants" = Some v_wait /\
    to_float v_wait = Ok wait /\
    LockIn.timeconstant st' = Some v_tc /\
    LockIn.waittimeconstants st' = Some wait /\
    LockIn.variables st'
    = [ "Magnitude"; "Phase"; "Frequency"; "Sensitivity"; "AC Gain";
        "Noise density" ] /\
    LockIn.plottype st' = [true; true; true; true; true; true] /\
    LockIn.savetype st' = [true; true; true; true; true; true] /\
    LockIn.units st'
    = (if startswith inp "Voltage"
       then ["V"; "deg"; "Hz"; "V"; "dB"; "V/sqrt(Hz)"]
       else if startswith inp "Current"
            then ["A"; "deg"; "Hz"; "V"; "dB"; "A/sqrt(Hz)"]
            else LockIn.units st) /\
    (In inp (map fst LockIn.input_commands) ->
     length (LockIn.units st') = length (LockIn.variables st')) /\
    LockIn.time_ref st' = LockIn.time_ref st /\
    LockIn.inv_gains st' = LockIn.inv_gains st.
Proof.
  intros H. unfold LockIn.get_GUIparameter in H.
  apply bind_ok in H as (p_sweepmode & _ & H).
  apply bind_ok in H as (p_source & _ & H).
  apply bind_ok in H as (p_input & Hinput & H).
  apply bind_ok in H as (p_coupling & _ & H).
  apply bind_ok in H as (p_slope & _ & H).
  apply bind_ok in H as (p_ground & _ & H).
  apply bind_ok in H as (p_sensitivity & _ & H).
  apply bind_ok in H as (p_filter1 & _ & H).
  apply bind_ok in H as (p_filter2 & _ & H).
  apply bind_ok in H as (p_gain & _ & H).
  apply bind_ok in H as (p_tc & Htc & H).
  apply bind_ok in H as (p_wait & Hwait & H).
  apply bind_ok in H as (wait & Hfloat & H).
  apply bind_ok in H as (inp & Hinp & H). cbv zeta in H.
  injection H as <-.
  destruct p_input as [| | | |s]; try discriminate Hinp. injection Hinp as ->.
  unfold getitem in Hinput, Htc, Hwait.
  destruct (p !! "Input") as [v1|]; [|discriminate Hinput].
  destruct (p !! "TimeConstant") as [v2|]; [|discriminate Htc].
  destruct (p !! "WaitTimeConstants") as [v3|]; [|discriminate Hwait].
  injection Hinput as ->. injection Htc as ->. injection Hwait as ->.
  exists inp, p_tc, p_wait, wait.
  cbn [LockIn.timeconstant LockIn.waittimeconstants LockIn.variables
       LockIn.plottype LockIn.savetype LockIn.units LockIn.time_ref
       LockIn.inv_gains].
  repeat (split; [reflexivity || assumption|]).
  split; [|split; reflexivity].
  intros Hin. unfold LockIn.input_commands in Hin. cbn [map fst In] in Hin.
  repeat (destruct Hin as [<-|Hin]; [reflexivity|]). destruct Hin.
Qed.

Lemma X19_lockin_declarations_witness :
  exists st',
    LockIn.get_GUIparameter (lockin_parameters "100m") (lockin_bound "1" 1)
    = Ok st' /\
    LockIn.units st' = ["V"; "deg"; "Hz"; "V"; "dB"; "V/sqrt(Hz)"] /\
    LockIn.timeconstant st' = Some (VStr "100m") /\
    LockIn.waittimeconstants st' = Some 4%float.
Proof.
  eexists. split; [reflexivity|].
  match goal with
  | |- LockIn.units ?s = _ /\ _ =>
      destruct (X19_lockin_declarations (lockin_parameters "100m")
                  (lockin_bound "1" 1) s eq_refl)
        as (inp & v_tc & v_wait & wait & Hi & Ht & Hw & Hf & H1 & H2 & _ & _
            & _ & Hu & _)
  end.
  vm_compute in Hi, Ht, Hw. injection Hi as <-. injection Ht as <-.
  injection Hw as <-. vm_compute in Hf. injection Hf as <-.
  split; [exact Hu|]. split; [exact H1|exact H2].
Defined.
